(** * Pod assembly, reference matching and termination messages

    A shallow embedding of the pod builder ([pkg/pod/pod.go]), of the
    result-reference matcher ([validateString]) and of the termination
    message length error, together with the properties the design
    document states about them.

    Layout: Part I holds the definitions, one module per Go package;
    Part II holds the lemmas and theorems. *)

From stdpp Require Import gmap strings list fin_maps pretty.
From Stdlib Require Import Ascii ZArith.

Local Open Scope string_scope.
Local Open Scope list_scope.

(* ===================================================================== *)
(** * Part I: definitions                                                 *)
(* ===================================================================== *)

(** ** Go values shared by all packages *)
Module golang.

(** A Go slice value is either [nil] or a (possibly empty) sequence:
    [None] stands for the nil slice, [Some l] for a non-nil slice. *)
Definition slice (A : Type) : Type := option (list A).

Definition nil {A} : slice A := None.

(** [len(s)]: the nil slice has length 0. *)
Definition len {A} (s : slice A) : nat :=
  match s with None => 0%nat | Some l => length l end.

(** [for _, x := range s]: the elements ranged over. *)
Definition elems {A} (s : slice A) : list A :=
  match s with None => [] | Some l => l end.

(** [append(s, x)]: appending always yields a non-nil slice. *)
Definition append {A} (s : slice A) (x : A) : slice A :=
  Some (elems s ++ [x]).

(** [error] values are carried as their message. *)
Definition error : Type := string.

(** Outcome of a call that returns [(T, error)] and may panic. *)
Inductive result (A : Type) : Type :=
| Ok (a : A)
| Err (e : error)
| Panic (msg : string).
Global Arguments Ok {A} a.
Global Arguments Err {A} e.
Global Arguments Panic {A} msg.

(** Sequencing of calls that return [(T, error)]:
    [if err != nil { return nil, err }]. *)
Definition andThen {A B} (r : result A) (k : A → result B) : result B :=
  match r with
  | Ok a => k a
  | Err e => Err e
  | Panic msg => Panic msg
  end.

(** The value of an outcome that is [Ok]. *)
Definition getOk {A : Type} (r : result A)
    : match r return Type with Ok _ => A | _ => unit end :=
  match r with Ok a => a | _ => () end.

(** [strings.TrimPrefix]. *)
Definition TrimPrefix (s prefix : list ascii) : list ascii :=
  if bool_decide (take (length prefix) s = prefix)
  then drop (length prefix) s else s.

(** [strings.TrimSuffix]. *)
Definition TrimSuffix (s suffix : list ascii) : list ascii :=
  let n := (length s - length suffix)%nat in
  if bool_decide (drop n s = suffix ∧ (length suffix ≤ length s)%nat)
  then take n s else s.

End golang.

(** ** Package [regexp] (Go standard library), as far as [FindAllString]
    needs it: syntax trees, the leftmost-first backtracking order and the
    iteration over successive matches.  Text is taken byte by byte; the
    patterns at hand hold ASCII characters only, which never occur
    inside a multi-byte UTF-8 sequence. *)
Module regexp.

(** Syntax, after [regexp/syntax]: literals, character classes given by
    their ranges, concatenation, alternation and the three repetition
    operators.  Capture groups only group, since [FindAllString] reports
    whole matches. *)
Inductive Regexp : Type :=
| OpLiteral (c : ascii)
| OpCharClass (ranges : list (ascii * ascii))
| OpConcat (r1 r2 : Regexp)
| OpAlternate (r1 r2 : Regexp)
| OpStar (r : Regexp)
| OpPlus (r : Regexp)
| OpQuest (r : Regexp).

(** Membership of a character in a class [[lo1-hi1 lo2-hi2 ...]]. *)
Definition in_class (ranges : list (ascii * ascii)) (c : ascii) : bool :=
  existsb (λ '(lo, hi), (nat_of_ascii lo <=? nat_of_ascii c)%nat
                        && (nat_of_ascii c <=? nat_of_ascii hi)%nat) ranges.

(** Greedy iteration: first try one more non-empty round of [step],
    then stop.  [fuel] bounds the number of rounds; every round
    consumes input, so [length s] rounds always suffice. *)
Fixpoint star_loop (step : list ascii → list (list ascii))
    (fuel : nat) (s : list ascii) : list (list ascii) :=
  match fuel with
  | O => [s]
  | S n =>
      (step s ≫= λ s', if (length s' <? length s)%nat
                        then star_loop step n s' else []) ++ [s]
  end.

(** [backtrack r s]: every way of matching [r] against a prefix of
    [s], given by the input left over, in the order a backtracking
    matcher tries them.  Its head is the leftmost-first (Perl-like)
    match that package [regexp] reports. *)
Fixpoint backtrack (r : Regexp) (s : list ascii) : list (list ascii) :=
  match r with
  | OpLiteral c =>
      match s with
      | a :: t => if Ascii.eqb a c then [t] else []
      | [] => []
      end
  | OpCharClass ranges =>
      match s with
      | a :: t => if in_class ranges a then [t] else []
      | [] => []
      end
  | OpConcat r1 r2 => backtrack r1 s ≫= backtrack r2
  | OpAlternate r1 r2 => backtrack r1 s ++ backtrack r2 s
  | OpStar r => star_loop (backtrack r) (length s) s
  | OpPlus r => backtrack r s ≫= λ s', star_loop (backtrack r) (length s') s'
  | OpQuest r => backtrack r s ++ [s]
  end.

(** The language of a syntax tree, independently of any matching
    strategy: [matches r u] when the text [u] as a whole is in the
    language of [r]. *)
Inductive matches : Regexp → list ascii → Prop :=
| matches_literal c : matches (OpLiteral c) [c]
| matches_class ranges c :
    in_class ranges c = true → matches (OpCharClass ranges) [c]
| matches_concat r1 r2 u v :
    matches r1 u → matches r2 v → matches (OpConcat r1 r2) (u ++ v)
| matches_alt_l r1 r2 u : matches r1 u → matches (OpAlternate r1 r2) u
| matches_alt_r r1 r2 u : matches r2 u → matches (OpAlternate r1 r2) u
| matches_star_nil r : matches (OpStar r) []
| matches_star_cons r u v :
    matches r u → matches (OpStar r) v → matches (OpStar r) (u ++ v)
| matches_plus r u v :
    matches r u → matches (OpStar r) v → matches (OpPlus r) (u ++ v)
| matches_quest_nil r : matches (OpQuest r) []
| matches_quest_some r u : matches r u → matches (OpQuest r) u.

(** Some substring of [s] is in the language of [re]. *)
Definition has_match (re : Regexp) (s : list ascii) : Prop :=
  ∃ before m after, s = before ++ m ++ after ∧ matches re m.

(** [doExecute]: the leftmost match at or after the current position,
    as (text skipped, text matched, text left). *)
Fixpoint doExecute (re : Regexp) (s : list ascii)
    : option (list ascii * list ascii * list ascii) :=
  match backtrack re s with
  | rest :: _ => Some ([], take (length s - length rest) s, rest)
  | [] =>
      match s with
      | [] => None
      | c :: t =>
          match doExecute re t with
          | Some (skipped, m, rest) => Some (c :: skipped, m, rest)
          | None => None
          end
      end
  end.

(** [allMatches]: the loop of [Regexp.allMatches].  [atPrevEnd] records
    that the previous match ended exactly at the current position
    ([prevMatchEnd == pos]): an empty match there is not delivered.
    After an empty match the position advances by one character, after
    any other match to its end.  Every round advances the position, so
    [length s + 1] rounds of [fuel] always suffice. *)
Fixpoint allMatches (re : Regexp) (fuel : nat) (atPrevEnd : bool)
    (s : list ascii) : list (list ascii) :=
  match fuel with
  | O => []
  | S n =>
      match doExecute re s with
      | None => []
      | Some ([], [], _) =>
          let delivered := if atPrevEnd then [] else [[]] in
          match s with
          | [] => delivered
          | _ :: t => delivered ++ allMatches re n false t
          end
      | Some (_, m, rest) => m :: allMatches re n true rest
      end
  end.

(** [re.FindAllString(s, -1)]: all successive matches; the result is
    the nil slice when there is none. *)
Definition FindAllString (re : Regexp) (s : string) : golang.slice string :=
  match allMatches re (S (String.length s)) false (String.list_ascii_of_string s) with
  | [] => golang.nil
  | ms => Some (String.string_of_list_ascii <$> ms)
  end.

End regexp.

(** ** Package [types]: result references in strings *)
Module types.
Import regexp.

(** The class [[_a-zA-Z0-9.-]]. *)
Definition nameChars : Regexp :=
  OpCharClass [("_", "_"); ("a", "z"); ("A", "Z"); ("0", "9");
               (".", "."); ("-", "-")]%char.

Definition digits : Regexp := OpCharClass [("0", "9")]%char.

(** The pattern text of [variableSubstitutionFormat]. *)
Definition variableSubstitutionFormat : string :=
  "\$\([_a-zA-Z0-9.-]+(\.[_a-zA-Z0-9.-]+)*(\[([0-9]+|\*)\])?\)".

(** [regexp.MustCompile(variableSubstitutionFormat)]: the syntax tree
    of the pattern above, read off operator by operator. *)
Definition VariableSubstitutionRegex : Regexp :=
  OpConcat (OpLiteral "$")
 (OpConcat (OpLiteral "(")
 (OpConcat (OpPlus nameChars)
 (OpConcat (OpStar (OpConcat (OpLiteral ".") (OpPlus nameChars)))
 (OpConcat (OpQuest (OpConcat (OpLiteral "[")
                    (OpConcat (OpAlternate (OpPlus digits) (OpLiteral "*"))
                              (OpLiteral "]"))))
           (OpLiteral ")"))))).

Definition stripVarSubExpression (expression : string) : string :=
  String.string_of_list_ascii
    (golang.TrimSuffix
       (golang.TrimPrefix (String.list_ascii_of_string expression)
                          (String.list_ascii_of_string "$("))
       (String.list_ascii_of_string ")")).

Definition validateString (value : string) : golang.slice string :=
  match FindAllString VariableSubstitutionRegex value with
  | None => golang.nil
  | Some expressions =>
      foldl (λ result expression,
               golang.append result (stripVarSubExpression expression))
            golang.nil expressions
  end.

(** A text contains a reference when one of its substrings has the
    form [variableSubstitutionFormat] describes. *)
Definition contains_reference (value : string) : Prop :=
  has_match VariableSubstitutionRegex (String.list_ascii_of_string value).

End types.

(** ** Package [message]: the termination message of a container *)
Module message.

(** [type MessageLengthError string] *)
Definition MessageLengthError : Type := string.

Definition errTooLong : MessageLengthError :=
  "Termination message is above max allowed size 4096, caused by large task result.".

(** [func (e MessageLengthError) Error() string] *)
Definition Error (e : MessageLengthError) : string := e.

(** The size the platform reads back, as [errTooLong] words it. *)
Definition maxSize : nat := 4096.

(** Modelled from the spec: the termination reasons of a step, as the
    data model of the design document lists them; their declaration
    is not among the sources. *)
Inductive Reason : Type :=
| Completed | Errored | ErroredIgnored | TimedOut | ExternallyTerminated.

(** Modelled from the spec: a captured result, name and textual
    value; its declaration is not among the sources. *)
Record Result : Type := { ResultName : string; ResultValue : string }.

(** Modelled from the spec: what a step's wrapper reports, namely
    exit code, reason, the captured results in declaration order and a
    free-text message; its declaration is not among the sources. *)
Record StepOutcome : Type := {
  ExitCode : Z;
  OutcomeReason : Reason;
  Results : list Result;
  Message : string;
}.

Section codec.
(** The wire format is not fixed by the design document: it only
    says which fields the payload carries.  The codec is therefore
    stated over any serializer. *)
Variable marshal : StepOutcome → list ascii.

(** Modelled from the spec: the encoder of the termination message
    is not among the sources; only its error type
    [MessageLengthError] is.  The design document gives the
    contract `Encode(outcome) -> bytes | LengthError`: the encoded
    size must not exceed 4096 bytes, and an encoding that would
    exceed it fails with the length error. *)
Definition Encode (outcome : StepOutcome)
    : MessageLengthError + list ascii :=
  let payload := marshal outcome in
  if (maxSize <? length payload)%nat then inl errTooLong
  else inr payload.
End codec.

(** A serializer for the examples of Part II: one line per field and
    per result. *)
Definition reasonText (r : Reason) : string :=
  match r with
  | Completed => "Completed"
  | Errored => "Errored"
  | ErroredIgnored => "ErroredIgnored"
  | TimedOut => "TimedOut"
  | ExternallyTerminated => "ExternallyTerminated"
  end.

Definition lineFormat (o : StepOutcome) : list ascii :=
  String.list_ascii_of_string
    (String.concat (String "010" EmptyString)
       (reasonText (OutcomeReason o) :: Message o
        :: ((λ r, ResultName r +:+ "=" +:+ ResultValue r) <$> Results o))).

End message.

(** ** The entrypoint wrapper of a step *)
Module entrypoint.
Import message.

(** Modelled from the spec: the [onError] policy of a step
    ([StopAndFail] by default, or [Continue], the [onError: continue]
    of the pipeline fixture); the wrapper and its types are not among
    the sources. *)
Inductive OnError : Type := StopAndFail | Continue.

(** Modelled from the spec: how the real command of a step came to
    an end (it exited, its timeout elapsed, or a signal came from
    outside), with the exit code reported for it. *)
Inductive Cause : Type := Exited | DeadlineExceeded | Signalled.

Record Termination : Type := { cause : Cause; code : Z }.

(** Modelled from the spec: the parameters the rewritten invocation
    hands to the wrapper (index, wait target, policy, result specs). *)
Record Wrapper : Type := {
  index : nat;
  waitTarget : option nat;      (* the predecessor's completion marker *)
  onError : OnError;
  resultPaths : list (string * string);   (* result name, reserved path *)
}.

(** Modelled from the spec: the volume shared by the step
    containers, with the completion markers written so far (by step
    index) and the files under the reserved result paths. *)
Record Volume : Type := {
  markers : gset nat;
  files : gmap string string;
}.

(** Modelled from the spec: what the platform and the consumers see
    of one wrapper run. *)
Record Run : Type := {
  outcome : StepOutcome;
  platformExitCode : Z;
  volume : Volume;
}.

(** Modelled from the spec: the entrypoint component is not among
    the sources (only a pipeline fixture that uses
    [onError: continue] is).  This is the rewrite contract of the
    design document: step [i] waits for the completion marker of step
    [i - 1], and step 0 waits for nothing. *)
Definition rewrite (i : nat) (policy : OnError)
    (paths : list (string * string)) : Wrapper :=
  {| index := i;
     waitTarget := match i with O => None | S j => Some j end;
     onError := policy;
     resultPaths := paths |}.

(** Modelled from the spec: the wait condition of a wrapper holds
    when it has no wait target or the target marker exists. *)
Definition waitSatisfied (w : Wrapper) (v : Volume) : bool :=
  match waitTarget w with
  | None => true
  | Some m => bool_decide (m ∈ markers v)
  end.

(** Modelled from the spec: reason selection.  Exit code 0 is
    [Completed]; a non-zero code is [Errored] under [StopAndFail] and
    [ErroredIgnored] under [Continue]; an elapsed timeout is
    [TimedOut]; a signal from outside is [ExternallyTerminated]. *)
Definition selectReason (policy : OnError) (t : Termination) : Reason :=
  match cause t with
  | Signalled => ExternallyTerminated
  | DeadlineExceeded => TimedOut
  | Exited =>
      if bool_decide (code t = 0%Z) then Completed
      else match policy with
           | StopAndFail => Errored
           | Continue => ErroredIgnored
           end
  end.

(** Modelled from the spec: whether the completion marker is written.
    It is after a completed step and after an ignored error; a timeout
    is handled like a failing exit unless the policy is [Continue];
    never after a failing exit under [StopAndFail] or a signal. *)
Definition writesMarker (policy : OnError) (r : Reason) : bool :=
  match r with
  | Completed | ErroredIgnored => true
  | TimedOut => match policy with Continue => true | StopAndFail => false end
  | Errored | ExternallyTerminated => false
  end.

(** Modelled from the spec: the results captured are the declared
    result paths that exist after the command, in declaration order. *)
Definition captureResults (paths : list (string * string))
    (fs : gmap string string) : list Result :=
  omap (λ '(name, path),
          (λ value, {| ResultName := name; ResultValue := value |})
            <$> fs !! path) paths.

(** Modelled from the spec: one run of the wrapper.  It is blocked
    ([None]) while its wait condition does not hold.  Otherwise the
    real command runs ([command] gives its effect on the files and how
    it ended), the outcome records the real exit code, and the wrapper
    exits with 0 when it writes the marker and with the real code when
    it does not. *)
Definition run (w : Wrapper) (v : Volume)
    (command : gmap string string → gmap string string * Termination)
    : option Run :=
  if waitSatisfied w v then
    let '(fs, t) := command (files v) in
    let reason := selectReason (onError w) t in
    let written := writesMarker (onError w) reason in
    Some {| outcome := {| ExitCode := code t;
                          OutcomeReason := reason;
                          Results := captureResults (resultPaths w) fs;
                          Message := "" |};
            platformExitCode := if written then 0%Z else code t;
            volume := {| markers := if written then {[index w]} ∪ markers v
                                    else markers v;
                         files := fs |} |}
  else None.

End entrypoint.

(** ** Package [path/filepath] (Go standard library) *)
Module filepath.

Fixpoint splitPath (cur s : list ascii) : list string :=
  match s with
  | [] => [String.string_of_list_ascii (reverse cur)]
  | c :: t =>
      if Ascii.eqb c "/" then
        String.string_of_list_ascii (reverse cur) :: splitPath [] t
      else splitPath (c :: cur) t
  end.

(** One path element against the elements kept so far (innermost
    first): empty and [.] elements vanish, [..] removes the element
    before it, or is dropped at the root, or is kept when nothing but
    [..] precedes it. *)
Definition cleanStep (rooted : bool) (out : list string) (elem : string)
    : list string :=
  if bool_decide (elem = "" ∨ elem = ".") then out
  else if bool_decide (elem = "..") then
    match out with
    | top :: rest => if bool_decide (top = "..") then ".." :: out else rest
    | [] => if rooted then [] else [".."]
    end
  else elem :: out.

(** [filepath.Clean] for slash-separated paths: the shortest path
    name equivalent to [path] by purely lexical processing. *)
Definition Clean (path : string) : string :=
  if bool_decide (path = "") then "."
  else
    let rooted := bool_decide (String.get 0 path = Some "/"%char) in
    let out := reverse (foldl (cleanStep rooted) []
                              (splitPath [] (String.list_ascii_of_string path))) in
    let body := String.concat "/" out in
    if rooted then "/" +:+ body
    else if bool_decide (body = "") then "." else body.

End filepath.

(** ** Package [pipeline]: reserved directories *)
Module pipeline.
Definition WorkspaceDir : string := "/workspace".
Definition DefaultResultPath : string := "/tekton/results".
Definition HomeDir : string := "/tekton/home".
Definition CredsDir : string := "/tekton/creds".
Definition StepsDir : string := "/tekton/steps".
Definition ScriptDir : string := "/tekton/scripts".
Definition ArtifactsDir : string := "/tekton/artifacts".

(** [pipeline.Images], as far as [Build] reads it. *)
Record Images : Type := {
  EntrypointImage : string;
  ShellImage : string;
  ShellImageWin : string;
}.
End pipeline.

(** Fields that [Build] only copies are carried as opaque text. *)
Definition opaque : Type := string.

(** ** Package [k8s.io/api/core/v1] and [meta/v1], as far as [Build]
    touches them *)
Module corev1.

(** A [resource.Quantity], by its numeric value in thousandths of the
    unit ([100m] is 100).  [Cmp] compares these values. *)
Abbreviation Quantity := Z.

Module EnvVar.
Record t : Type := { Name : string; Value : string }.
End EnvVar.

Module VolumeMount.
Record t : Type := { Name : string; MountPath : string }.
End VolumeMount.

Inductive VolumeSource : Type :=
| EmptyDir
| OtherSource (description : opaque).

Module Volume.
Record t : Type := { Name : string; Source : VolumeSource }.
End Volume.

(** [ResourceList]: a map from resource names to quantities.  Reading a
    missing key gives the zero quantity. *)
Abbreviation ResourceList := (gmap string Z).

Definition quantityOf (l : ResourceList) (k : string) : Quantity :=
  default 0%Z (l !! k).

(** [ResourceRequirements]: [Requests] is a map that may be nil. *)
Module ResourceRequirements.
Record t : Type := {
  Limits : ResourceList;
  Requests : option ResourceList;
}.
End ResourceRequirements.

Module Container.
Record t : Type := {
  Name : string;
  Image : string;
  Command : list string;
  Args : list string;
  WorkingDir : string;
  Env : list EnvVar.t;
  Resources : ResourceRequirements.t;
  VolumeMounts : list VolumeMount.t;
}.

Definition withName (c : t) (x : string) : t :=
  {| Name := x; Image := Image c; Command := Command c; Args := Args c;
     WorkingDir := WorkingDir c; Env := Env c; Resources := Resources c;
     VolumeMounts := VolumeMounts c |}.
Definition withWorkingDir (c : t) (x : string) : t :=
  {| Name := Name c; Image := Image c; Command := Command c; Args := Args c;
     WorkingDir := x; Env := Env c; Resources := Resources c;
     VolumeMounts := VolumeMounts c |}.
Definition withEnv (c : t) (x : list EnvVar.t) : t :=
  {| Name := Name c; Image := Image c; Command := Command c; Args := Args c;
     WorkingDir := WorkingDir c; Env := x; Resources := Resources c;
     VolumeMounts := VolumeMounts c |}.
Definition withResources (c : t) (x : ResourceRequirements.t) : t :=
  {| Name := Name c; Image := Image c; Command := Command c; Args := Args c;
     WorkingDir := WorkingDir c; Env := Env c; Resources := x;
     VolumeMounts := VolumeMounts c |}.
Definition withVolumeMounts (c : t) (x : list VolumeMount.t) : t :=
  {| Name := Name c; Image := Image c; Command := Command c; Args := Args c;
     WorkingDir := WorkingDir c; Env := Env c; Resources := Resources c;
     VolumeMounts := x |}.
End Container.

Inductive LimitType : Type :=
| LimitTypePod | LimitTypeContainer | LimitTypePersistentVolumeClaim.

Global Instance LimitType_eq_dec : EqDecision LimitType.
Proof. solve_decision. Defined.

(** [LimitRangeItem]: [Min] is a map that may be nil. *)
Module LimitRangeItem.
Record t : Type := { Type_ : LimitType; Min : option ResourceList }.
End LimitRangeItem.

(** [LimitRange], reduced to [Spec.Limits]. *)
Module LimitRange.
Record t : Type := { Limits : list LimitRangeItem.t }.
End LimitRange.

Module LabelSelector.
Record t : Type := {
  MatchLabels : gmap string string;
  MatchExpressions : list opaque;
}.
End LabelSelector.

Module PodAffinityTerm.
Record t : Type := {
  LabelSelector : option LabelSelector.t;
  Namespaces : list string;
  TopologyKey : string;
}.
End PodAffinityTerm.

Module PodAffinity.
Record t : Type := {
  RequiredDuringSchedulingIgnoredDuringExecution : list PodAffinityTerm.t;
  PreferredDuringSchedulingIgnoredDuringExecution : list opaque;
}.
End PodAffinity.

Module Affinity.
Record t : Type := {
  NodeAffinity : option opaque;
  PodAffinity : option PodAffinity.t;
  PodAntiAffinity : option opaque;
}.
End Affinity.

(** [metav1.OwnerReference] *)
Module OwnerReference.
Record t : Type := {
  APIVersion : string;
  Kind : string;
  Name : string;
  UID : string;
  Controller : option bool;
  BlockOwnerDeletion : option bool;
}.
End OwnerReference.

(** [schema.GroupVersionKind] *)
Module GroupVersionKind.
Record t : Type := { Group : string; Version : string; Kind : string }.
End GroupVersionKind.

(** [metav1.ObjectMeta] of a pod. *)
Module ObjectMeta.
Record t : Type := {
  Namespace : string;
  Name : string;
  OwnerReferences : list OwnerReference.t;
  Annotations : option (gmap string string);
  Labels : gmap string string;
}.
End ObjectMeta.

Inductive RestartPolicy : Type :=
| RestartPolicyAlways | RestartPolicyOnFailure | RestartPolicyNever.

Module PodSpec.
Record t : Type := {
  RestartPolicy_ : RestartPolicy;
  InitContainers : list Container.t;
  Containers : list Container.t;
  ServiceAccountName : string;
  Volumes : list Volume.t;
  NodeSelector : gmap string string;
  Tolerations : list opaque;
  Affinity : option Affinity.t;
  SecurityContext : option opaque;
  RuntimeClassName : option string;
  AutomountServiceAccountToken : option bool;
  SchedulerName : string;
  HostNetwork : bool;
  DNSPolicy : string;
  DNSConfig : option opaque;
  EnableServiceLinks : option bool;
  PriorityClassName : string;
  ImagePullSecrets : list opaque;
  HostAliases : list opaque;
}.
End PodSpec.

Module Pod.
Record t : Type := { Meta : ObjectMeta.t; Spec : PodSpec.t }.
End Pod.

End corev1.

(** ** Package [pkg/apis/pipeline/pod]: the pod template *)
Module podtemplate.
Import corev1.
Module Template.
Record t : Type := {
  NodeSelector : gmap string string;
  Tolerations : list opaque;
  Affinity : option Affinity.t;
  SecurityContext : option opaque;
  Volumes : list Volume.t;
  RuntimeClassName : option string;
  AutomountServiceAccountToken : option bool;
  DNSPolicy : option string;
  DNSConfig : option opaque;
  EnableServiceLinks : option bool;
  PriorityClassName : option string;
  SchedulerName : string;
  ImagePullSecrets : list opaque;
  HostAliases : list opaque;
  HostNetwork : bool;
}.

(** [pod.Template{}] *)
Definition zero : t :=
  {| NodeSelector := ∅; Tolerations := []; Affinity := None;
     SecurityContext := None; Volumes := []; RuntimeClassName := None;
     AutomountServiceAccountToken := None; DNSPolicy := None;
     DNSConfig := None; EnableServiceLinks := None;
     PriorityClassName := None; SchedulerName := "";
     ImagePullSecrets := []; HostAliases := []; HostNetwork := false |}.
End Template.
End podtemplate.

(** ** Package [v1beta1]: tasks and task runs, as far as [Build] reads
    them *)
Module v1beta1.
Import corev1.

Module Step.
Record t : Type := {
  Container_ : Container.t;
  Script : string;
  OnError : string;
}.
End Step.

Module Sidecar.
Record t : Type := { Container_ : Container.t; Script : string }.
End Sidecar.

Module TaskSpec.
Record t : Type := {
  Steps : list Step.t;
  StepTemplate : option Container.t;
  Sidecars : list Sidecar.t;
  Volumes : list Volume.t;
  Results : list string;
}.
End TaskSpec.

Module TaskRunSpec.
Record t : Type := {
  ServiceAccountName : string;
  Debug : option opaque;
  PodTemplate : option podtemplate.Template.t;
}.
End TaskRunSpec.

(** A [TaskRun] object.  [Annotations] is a Go map that may be nil
    ([None]); [Labels] is only ever read, so a nil map is taken as the
    empty one. *)
Module TaskRun.
Record t : Type := {
  Name : string;
  Namespace : string;
  UID : string;
  Labels : gmap string string;
  Annotations : option (gmap string string);
  Spec : TaskRunSpec.t;
}.

Definition withAnnotations (tr : t) (a : option (gmap string string)) : t :=
  {| Name := Name tr; Namespace := Namespace tr; UID := UID tr;
     Labels := Labels tr; Annotations := a; Spec := Spec tr |}.
End TaskRun.

End v1beta1.

(** ** Package [config]: feature flags *)
Module config.
Module FeatureFlags.
Record t : Type := {
  DisableHomeEnvOverwrite : bool;
  DisableWorkingDirOverwrite : bool;
  RunningInEnvWithInjectedSidecars : bool;
  EnableAPIFields : string;
}.
End FeatureFlags.

(** The configuration [config.FromContextOrDefaults(ctx)] resolves to;
    a context is carried as this configuration. *)
Module Config.
Record t : Type := { FeatureFlags_ : FeatureFlags.t }.
End Config.

Definition FromContextOrDefaults (ctx : Config.t) : Config.t := ctx.
End config.

(** ** Package [pod]: building the pod of a task run *)
Module pod.
Import golang corev1 v1beta1.

Definition TektonHermeticEnvVar : string := "TEKTON_HERMETIC".
Definition ExecutionModeAnnotation : string :=
  "experimental.tekton.dev/execution-mode".
Definition ExecutionModeHermetic : string := "hermetic".
Definition ReleaseAnnotation : string := "pipeline.tekton.dev/release".

Definition implicitVolumeMounts : list VolumeMount.t :=
  [ {| VolumeMount.Name := "tekton-internal-workspace";
       VolumeMount.MountPath := pipeline.WorkspaceDir |};
    {| VolumeMount.Name := "tekton-internal-home";
       VolumeMount.MountPath := pipeline.HomeDir |};
    {| VolumeMount.Name := "tekton-internal-results";
       VolumeMount.MountPath := pipeline.DefaultResultPath |};
    {| VolumeMount.Name := "tekton-internal-steps";
       VolumeMount.MountPath := pipeline.StepsDir |} ].

Definition implicitVolumes : list Volume.t :=
  [ {| Volume.Name := "tekton-internal-workspace"; Volume.Source := EmptyDir |};
    {| Volume.Name := "tekton-internal-home"; Volume.Source := EmptyDir |};
    {| Volume.Name := "tekton-internal-results"; Volume.Source := EmptyDir |};
    {| Volume.Name := "tekton-internal-steps"; Volume.Source := EmptyDir |} ].

(** The Kubernetes client, as far as this package calls it itself:
    [CoreV1().LimitRanges(namespace).List]. *)
Record KubeClient : Type := {
  LimitRanges_List : string → result (list LimitRange.t);
  cluster : opaque;
}.

(** [Builder] *)
Record Builder : Type := {
  Images : pipeline.Images;
  KubeClient_ : KubeClient;
  EntrypointCache : opaque;
  OverrideHomeEnv : bool;
}.

(** What [Build] uses of this repository and of its libraries without
    their code being at hand: package-level functions, constants and
    the name generator.  Everything below holds for all of them.  They
    are taken to read their arguments only. *)
Class Deps : Type := {
  (* package config *)
  AlphaAPIFields : string;
  (* package pod, other files *)
  credsInit : config.Config.t → string → string → KubeClient →
              result (list string * list Volume.t * list VolumeMount.t);
  convertScripts : string → string → list Step.t → list Sidecar.t →
                   option opaque →
                   option Container.t * list Container.t * list Container.t;
  scriptsVolume : Volume.t;
  debugScriptsVolume : Volume.t;
  debugInfoVolume : Volume.t;
  toolsVolume : Volume.t;
  downwardVolume : Volume.t;
  workingDirInit : string → list Container.t → option Container.t;
  resolveEntrypoints : config.Config.t → opaque → string → string →
                       list Container.t → result (list Container.t);
  orderContainers : string → list string → list Container.t →
                    TaskSpec.t → option opaque →
                    result (Container.t * list Container.t);
  allZeroQty : ResourceList;
  getCredsInitVolume : config.Config.t → nat →
                       option Volume.t * option VolumeMount.t;
  StepName : string → nat → string;
  sidecarPrefix : string;
  readyAnnotation : string;
  readyAnnotationValue : string;
  (* package v1beta1 *)
  MergeStepsWithStepTemplate : option Container.t → list Step.t →
                               result (list Step.t);
  ValidateVolumes : list Volume.t → option error;
  SchemeGroupVersion : string * string;
  (* package pipeline *)
  TaskRunLabelKey : string;
  (* package workspace *)
  AnnotationAffinityAssistantName : string;
  LabelInstance : string;
  LabelComponent : string;
  ComponentNameAffinityAssistant : string;
  (* package names: the generator draws its suffix from a source of
     randomness, whose state is [Rand] *)
  RestrictLength : string → string;
  Rand : Type;
  RestrictLengthWithRandomSuffix : string → Rand → string * Rand;
  (* knative.dev/pkg/changeset *)
  changeset_Get : result string;
}.

(** Reading a key of a map that may be nil: the zero value [""] when
    the key is missing. *)
Definition index (m : option (gmap string string)) (k : string) : string :=
  default "" (m ≫= (.!! k)).

Section build.
Context `{Deps}.

Definition groupVersionKind : GroupVersionKind.t :=
  {| GroupVersionKind.Group := SchemeGroupVersion.1;
     GroupVersionKind.Version := SchemeGroupVersion.2;
     GroupVersionKind.Kind := "TaskRun" |}.

(** [metav1.NewControllerRef(owner, gvk)] *)
Definition NewControllerRef (owner : TaskRun.t) (gvk : GroupVersionKind.t)
    : OwnerReference.t :=
  {| OwnerReference.APIVersion :=
       if bool_decide (GroupVersionKind.Group gvk = "")
       then GroupVersionKind.Version gvk
       else GroupVersionKind.Group gvk +:+ "/" +:+ GroupVersionKind.Version gvk;
     OwnerReference.Kind := GroupVersionKind.Kind gvk;
     OwnerReference.Name := TaskRun.Name owner;
     OwnerReference.UID := TaskRun.UID owner;
     OwnerReference.Controller := Some true;
     OwnerReference.BlockOwnerDeletion := Some true |}.

(** [makeLabels]: a fresh map holding the labels of the task run,
    then the task-run label set last. *)
Definition makeLabels (s : TaskRun.t) : gmap string string :=
  let labels := map_fold (λ k v labels, <[k:=v]> labels) ∅ (TaskRun.Labels s) in
  <[TaskRunLabelKey := TaskRun.Name s]> labels.

Definition nodeAffinityUsingAffinityAssistant (affinityAssistantName : string)
    : Affinity.t :=
  {| Affinity.NodeAffinity := None;
     Affinity.PodAffinity := Some
       {| PodAffinity.RequiredDuringSchedulingIgnoredDuringExecution :=
            [ {| PodAffinityTerm.LabelSelector := Some
                   {| LabelSelector.MatchLabels :=
                        <[LabelComponent := ComponentNameAffinityAssistant]>
                          (<[LabelInstance := affinityAssistantName]> ∅);
                      LabelSelector.MatchExpressions := [] |};
                 PodAffinityTerm.Namespaces := [];
                 PodAffinityTerm.TopologyKey := "kubernetes.io/hostname" |} ];
          PodAffinity.PreferredDuringSchedulingIgnoredDuringExecution := [] |};
     Affinity.PodAntiAffinity := None |}.

(** The body of the innermost loop of [getLimitRangeMinimum]:
    [if v.Cmp(min[k]) > 0 { min[k] = v }]. *)
Definition raiseMin (k : string) (v : Quantity) (min : ResourceList)
    : ResourceList :=
  if bool_decide (v > quantityOf min k)%Z then <[k:=v]> min else min.

Definition scanItem (min : ResourceList) (lrItem : LimitRangeItem.t)
    : ResourceList :=
  if bool_decide (LimitRangeItem.Type_ lrItem = LimitTypeContainer) then
    match LimitRangeItem.Min lrItem with
    | Some m => map_fold raiseMin min m
    | None => min
    end
  else min.

Definition getLimitRangeMinimum (ctx : config.Config.t) (namespace : string)
    (kubeclient : KubeClient) : result ResourceList :=
  match LimitRanges_List kubeclient namespace with
  | Err err => Err err
  | Panic msg => Panic msg
  | Ok limitRanges =>
      let min := allZeroQty in
      Ok (foldl (λ min lr, foldl scanItem min (LimitRange.Limits lr))
                min limitRanges)
  end.

Definition ShouldOverrideHomeEnv (ctx : config.Config.t) : bool :=
  let cfg := config.FromContextOrDefaults ctx in
  negb (config.FeatureFlags.DisableHomeEnvOverwrite (config.Config.FeatureFlags_ cfg)).

Definition shouldOverrideWorkingDir (ctx : config.Config.t) : bool :=
  let cfg := config.FromContextOrDefaults ctx in
  negb (config.FeatureFlags.DisableWorkingDirOverwrite (config.Config.FeatureFlags_ cfg)).

Definition shouldAddReadyAnnotationOnPodCreate (ctx : config.Config.t)
    (sidecars : list Sidecar.t) : bool :=
  if (0 <? length sidecars)%nat then false
  else
    let cfg := config.FromContextOrDefaults ctx in
    negb (config.FeatureFlags.RunningInEnvWithInjectedSidecars
            (config.Config.FeatureFlags_ cfg)).

(** Modelled from the spec: [resolveResourceRequests] is called by
    [Build] but its code is not among the sources.  The design
    document calls it applying the floor and says that requests
    are only raised; the comment at the call site in [Build] says
    "Zero out non-max resource requests", and the model follows
    the call site: for each of the resource names below, the step
    container with the largest request keeps it, and every other
    step container gets the namespace minimum.  These are the
    names [corev1.ResourceCPU], [corev1.ResourceMemory] and
    [corev1.ResourceEphemeralStorage]. *)
Definition resourceNames : list string :=
  ["cpu"; "memory"; "ephemeral-storage"].

(** Modelled from the spec: [zeroQty], the quantity 0. *)
Definition zeroQty : Quantity := 0%Z.

(** Modelled from the spec: the body of the first loop of
    [resolveResourceRequests], over the requests of container [i]:
    [if v.Cmp(max[k]) > 0 { maxIndicesByResource[k] = i; max[k] = v }]. *)
Definition raiseMax (i : nat) (k : string) (v : Quantity)
    (found : ResourceList * gmap string Z) : ResourceList * gmap string Z :=
  let '(max, maxIndicesByResource) := found in
  if bool_decide (v > quantityOf max k)%Z
  then (<[k:=v]> max, <[k:=Z.of_nat i]> maxIndicesByResource)
  else found.

(** Modelled from the spec: the first loop of
    [resolveResourceRequests]: the largest request for every
    resource and the index of the first container that makes it;
    the index is -1 where no container requests more than zero.
    Ranging over the requests of a container that has none (a nil
    map) does nothing. *)
Definition findMax (containers : list Container.t)
    : ResourceList * gmap string Z :=
  let max := allZeroQty in
  let maxIndicesByResource : gmap string Z :=
    list_to_map ((λ resourceName, (resourceName, (-1)%Z)) <$> resourceNames) in
  foldl (λ found ic,
           map_fold (raiseMax ic.1) found
             (default ∅ (ResourceRequirements.Requests
                           (Container.Resources ic.2))))
        (max, maxIndicesByResource) (imap pair containers).

(** Modelled from the spec: "Use zeroQty if request value is not
    set for min", for one resource name. *)
Definition orZeroQty (limitRangeMin : ResourceList) (resourceName : string)
    : ResourceList :=
  match limitRangeMin !! resourceName with
  | Some qty =>
      if bool_decide (qty = 0%Z)
      then <[resourceName := zeroQty]> limitRangeMin else limitRangeMin
  | None => <[resourceName := zeroQty]> limitRangeMin
  end.

(** Modelled from the spec: the body of the last loop of
    [resolveResourceRequests], for container [i]: a container
    without requests (a nil map) gets the minimum as its requests;
    in any other, every resource it is not the largest requester of
    is set to the minimum. *)
Definition setNonMax (maxIndicesByResource : gmap string Z)
    (limitRangeMin : ResourceList) (i : nat)
    (requests : option ResourceList) : option ResourceList :=
  match requests with
  | None => Some limitRangeMin
  | Some requests =>
      Some (foldl (λ requests resourceName,
                     if bool_decide (default 0%Z (maxIndicesByResource !! resourceName)
                                     ≠ Z.of_nat i)
                     then <[resourceName := quantityOf limitRangeMin resourceName]>
                            requests
                     else requests)
                  requests resourceNames)
  end.

(** Modelled from the spec: [resolveResourceRequests], which is not
    among the sources: "Zero out non-max resource requests".  It
    changes the requests of the containers and nothing else.  (The
    function assigns into the request maps of the containers it is
    handed; whether the caller of [Build] shares these maps
    with its task spec depends on code that is not among the
    sources, and nothing here says what the task spec holds after
    [Build].) *)
Definition resolveResourceRequests (containers : list Container.t)
    (limitRangeMin : ResourceList) : list Container.t :=
  let '(max, maxIndicesByResource) := findMax containers in
  let limitRangeMin := foldl orZeroQty limitRangeMin resourceNames in
  imap (λ i c,
          Container.withResources c
            {| ResourceRequirements.Limits :=
                 ResourceRequirements.Limits (Container.Resources c);
               ResourceRequirements.Requests :=
                 setNonMax maxIndicesByResource limitRangeMin i
                   (ResourceRequirements.Requests (Container.Resources c)) |})
       containers.

Definition alphaAPIEnabled (ctx : config.Config.t) : bool :=
  bool_decide
    (config.FeatureFlags.EnableAPIFields
       (config.Config.FeatureFlags_ (config.FromContextOrDefaults ctx))
     = AlphaAPIFields).

(** *** [Build], first part (up to the lookup of the namespace
    minimum): what the collaborators deliver. *)
Record Prepared : Type := {
  initContainers : list Container.t;
  stepContainers : list Container.t;
  sidecarContainers : list Container.t;
  volumes : list Volume.t;
  volumeMounts : list VolumeMount.t;
  implicitEnvVars : list EnvVar.t;
  limitRangeMin : ResourceList;
}.

Local Notation "'let?' x := r 'in' k" := (andThen r (λ x, k))
  (at level 10, x pattern, r at level 100, k at level 200).

Definition prepare (ctx : config.Config.t) (b : Builder)
    (taskRun : TaskRun.t) (taskSpec : TaskSpec.t) : result Prepared :=
  let initContainers : list Container.t := [] in
  let volumes : list Volume.t := [] in
  let volumeMounts : list VolumeMount.t := [] in
  let implicitEnvVars : list EnvVar.t := [] in
  let alphaAPIEnabled := alphaAPIEnabled ctx in
  (* Add our implicit volumes first, so they can be overridden by the
     user if they prefer. *)
  let volumes := volumes ++ implicitVolumes in
  let volumeMounts := volumeMounts ++ implicitVolumeMounts in
  let implicitEnvVars :=
    if OverrideHomeEnv b then
      implicitEnvVars ++ [ {| EnvVar.Name := "HOME";
                              EnvVar.Value := pipeline.HomeDir |} ]
    else implicitEnvVars in
  let? (credEntrypointArgs, credVolumes, credVolumeMounts) :=
    credsInit ctx (TaskRunSpec.ServiceAccountName (TaskRun.Spec taskRun))
              (TaskRun.Namespace taskRun) (KubeClient_ b) in
  let volumes := volumes ++ credVolumes in
  let volumeMounts := volumeMounts ++ credVolumeMounts in
  (* Merge step template with steps. *)
  let? steps :=
    MergeStepsWithStepTemplate (TaskSpec.StepTemplate taskSpec)
                               (TaskSpec.Steps taskSpec) in
  (* Convert any steps with Script to command+args. *)
  let '(scriptsInit, stepContainers, sidecarContainers) :=
    if alphaAPIEnabled then
      convertScripts (pipeline.ShellImage (Images b))
                     (pipeline.ShellImageWin (Images b)) steps
                     (TaskSpec.Sidecars taskSpec)
                     (TaskRunSpec.Debug (TaskRun.Spec taskRun))
    else
      convertScripts (pipeline.ShellImage (Images b)) "" steps
                     (TaskSpec.Sidecars taskSpec) None in
  let '(initContainers, volumes) :=
    match scriptsInit with
    | Some c => (initContainers ++ [c], volumes ++ [scriptsVolume])
    | None => (initContainers, volumes)
    end in
  let volumes :=
    if alphaAPIEnabled
       && bool_decide (is_Some (TaskRunSpec.Debug (TaskRun.Spec taskRun)))
    then volumes ++ [debugScriptsVolume; debugInfoVolume]
    else volumes in
  (* Initialize any workingDirs under /workspace. *)
  let initContainers :=
    match workingDirInit (pipeline.ShellImage (Images b)) stepContainers with
    | Some c => initContainers ++ [c]
    | None => initContainers
    end in
  (* Resolve entrypoint for any steps that don't specify command. *)
  let? stepContainers :=
    resolveEntrypoints ctx (EntrypointCache b) (TaskRun.Namespace taskRun)
      (TaskRunSpec.ServiceAccountName (TaskRun.Spec taskRun)) stepContainers in
  (* Rewrite steps with entrypoint binary. *)
  let? (entrypointInit, stepContainers) :=
    if alphaAPIEnabled then
      orderContainers (pipeline.EntrypointImage (Images b)) credEntrypointArgs
        stepContainers taskSpec (TaskRunSpec.Debug (TaskRun.Spec taskRun))
    else
      orderContainers (pipeline.EntrypointImage (Images b)) credEntrypointArgs
        stepContainers taskSpec None in
  (* place the entrypoint first *)
  let initContainers := [entrypointInit] ++ initContainers in
  let volumes := volumes ++ [toolsVolume; downwardVolume] in
  let? limitRangeMin :=
    getLimitRangeMinimum ctx (TaskRun.Namespace taskRun) (KubeClient_ b) in
  Ok {| initContainers := initContainers;
        stepContainers := stepContainers;
        sidecarContainers := sidecarContainers;
        volumes := volumes;
        volumeMounts := volumeMounts;
        implicitEnvVars := implicitEnvVars;
        limitRangeMin := limitRangeMin |}.

(** *** [Build], the loops over the step containers *)

(** "Add implicit env vars.  They're prepended to the list, so that
    if the user specified any themselves their value takes
    precedence." *)
Definition withImplicitEnvVars (implicitEnvVars : list EnvVar.t)
    (stepContainers : list Container.t) : list Container.t :=
  if (0 <? length implicitEnvVars)%nat then
    (λ s, Container.withEnv s (implicitEnvVars ++ Container.Env s))
      <$> stepContainers
  else stepContainers.

Definition hermeticEnvVar : EnvVar.t :=
  {| EnvVar.Name := TektonHermeticEnvVar; EnvVar.Value := "1" |}.

(** "Add env var if hermetic execution was requested & if the alpha
    API is enabled": "Add it at the end so it overrides". *)
Definition withHermeticEnvVar (ctx : config.Config.t) (taskRun : TaskRun.t)
    (stepContainers : list Container.t) : list Container.t :=
  if bool_decide (index (TaskRun.Annotations taskRun) ExecutionModeAnnotation
                  = ExecutionModeHermetic)
     && alphaAPIEnabled ctx
  then
    (λ s, Container.withEnv s (Container.Env s ++ [hermeticEnvVar]))
      <$> stepContainers
  else stepContainers.

(** "Add implicit volume mounts to each step, unless the step
    specifies its own volume mount at that path."  The loop runs
    over the step containers from index [i] on and also collects the
    per-step credential volumes into [volumes]. *)
Fixpoint withImplicitVolumeMounts (ctx : config.Config.t)
    (volumeMounts : list VolumeMount.t) (i : nat)
    (stepContainers : list Container.t) (volumes : list Volume.t)
    : list Volume.t * list Container.t :=
  match stepContainers with
  | [] => (volumes, [])
  | s :: rest =>
      let '(volumes, sVolumeMounts) :=
        match getCredsInitVolume ctx i with
        | (Some v, Some vm) =>
            (volumes ++ [v], Container.VolumeMounts s ++ [vm])
        | _ => (volumes, Container.VolumeMounts s)
        end in
      let requestedVolumeMounts : gset string :=
        list_to_set ((λ vm, filepath.Clean (VolumeMount.MountPath vm))
                       <$> sVolumeMounts) in
      let toAdd :=
        filter (λ imp, filepath.Clean (VolumeMount.MountPath imp)
                       ∉ requestedVolumeMounts) volumeMounts in
      let vms := sVolumeMounts ++ toAdd in
      let '(volumes, rest) :=
        withImplicitVolumeMounts ctx volumeMounts (S i) rest volumes in
      (volumes, Container.withVolumeMounts s vms :: rest)
  end.

(** "This loop defaults workingDir to /workspace and sets container
    name to add the step- prefix". *)
Definition withWorkingDirAndName (ctx : config.Config.t)
    (stepContainers : list Container.t) : list Container.t :=
  let shouldOverrideWorkingDir := shouldOverrideWorkingDir ctx in
  imap (λ i s,
          let s' := if bool_decide (Container.WorkingDir s = "")
                       && shouldOverrideWorkingDir
                    then Container.withWorkingDir s pipeline.WorkspaceDir
                    else s in
          Container.withName s' (RestrictLength (StepName (Container.Name s) i)))
       stepContainers.

(** "Merge sidecar containers with step containers." *)
Definition mergeSidecars (stepContainers sidecarContainers : list Container.t)
    : list Container.t :=
  foldl (λ mergedPodContainers sc,
           mergedPodContainers
           ++ [Container.withName sc
                 (RestrictLength (sidecarPrefix +:+ Container.Name sc))])
        stepContainers sidecarContainers.

(** The loops over the step containers in the order [Build] runs
    them: resource floor, implicit environment, hermetic flag,
    implicit volume mounts, working directory and name. *)
Definition assembleSteps (ctx : config.Config.t) (taskRun : TaskRun.t)
    (pre : Prepared) : list Volume.t * list Container.t :=
  (* Zero out non-max resource requests. *)
  let stepContainers :=
    resolveResourceRequests (stepContainers pre) (limitRangeMin pre) in
  let stepContainers :=
    withImplicitEnvVars (implicitEnvVars pre) stepContainers in
  let stepContainers := withHermeticEnvVar ctx taskRun stepContainers in
  let '(volumes, stepContainers) :=
    withImplicitVolumeMounts ctx (volumeMounts pre) 0 stepContainers
                             (volumes pre) in
  let stepContainers := withWorkingDirAndName ctx stepContainers in
  (volumes, stepContainers).

(** *** [Build] as a whole.  The task run is handed over by
    reference and its annotation map is written through, and the pod
    name draws on the generator's randomness: both are state. *)
Record State : Type := {
  taskRunObject : TaskRun.t;
  rand : Rand;
}.

Definition M (A : Type) : Type := State → result A * State.

Definition ret {A} (a : A) : M A := λ st, (Ok a, st).

Definition bind {A B} (m : M A) (k : A → M B) : M B :=
  λ st, match m st with
        | (Ok a, st') => k a st'
        | (Err e, st') => (Err e, st')
        | (Panic msg, st') => (Panic msg, st')
        end.

Definition lift {A} (r : result A) : M A := λ st, (r, st).

(** Reading through the [taskRun] pointer. *)
Definition deref : M TaskRun.t := λ st, (Ok (taskRunObject st), st).

(** [taskRun.Annotations[k] = v]: a write to a nil map panics. *)
Definition setAnnotation (k v : string) : M unit :=
  λ st,
    let taskRun := taskRunObject st in
    match TaskRun.Annotations taskRun with
    | None => (Panic "assignment to entry in nil map", st)
    | Some m =>
        (Ok (),
         {| taskRunObject := TaskRun.withAnnotations taskRun (Some (<[k:=v]> m));
            rand := rand st |})
    end.

Definition generateName (base : string) : M string :=
  λ st,
    let '(name, r) := RestrictLengthWithRandomSuffix base (rand st) in
    (Ok name, {| taskRunObject := taskRunObject st; rand := r |}).

Local Notation "'let*' x := m 'in' k" := (bind m (λ x, k))
  (at level 10, x pattern, m at level 100, k at level 200).

Definition Build (ctx : config.Config.t) (b : Builder)
    (taskSpec : TaskSpec.t) : M Pod.t :=
  let* taskRun := deref in
  let* pre := lift (prepare ctx b taskRun taskSpec) in
  let initContainers := initContainers pre in
  let sidecarContainers := sidecarContainers pre in
  let '(volumes, stepContainers) := assembleSteps ctx taskRun pre in
  (* By default, use an empty pod template and take the one defined
     in the task run spec if any *)
  let podTemplate :=
    match TaskRunSpec.PodTemplate (TaskRun.Spec taskRun) with
    | Some t => t
    | None => podtemplate.Template.zero
    end in
  let volumes := volumes ++ TaskSpec.Volumes taskSpec in
  let volumes := volumes ++ podtemplate.Template.Volumes podTemplate in
  let* _ := lift (match ValidateVolumes volumes with
                  | Some err => Err err
                  | None => Ok ()
                  end) in
  let affinity :=
    let affinityAssistantName :=
      index (TaskRun.Annotations taskRun) AnnotationAffinityAssistantName in
    if bool_decide (affinityAssistantName ≠ "") then
      Some (nodeAffinityUsingAffinityAssistant affinityAssistantName)
    else podtemplate.Template.Affinity podTemplate in
  let mergedPodContainers := mergeSidecars stepContainers sidecarContainers in
  let dnsPolicy := default "" (podtemplate.Template.DNSPolicy podTemplate) in
  let priorityClassName :=
    default "" (podtemplate.Template.PriorityClassName podTemplate) in
  (* podAnnotations := taskRun.Annotations: the same map, not a copy *)
  let* version := lift changeset_Get in
  let* _ := setAnnotation ReleaseAnnotation version in
  let* _ := if shouldAddReadyAnnotationOnPodCreate ctx (TaskSpec.Sidecars taskSpec)
            then setAnnotation readyAnnotation readyAnnotationValue
            else ret () in
  let* taskRun := deref in
  let podAnnotations := TaskRun.Annotations taskRun in
  let* name := generateName (TaskRun.Name taskRun +:+ "-pod") in
  ret {| Pod.Meta :=
           {| ObjectMeta.Namespace := TaskRun.Namespace taskRun;
              ObjectMeta.Name := name;
              ObjectMeta.OwnerReferences :=
                [NewControllerRef taskRun groupVersionKind];
              ObjectMeta.Annotations := podAnnotations;
              ObjectMeta.Labels := makeLabels taskRun |};
         Pod.Spec :=
           {| PodSpec.RestartPolicy_ := RestartPolicyNever;
              PodSpec.InitContainers := initContainers;
              PodSpec.Containers := mergedPodContainers;
              PodSpec.ServiceAccountName :=
                TaskRunSpec.ServiceAccountName (TaskRun.Spec taskRun);
              PodSpec.Volumes := volumes;
              PodSpec.NodeSelector := podtemplate.Template.NodeSelector podTemplate;
              PodSpec.Tolerations := podtemplate.Template.Tolerations podTemplate;
              PodSpec.Affinity := affinity;
              PodSpec.SecurityContext :=
                podtemplate.Template.SecurityContext podTemplate;
              PodSpec.RuntimeClassName :=
                podtemplate.Template.RuntimeClassName podTemplate;
              PodSpec.AutomountServiceAccountToken :=
                podtemplate.Template.AutomountServiceAccountToken podTemplate;
              PodSpec.SchedulerName := podtemplate.Template.SchedulerName podTemplate;
              PodSpec.HostNetwork := podtemplate.Template.HostNetwork podTemplate;
              PodSpec.DNSPolicy := dnsPolicy;
              PodSpec.DNSConfig := podtemplate.Template.DNSConfig podTemplate;
              PodSpec.EnableServiceLinks :=
                podtemplate.Template.EnableServiceLinks podTemplate;
              PodSpec.PriorityClassName := priorityClassName;
              PodSpec.ImagePullSecrets :=
                podtemplate.Template.ImagePullSecrets podTemplate;
              PodSpec.HostAliases := podtemplate.Template.HostAliases podTemplate |} |}.

(** *** Vocabulary of the properties *)

(** The minimum quantities that the container-type items of the
    limit ranges declare for resource [k], in the order of the scan. *)
Definition declaredMinimums (k : string) (limitRanges : list LimitRange.t)
    : list Quantity :=
  limitRanges ≫= λ lr, LimitRange.Limits lr ≫= λ lrItem,
    if bool_decide (LimitRangeItem.Type_ lrItem = LimitTypeContainer) then
      match LimitRangeItem.Min lrItem ≫= (.!! k) with
      | Some v => [v]
      | None => []
      end
    else [].

(** The largest of some quantities, and zero when there is none. *)
Definition maxOf (l : list Quantity) : Quantity := foldl Z.max 0%Z l.

(** What container [c] requests of resource [k]: zero when it
    requests nothing of it. *)
Definition requestOf (c : Container.t) (k : string) : Quantity :=
  quantityOf (default ∅ (ResourceRequirements.Requests (Container.Resources c))) k.

(** Container [i] is the largest requester of resource [k] among
    [containers]: it requests more than zero, more than every
    container before it and no less than any other. *)
Definition largestRequester (containers : list Container.t) (k : string)
    (i : nat) : Prop :=
  ∃ c, containers !! i = Some c
       ∧ (0 < requestOf c k)%Z
       ∧ (∀ j c', (j < i)%nat → containers !! j = Some c' →
                  (requestOf c' k < requestOf c k)%Z)
       ∧ (∀ j c', containers !! j = Some c' →
                  (requestOf c' k ≤ requestOf c k)%Z).

(** The scan for the largest requester of [k], container by
    container from index [i] on: the largest request so far and
    where it was seen. *)
Fixpoint scanMax (k : string) (containers : list Container.t) (i : nat)
    (best : Quantity) (seen : option Z) : Quantity * option Z :=
  match containers with
  | [] => (best, seen)
  | c :: rest =>
      match ResourceRequirements.Requests (Container.Resources c) ≫= (.!! k) with
      | Some v =>
          if bool_decide (v > best)%Z
          then scanMax k rest (S i) v (Some (Z.of_nat i))
          else scanMax k rest (S i) best seen
      | None => scanMax k rest (S i) best seen
      end
  end.

(** The value a container sees for a variable: of several entries of
    one name the last one counts. *)
Definition effectiveValue (env : list EnvVar.t) (name : string)
    : option string :=
  EnvVar.Value <$> last (filter (λ e, EnvVar.Name e = name) env).

(** [x] stands before [y] in [l]. *)
Definition precedes {A} (l : list A) (x y : A) : Prop :=
  ∃ i j, (i < j)%nat ∧ l !! i = Some x ∧ l !! j = Some y.

Definition homeEnvVar : EnvVar.t :=
  {| EnvVar.Name := "HOME"; EnvVar.Value := pipeline.HomeDir |}.

(** Hermetic execution was requested and the alpha API is enabled. *)
Definition hermetic (ctx : config.Config.t) (taskRun : TaskRun.t) : bool :=
  bool_decide (index (TaskRun.Annotations taskRun) ExecutionModeAnnotation
               = ExecutionModeHermetic)
  && alphaAPIEnabled ctx.

(** The credential mount and volume of step [i], when the helper
    provides both. *)
Definition credsMount (ctx : config.Config.t) (i : nat) : list VolumeMount.t :=
  match getCredsInitVolume ctx i with
  | (Some v, Some vm) => [vm]
  | _ => []
  end.

Definition credsVolume (ctx : config.Config.t) (i : nat) : list Volume.t :=
  match getCredsInitVolume ctx i with
  | (Some v, Some vm) => [v]
  | _ => []
  end.

(** Some mount of [declared] has the same cleaned path as [imp]. *)
Definition shadowed (declared : list VolumeMount.t) (imp : VolumeMount.t)
    : Prop :=
  Exists (λ vm, filepath.Clean (VolumeMount.MountPath vm)
                = filepath.Clean (VolumeMount.MountPath imp)) declared.

(** The mounts step container [s] at index [i] carries before the
    implicit ones are considered: its own, then its credential
    mount; and the mounts that are then added to it. *)
Definition declaredMounts (ctx : config.Config.t) (i : nat) (s : Container.t)
    : list VolumeMount.t :=
  Container.VolumeMounts s ++ credsMount ctx i.

Definition addedMounts (ctx : config.Config.t) (pre : Prepared) (i : nat)
    (s : Container.t) : list VolumeMount.t :=
  filter (λ imp, ¬ shadowed (declaredMounts ctx i s) imp) (volumeMounts pre).

(** What the loops of [Build] make of the step container [s] at
    index [i], field by field. *)
Definition finalStep (ctx : config.Config.t) (taskRun : TaskRun.t)
    (pre : Prepared) (i : nat) (s : Container.t) : Container.t :=
  {| Container.Name := RestrictLength (StepName (Container.Name s) i);
     Container.Image := Container.Image s;
     Container.Command := Container.Command s;
     Container.Args := Container.Args s;
     Container.WorkingDir :=
       if bool_decide (Container.WorkingDir s = "")
          && shouldOverrideWorkingDir ctx
       then pipeline.WorkspaceDir else Container.WorkingDir s;
     Container.Env :=
       implicitEnvVars pre ++ Container.Env s
       ++ (if hermetic ctx taskRun then [hermeticEnvVar] else []);
     Container.Resources :=
       {| ResourceRequirements.Limits :=
            ResourceRequirements.Limits (Container.Resources s);
          ResourceRequirements.Requests :=
            setNonMax (findMax (stepContainers pre)).2
              (foldl orZeroQty (limitRangeMin pre) resourceNames) i
              (ResourceRequirements.Requests (Container.Resources s)) |};
     Container.VolumeMounts :=
       declaredMounts ctx i s ++ addedMounts ctx pre i s |}.

(** The name a sidecar container gets in the pod. *)
Definition sidecarName (sc : Container.t) : string :=
  RestrictLength (sidecarPrefix +:+ Container.Name sc).

(** The annotations of the pod: those of the task run with the
    release marker and, when asked for, the ready marker. *)
Definition stamped (ctx : config.Config.t) (taskSpec : TaskSpec.t)
    (version : string) (annotations : gmap string string)
    : gmap string string :=
  let annotations := <[ReleaseAnnotation := version]> annotations in
  if shouldAddReadyAnnotationOnPodCreate ctx (TaskSpec.Sidecars taskSpec)
  then <[readyAnnotation := readyAnnotationValue]> annotations
  else annotations.

(** Two pods that differ at most in their name. *)
Definition sameButName (p q : Pod.t) : Prop :=
  Pod.Spec p = Pod.Spec q
  ∧ ObjectMeta.Namespace (Pod.Meta p) = ObjectMeta.Namespace (Pod.Meta q)
  ∧ ObjectMeta.OwnerReferences (Pod.Meta p)
    = ObjectMeta.OwnerReferences (Pod.Meta q)
  ∧ ObjectMeta.Annotations (Pod.Meta p) = ObjectMeta.Annotations (Pod.Meta q)
  ∧ ObjectMeta.Labels (Pod.Meta p) = ObjectMeta.Labels (Pod.Meta q).

(** Two outcomes of [Build] that are the same error, the same panic,
    or pods that differ at most in their name. *)
Definition sameOutcomeButName (r1 r2 : result Pod.t) : Prop :=
  match r1, r2 with
  | Ok p, Ok q => sameButName p q
  | Err e1, Err e2 => e1 = e2
  | Panic m1, Panic m2 => m1 = m2
  | _, _ => False
  end.

End build.
End pod.

(** ** Example collaborators and inputs, used to instantiate the
    theorems of Part II *)
Module fixture.
Import golang corev1 v1beta1 pod.

Definition emptyDirVolume (name : string) : Volume.t :=
  {| Volume.Name := name; Volume.Source := EmptyDir |}.

Definition container (name : string) (env : list EnvVar.t)
    (mounts : list VolumeMount.t) (requests : list (string * Z)) : Container.t :=
  {| Container.Name := name; Container.Image := "alpine";
     Container.Command := ["sh"]; Container.Args := [];
     Container.WorkingDir := ""; Container.Env := env;
     Container.Resources :=
       {| ResourceRequirements.Limits := ∅;
          ResourceRequirements.Requests :=
            match requests with
            | [] => None
            | _ => Some (list_to_map requests)
            end |};
     Container.VolumeMounts := mounts |}.

(** Collaborators that do as little as their contracts allow: no
    credentials, no scripts, commands already resolved, and a
    generator that counts. *)
Local Instance deps : Deps := {|
  AlphaAPIFields := "alpha";
  credsInit := λ _ _ _ _, Ok ([], [], []);
  convertScripts := λ _ _ steps sidecars _,
    (None, Step.Container_ <$> steps, Sidecar.Container_ <$> sidecars);
  scriptsVolume := emptyDirVolume "tekton-internal-scripts";
  debugScriptsVolume := emptyDirVolume "tekton-internal-debug-scripts";
  debugInfoVolume := emptyDirVolume "tekton-internal-debug-info";
  toolsVolume := emptyDirVolume "tekton-internal-tools";
  downwardVolume := emptyDirVolume "tekton-internal-downward";
  workingDirInit := λ _ _, None;
  resolveEntrypoints := λ _ _ _ _ containers, Ok containers;
  orderContainers := λ image _ containers _ _,
    Ok (container "place-tools" [] [] [], containers);
  allZeroQty := list_to_map [("cpu", 0%Z); ("memory", 0%Z);
                             ("ephemeral-storage", 0%Z)];
  getCredsInitVolume := λ _ i,
    (Some (emptyDirVolume ("tekton-creds-init-home-" +:+ pretty i)),
     Some {| VolumeMount.Name := "tekton-creds-init-home-" +:+ pretty i;
             VolumeMount.MountPath := pipeline.CredsDir |});
  StepName := λ name i,
    if bool_decide (name = "") then "step-unnamed-" +:+ pretty i
    else "step-" +:+ name;
  sidecarPrefix := "sidecar-";
  readyAnnotation := "tekton.dev/ready";
  readyAnnotationValue := "READY";
  MergeStepsWithStepTemplate := λ _ steps, Ok steps;
  ValidateVolumes := λ _, None;
  SchemeGroupVersion := ("tekton.dev", "v1beta1");
  TaskRunLabelKey := "tekton.dev/taskRun";
  AnnotationAffinityAssistantName := "pipeline.tekton.dev/affinity-assistant";
  LabelInstance := "app.kubernetes.io/instance";
  LabelComponent := "app.kubernetes.io/component";
  ComponentNameAffinityAssistant := "affinity-assistant";
  RestrictLength := λ name, name;
  Rand := nat;
  RestrictLengthWithRandomSuffix := λ base n, (base +:+ "-" +:+ pretty n, S n);
  changeset_Get := Ok "v0.1.0";
|}.

Definition limitRange (cpu : Z) : LimitRange.t :=
  {| LimitRange.Limits :=
       [ {| LimitRangeItem.Type_ := LimitTypeContainer;
            LimitRangeItem.Min := Some {[ "cpu" := cpu ]} |} ] |}.

(** A namespace with two limit ranges: minimum CPU 100m and 250m. *)
Definition kubeclient : KubeClient :=
  {| LimitRanges_List := λ _, Ok [limitRange 100; limitRange 250];
     cluster := "test" |}.

Definition builder (overrideHome : bool) : Builder :=
  {| Images := {| pipeline.EntrypointImage := "entrypoint";
                  pipeline.ShellImage := "busybox";
                  pipeline.ShellImageWin := "nanoserver" |};
     KubeClient_ := kubeclient;
     EntrypointCache := "cache";
     OverrideHomeEnv := overrideHome |}.

Definition ctx (apiFields : string) : config.Config.t :=
  {| config.Config.FeatureFlags_ :=
       {| config.FeatureFlags.DisableHomeEnvOverwrite := false;
          config.FeatureFlags.DisableWorkingDirOverwrite := false;
          config.FeatureFlags.RunningInEnvWithInjectedSidecars := false;
          config.FeatureFlags.EnableAPIFields := apiFields |} |}.

Definition userAffinity : Affinity.t :=
  {| Affinity.NodeAffinity := Some "zone in (a, b)";
     Affinity.PodAffinity := None;
     Affinity.PodAntiAffinity := None |}.

Definition template : podtemplate.Template.t :=
  {| podtemplate.Template.NodeSelector := ∅;
     podtemplate.Template.Tolerations := [];
     podtemplate.Template.Affinity := Some userAffinity;
     podtemplate.Template.SecurityContext := None;
     podtemplate.Template.Volumes := [];
     podtemplate.Template.RuntimeClassName := None;
     podtemplate.Template.AutomountServiceAccountToken := None;
     podtemplate.Template.DNSPolicy := None;
     podtemplate.Template.DNSConfig := None;
     podtemplate.Template.EnableServiceLinks := None;
     podtemplate.Template.PriorityClassName := None;
     podtemplate.Template.SchedulerName := "";
     podtemplate.Template.ImagePullSecrets := [];
     podtemplate.Template.HostAliases := [];
     podtemplate.Template.HostNetwork := false |}.

Definition taskRun (annotations : list (string * string)) : TaskRun.t :=
  {| TaskRun.Name := "taskrun-name";
     TaskRun.Namespace := "default";
     TaskRun.UID := "uid-1";
     TaskRun.Labels := ∅;
     TaskRun.Annotations := Some (list_to_map annotations);
     TaskRun.Spec :=
       {| TaskRunSpec.ServiceAccountName := "default";
          TaskRunSpec.Debug := None;
          TaskRunSpec.PodTemplate := Some template |} |}.

Definition step (c : Container.t) : Step.t :=
  {| Step.Container_ := c; Step.Script := ""; Step.OnError := "" |}.

Definition userHome : EnvVar.t :=
  {| EnvVar.Name := "HOME"; EnvVar.Value := "/user" |}.

(** The first step declares its own [HOME] and [TEKTON_HERMETIC], a
    mount at [/tekton/home/] and 50m CPU; the second asks for 300m
    CPU; the sidecar declares nothing. *)
Definition stepOne : Container.t :=
  container "one"
    [ userHome; {| EnvVar.Name := "TEKTON_HERMETIC"; EnvVar.Value := "0" |} ]
    [ {| VolumeMount.Name := "mine"; VolumeMount.MountPath := "/tekton/home/" |} ]
    [("cpu", 50%Z)].

Definition stepTwo : Container.t := container "two" [] [] [("cpu", 300%Z)].

Definition helper : Container.t := container "helper" [] [] [].

Definition taskSpec : TaskSpec.t :=
  {| TaskSpec.Steps := [step stepOne; step stepTwo];
     TaskSpec.StepTemplate := None;
     TaskSpec.Sidecars :=
       [ {| Sidecar.Container_ := helper; Sidecar.Script := "" |} ];
     TaskSpec.Volumes := [emptyDirVolume "mine"];
     TaskSpec.Results := [] |}.

Definition initial (annotations : list (string * string)) : State :=
  {| taskRunObject := taskRun annotations; rand := 0%nat |}.

(** A hermetic task run under the alpha API, and what [Build] makes
    of it. *)
Definition hermeticRun : State :=
  initial [(ExecutionModeAnnotation, ExecutionModeHermetic)].

Definition hermeticPrepared : Prepared :=
  Eval vm_compute in
    getOk (prepare (ctx "alpha") (builder true) (taskRunObject hermeticRun)
                   taskSpec).

Definition hermeticPod : Pod.t :=
  Eval vm_compute in
    getOk (Build (ctx "alpha") (builder true) taskSpec hermeticRun).1.

Definition hermeticAfter : State :=
  Eval vm_compute in
    (Build (ctx "alpha") (builder true) taskSpec hermeticRun).2.

(** A task run that names an affinity assistant. *)
Definition assistedRun : State :=
  initial [(AnnotationAffinityAssistantName, "assistant-1")].

Definition assistedPod : Pod.t :=
  Eval vm_compute in
    getOk (Build (ctx "alpha") (builder true) taskSpec assistedRun).1.

Definition assistedAfter : State :=
  Eval vm_compute in
    (Build (ctx "alpha") (builder true) taskSpec assistedRun).2.

(** A task run without annotations, built twice in a row. *)
Definition plainRun : State := initial [].

Definition plainPod : Pod.t :=
  Eval vm_compute in
    getOk (Build (ctx "alpha") (builder true) taskSpec plainRun).1.

Definition plainAfter : State :=
  Eval vm_compute in
    (Build (ctx "alpha") (builder true) taskSpec plainRun).2.

Definition plainAgain : State :=
  {| taskRunObject := taskRunObject plainRun; rand := rand plainAfter |}.

Definition plainPodAgain : Pod.t :=
  Eval vm_compute in
    getOk (Build (ctx "alpha") (builder true) taskSpec plainAgain).1.

Definition plainAfterAgain : State :=
  Eval vm_compute in
    (Build (ctx "alpha") (builder true) taskSpec plainAgain).2.

(** Two steps that both ask for more CPU than the floor of 250m, and
    what [Build] makes of them. *)
Definition stepFour : Container.t := container "four" [] [] [("cpu", 400%Z)].

Definition hungrySpec : TaskSpec.t :=
  {| TaskSpec.Steps := [step stepTwo; step stepFour];
     TaskSpec.StepTemplate := None;
     TaskSpec.Sidecars := [];
     TaskSpec.Volumes := [];
     TaskSpec.Results := [] |}.

Definition hungryPrepared : Prepared :=
  Eval vm_compute in
    getOk (prepare (ctx "alpha") (builder true) (taskRunObject plainRun)
                   hungrySpec).

Definition hungryPod : Pod.t :=
  Eval vm_compute in
    getOk (Build (ctx "alpha") (builder true) hungrySpec plainRun).1.

Definition hungryAfter : State :=
  Eval vm_compute in
    (Build (ctx "alpha") (builder true) hungrySpec plainRun).2.

(** The floor of the namespace of [kubeclient]. *)
Definition floor250 : ResourceList :=
  Eval vm_compute in
    getOk (getLimitRangeMinimum (ctx "alpha") "default" kubeclient).

(** Another cluster, whose client answers like [kubeclient] for the
    namespace [default] and refuses every other, and a builder for
    it with another entrypoint cache. *)
Definition otherClient : KubeClient :=
  {| LimitRanges_List := λ namespace,
       if bool_decide (namespace = "default")
       then Ok [limitRange 100; limitRange 250]
       else Err "limitranges is forbidden";
     cluster := "other" |}.

Definition otherBuilder : Builder :=
  {| Images := Images (builder true);
     KubeClient_ := otherClient;
     EntrypointCache := "another cache";
     OverrideHomeEnv := true |}.

End fixture.

(** The first task of the pipeline run [pipelinerun-with-failing-step-]:
    two steps with [onError: continue]; the first exits with 1, the
    second writes the result [task1-result] and exits with 11. *)
Module failing_steps.
Import message entrypoint.

Definition resultPath : string := "/tekton/results/task1-result".

Definition exit_with_1 : Wrapper := rewrite 0 Continue [].
Definition write_a_result : Wrapper :=
  rewrite 1 Continue [("task1-result", resultPath)].

(** [exit 1] *)
Definition script1 (fs : gmap string string)
    : gmap string string * Termination :=
  (fs, {| cause := Exited; code := 1 |}).

(** [echo -n 123 | tee $(results.task1-result.path); exit 11] *)
Definition script2 (fs : gmap string string)
    : gmap string string * Termination :=
  (<[resultPath := "123"]> fs, {| cause := Exited; code := 11 |}).

Definition emptyVolume : Volume := {| markers := ∅; files := ∅ |}.

(** An outcome whose message alone is longer than the platform reads. *)
Definition longOutcome : StepOutcome :=
  {| ExitCode := 0; OutcomeReason := Completed; Results := [];
     Message := String.string_of_list_ascii (replicate 5000 "x"%char) |}.

(** A failed step with a short message. *)
Definition failedOutcome : StepOutcome :=
  {| ExitCode := 1; OutcomeReason := Errored; Results := [];
     Message := "exit status 1" |}.

End failing_steps.

(** ** Vocabulary of the further properties *)

(** *** References, as the pattern describes them *)
Module references.
Import regexp types.

(** The ranges of the class [[_a-zA-Z0-9.-]] of [nameChars]. *)
Definition isNameChar (c : ascii) : Prop :=
  in_class [("_", "_"); ("a", "z"); ("A", "Z"); ("0", "9");
            (".", "."); ("-", "-")]%char c = true.

Definition isDigit (c : ascii) : Prop := in_class [("0", "9")]%char c = true.

(** The optional index of a reference: nothing, [[*]], or a non-empty
    run of digits in brackets. *)
Inductive isIndex : list ascii → Prop :=
| index_none : isIndex []
| index_star : isIndex (String.list_ascii_of_string "[*]")
| index_number ds :
    ds ≠ [] → Forall isDigit ds →
    isIndex ("["%char :: ds ++ ["]"%char]).

(** A reference with body [name ++ idx]. *)
Definition isReference (m : list ascii) : Prop :=
  ∃ name idx,
    m = String.list_ascii_of_string "$(" ++ (name ++ idx)
        ++ String.list_ascii_of_string ")"
    ∧ name ≠ [] ∧ Forall isNameChar name ∧ isIndex idx.

(** [scanned re s ms]: the matches [ms] stand in [s] in this order
    without overlap, none of them is empty, and the stretches of text
    before, between and after them hold no match. *)
Inductive scanned (re : Regexp) : list ascii → list (list ascii) → Prop :=
| scanned_done s : ¬ has_match re s → scanned re s []
| scanned_match skipped m rest ms :
    ¬ has_match re skipped → matches re m → m ≠ [] →
    scanned re rest ms →
    scanned re (skipped ++ m ++ rest) (m :: ms).

End references.

(** *** The pod as [Build] assembles it *)
Module pod_vocabulary.
Import golang corev1 v1beta1 pod.

(** The cleaned mount paths of some mounts. *)
Definition cleanPaths (mounts : list VolumeMount.t) : list string :=
  (λ vm, filepath.Clean (VolumeMount.MountPath vm)) <$> mounts.

Section vocabulary.
Context `{Deps}.

(** The pod template [Build] works with: that of the task run, or the
    empty one. *)
Definition templateOf (taskRun : TaskRun.t) : podtemplate.Template.t :=
  default podtemplate.Template.zero (TaskRunSpec.PodTemplate (TaskRun.Spec taskRun)).

(** The volumes [Build] hands to [ValidateVolumes]. *)
Definition podVolumes (ctx : config.Config.t) (taskSpec : TaskSpec.t)
    (taskRun : TaskRun.t) (pre : Prepared) : list Volume.t :=
  ((assembleSteps ctx taskRun pre).1 ++ TaskSpec.Volumes taskSpec)
  ++ podtemplate.Template.Volumes (templateOf taskRun).

End vocabulary.
End pod_vocabulary.

(** ** More example inputs: a namespace that cannot be listed, limit
    ranges in another order and of other types, and task runs without
    an annotation map or a pod template *)
Module edge_cases.
Import golang corev1 v1beta1 pod fixture.
Local Existing Instance deps.

Definition builderOf (kubeclient : KubeClient) : Builder :=
  {| Images := Images (builder true);
     KubeClient_ := kubeclient;
     EntrypointCache := EntrypointCache (builder true);
     OverrideHomeEnv := true |}.

(** The listing of limit ranges is refused. *)
Definition forbidden : KubeClient :=
  {| LimitRanges_List := λ _, Err "limitranges is forbidden";
     cluster := "test" |}.

(** The limit ranges of [kubeclient] the other way round. *)
Definition reversed : KubeClient :=
  {| LimitRanges_List := λ _, Ok [limitRange 250; limitRange 100];
     cluster := "test" |}.

(** A limit range whose items declare nothing for containers: a pod
    minimum, and a container item without [Min]. *)
Definition otherTypes : KubeClient :=
  {| LimitRanges_List := λ _,
       Ok [ {| LimitRange.Limits :=
                 [ {| LimitRangeItem.Type_ := LimitTypePod;
                      LimitRangeItem.Min := Some {[ "cpu" := 500%Z ]} |};
                   {| LimitRangeItem.Type_ := LimitTypeContainer;
                      LimitRangeItem.Min := None |} ] |} ];
     cluster := "test" |}.

Definition cpuFloor : ResourceList :=
  Eval vm_compute in
    getOk (getLimitRangeMinimum (ctx "alpha") "default" kubeclient).

Definition cpuFloorReversed : ResourceList :=
  Eval vm_compute in
    getOk (getLimitRangeMinimum (ctx "alpha") "default" reversed).

(** A task run whose annotation map is nil, and one without a pod
    template. *)
Definition nilRun : State :=
  {| taskRunObject := TaskRun.withAnnotations (taskRun []) None;
     rand := 0%nat |}.

Definition bareRun : State :=
  {| taskRunObject :=
       {| TaskRun.Name := "taskrun-name";
          TaskRun.Namespace := "default";
          TaskRun.UID := "uid-1";
          TaskRun.Labels := {[ "tekton.dev/taskRun" := "mine"; "app" := "demo" ]};
          TaskRun.Annotations := Some {[ "note" := "kept" ]};
          TaskRun.Spec :=
            {| TaskRunSpec.ServiceAccountName := "default";
               TaskRunSpec.Debug := None;
               TaskRunSpec.PodTemplate := None |} |};
     rand := 7%nat |}.

Definition barePod : Pod.t :=
  Eval vm_compute in
    getOk (Build (ctx "alpha") (builder true) taskSpec bareRun).1.

Definition bareAfter : State :=
  Eval vm_compute in
    (Build (ctx "alpha") (builder true) taskSpec bareRun).2.

(** The same task run built again, as the first [Build] left it, by
    another builder. *)
Definition barePodAgain : Pod.t :=
  Eval vm_compute in
    getOk (Build (ctx "alpha") otherBuilder taskSpec bareAfter).1.

Definition bareAfterAgain : State :=
  Eval vm_compute in
    (Build (ctx "alpha") otherBuilder taskSpec bareAfter).2.

End edge_cases.

(* ===================================================================== *)
(** * Part II: properties                                                 *)
(* ===================================================================== *)

(** ** Reference matching *)
Module regexp_facts.
Import regexp.

Lemma bind_all_nil {A B} (f : A → list B) (l : list A) :
  (∀ x, f x = []) → l ≫= f = [].
Proof.
  intros Hf. induction l as [|x l IH]; [done|]. by rewrite bind_cons, Hf, IH.
Qed.

Lemma star_loop_fuel step n m s :
  (length s ≤ n)%nat → (length s ≤ m)%nat →
  star_loop step n s = star_loop step m s.
Proof.
  revert m s. induction n as [|n IH]; intros [|m] s Hn Hm; simpl; try done.
  - destruct s; simpl in *; [|lia]. by rewrite bind_all_nil.
  - destruct s; simpl in *; [|lia]. by rewrite bind_all_nil.
  - f_equal. apply list_bind_ext; [|done]. intros s'.
    destruct (length s' <? length s)%nat eqn:E; [|done].
    apply Nat.ltb_lt in E. apply IH; lia.
Qed.

(** Whatever the matcher returns is the input minus a prefix that is in
    the language. *)
Lemma star_loop_sound r n s s' :
  (∀ t t', t' ∈ backtrack r t → ∃ u, t = u ++ t' ∧ matches r u) →
  s' ∈ star_loop (backtrack r) n s →
  ∃ u, s = u ++ s' ∧ matches (OpStar r) u.
Proof.
  intros Hr. revert s. induction n as [|n IH]; intros s; simpl.
  - intros ->%list_elem_of_singleton. exists []. split; [done|constructor].
  - rewrite elem_of_app, list_elem_of_bind, list_elem_of_singleton.
    intros [(t & Ht & Hin)| ->]; [|exists []; split; [done|constructor]].
    destruct (length t <? length s)%nat; [|by apply elem_of_nil in Ht].
    destruct (Hr _ _ Hin) as (u1 & -> & Hu1).
    destruct (IH _ Ht) as (u2 & -> & Hu2).
    exists (u1 ++ u2). split; [by rewrite app_assoc|by constructor].
Qed.

Lemma backtrack_sound r s s' :
  s' ∈ backtrack r s → ∃ u, s = u ++ s' ∧ matches r u.
Proof.
  revert s s'. induction r as [c|ranges|r1 IH1 r2 IH2|r1 IH1 r2 IH2|r IH|r IH|r IH];
    intros s s'; simpl.
  - destruct s as [|a t]; [by intros ?%elem_of_nil|].
    destruct (Ascii.eqb_spec a c) as [->|]; [|by intros ?%elem_of_nil].
    intros ->%list_elem_of_singleton. exists [c]. split; [done|constructor].
  - destruct s as [|a t]; [by intros ?%elem_of_nil|].
    destruct (in_class ranges a) eqn:E; [|by intros ?%elem_of_nil].
    intros ->%list_elem_of_singleton. exists [a]. split; [done|by constructor].
  - rewrite list_elem_of_bind. intros (t & H2 & H1).
    destruct (IH1 _ _ H1) as (u1 & -> & Hu1).
    destruct (IH2 _ _ H2) as (u2 & -> & Hu2).
    exists (u1 ++ u2). split; [by rewrite app_assoc|by constructor].
  - rewrite elem_of_app. intros [H|H].
    + destruct (IH1 _ _ H) as (u & -> & Hu). exists u. split; [done|by constructor].
    + destruct (IH2 _ _ H) as (u & -> & Hu). exists u.
      split; [done|by apply matches_alt_r].
  - by apply star_loop_sound.
  - rewrite list_elem_of_bind. intros (t & H2 & H1).
    destruct (IH _ _ H1) as (u1 & -> & Hu1).
    destruct (star_loop_sound r _ _ _ IH H2) as (u2 & -> & Hu2).
    exists (u1 ++ u2). split; [by rewrite app_assoc|by constructor].
  - rewrite elem_of_app, list_elem_of_singleton. intros [H| ->].
    + destruct (IH _ _ H) as (u & -> & Hu). exists u.
      split; [done|by apply matches_quest_some].
    + exists []. split; [done|constructor].
Qed.

(** Conversely every prefix in the language is found. *)
Lemma backtrack_complete r u :
  matches r u → ∀ s', s' ∈ backtrack r (u ++ s').
Proof.
  induction 1 as [c|ranges c Hc|r1 r2 u v _ IHu _ IHv|r1 r2 u _ IH|r1 r2 u _ IH
                 |r|r u v _ IHu _ IHv|r u v _ IHu _ IHv|r|r u _ IH];
    intros s'; simpl.
  - rewrite Ascii.eqb_refl. by apply list_elem_of_singleton.
  - rewrite Hc. by apply list_elem_of_singleton.
  - apply list_elem_of_bind. exists (v ++ s'). split; [apply IHv|].
    rewrite <- app_assoc. apply IHu.
  - apply elem_of_app. left. apply IH.
  - apply elem_of_app. right. apply IH.
  - destruct (length s'); simpl; set_solver.
  - destruct u as [|a u]; [apply IHv|].
    simpl. apply elem_of_app. left. apply list_elem_of_bind.
    exists (v ++ s'). split.
    + rewrite <- app_assoc, !length_app.
      destruct (_ <? _)%nat eqn:E; [|apply Nat.ltb_ge in E; simpl in E; lia].
      specialize (IHv s'). simpl in IHv.
      rewrite (star_loop_fuel _ _ (length (v ++ s'))); [done| |done].
      rewrite !length_app. lia.
    + specialize (IHu (v ++ s')). simpl in IHu. by rewrite <- app_assoc.
  - apply list_elem_of_bind. exists (v ++ s'). split; [apply IHv|].
    rewrite <- app_assoc. apply IHu.
  - set_solver.
  - apply elem_of_app. left. apply IH.
Qed.

(** A reported match is a substring in the language. *)
Lemma doExecute_Some re s sk m rest :
  doExecute re s = Some (sk, m, rest) →
  s = sk ++ m ++ rest ∧ matches re m.
Proof.
  revert sk. induction s as [|c t IH]; intros sk; simpl.
  - destruct (backtrack re []) as [|r l] eqn:E; [done|].
    intros [= <- <- <-].
    destruct (backtrack_sound re [] r) as (u & Hu & Hm); [rewrite E; left|].
    symmetry in Hu. apply app_eq_nil in Hu as [-> ->]. by split.
  - destruct (backtrack re (c :: t)) as [|r l] eqn:E.
    + destruct (doExecute re t) as [[[sk' m'] rest']|]; [|done].
      intros [= <- <- <-]. destruct (IH sk' eq_refl) as [-> Hm]. by split.
    + intros [= <- <- <-].
      destruct (backtrack_sound re (c :: t) r) as (u & Hu & Hm);
        [rewrite E; left|].
      assert (S (length t) - length r = length u)%nat as ->.
      { apply (f_equal length) in Hu. rewrite length_app in Hu.
        simpl in Hu. lia. }
      rewrite Hu, take_app_length. by split.
Qed.

(** [doExecute] fails exactly when no substring is in the language. *)
Lemma doExecute_None re s : doExecute re s = None ↔ ¬ has_match re s.
Proof.
  split.
  - induction s as [|c t IH]; simpl.
    + destruct (backtrack re []) as [|r l] eqn:E; [|done].
      intros _ (b & m & a & Hs & Hm).
      symmetry in Hs. apply app_eq_nil in Hs as [-> [-> ->]%app_eq_nil].
      pose proof (backtrack_complete _ _ Hm []) as Hin.
      simpl in Hin. rewrite E in Hin. by apply elem_of_nil in Hin.
    + destruct (backtrack re (c :: t)) as [|r l] eqn:E; [|done].
      destruct (doExecute re t) as [[[sk m] rest]|]; [done|].
      intros _ (b & m & a & Hs & Hm).
      destruct b as [|c' b]; simpl in Hs.
      * pose proof (backtrack_complete _ _ Hm a) as Hin.
        rewrite <- Hs, E in Hin. by apply elem_of_nil in Hin.
      * injection Hs as -> ->. apply IH; [done|]. by exists b, m, a.
  - intros Hno. destruct (doExecute re s) as [[[sk m] rest]|] eqn:E; [|done].
    exfalso. apply Hno. apply doExecute_Some in E as [-> Hm].
    by exists sk, m, rest.
Qed.

(** The rounds of [allMatches] each move forward in the text, so that
    any fuel beyond the length of the text gives the same matches. *)
Lemma allMatches_fuel re n m atPrevEnd s :
  (length s < n)%nat → (length s < m)%nat →
  allMatches re n atPrevEnd s = allMatches re m atPrevEnd s.
Proof.
  revert m atPrevEnd s.
  induction n as [|n IH]; intros [|m] atPrevEnd s Hn Hm; try lia.
  simpl. destruct (doExecute re s) as [[[sk mt] rest]|] eqn:E; [|done].
  apply doExecute_Some in E as [Hs _].
  apply (f_equal length) in Hs. rewrite !length_app in Hs.
  destruct sk as [|c sk]; [destruct mt as [|c mt]|].
  - destruct s as [|c t]; [done|]. f_equal. apply IH; simpl in *; lia.
  - f_equal. apply IH; simpl in *; lia.
  - f_equal. apply IH; simpl in *; lia.
Qed.

Lemma FindAllString_nil re s :
  FindAllString re s = golang.nil
  ↔ ¬ has_match re (String.list_ascii_of_string s).
Proof.
  rewrite <- doExecute_None. unfold FindAllString. simpl.
  destruct (doExecute re _) as [[[sk m] rest]|]; [|done].
  split; [|done]. intros H. exfalso.
  destruct sk, m; simpl in H; try done.
  destruct (String.list_ascii_of_string s); simpl in H; done.
Qed.

End regexp_facts.

Module types_facts.
Import regexp types regexp_facts.

Lemma foldl_append_Some {A B} (f : A → B) (l : list A) (acc : list B) :
  foldl (λ result x, golang.append result (f x)) (Some acc) l
  = Some (acc ++ (f <$> l)).
Proof.
  revert acc. induction l as [|x l IH]; intros acc; simpl.
  - by rewrite app_nil_r.
  - unfold golang.append at 2. simpl. by rewrite IH, <- app_assoc.
Qed.

(** [validateString] returns nil exactly on texts without references,
    and otherwise a non-nil slice with one body per match. *)
Lemma validateString_nil_iff value :
  validateString value = golang.nil ↔ ¬ contains_reference value.
Proof.
  unfold contains_reference. rewrite <- FindAllString_nil.
  unfold validateString.
  destruct (FindAllString VariableSubstitutionRegex value) as [l|] eqn:E;
    [|done].
  split; [|done]. intros H. exfalso.
  destruct l as [|x l].
  - unfold FindAllString in E. by destruct (allMatches _ _ _ _).
  - simpl in H. unfold golang.append at 2 in H. simpl in H.
    by rewrite foldl_append_Some in H.
Qed.

Lemma plain_text_has_no_reference : ¬ contains_reference "plain text".
Proof. apply validateString_nil_iff. vm_compute. reflexivity. Qed.

(** C4, as stated, fails: on a text without references the matcher
    returns Go's nil slice, not a present empty one. *)
Lemma validateString_plain_text_is_nil :
  ¬ contains_reference "plain text"
  ∧ validateString "plain text" = golang.nil
  ∧ validateString "plain text" ≠ Some [].
Proof.
  split; [apply plain_text_has_no_reference|].
  split; [vm_compute; reflexivity|]. vm_compute. discriminate.
Qed.

(** C4, amended: for every text that contains no reference,
    [validateString] returns the nil slice, which has length zero and
    no elements; the function has no error result at all. *)
Theorem validateString_no_reference value :
  ¬ contains_reference value →
  validateString value = golang.nil
  ∧ golang.len (validateString value) = 0%nat
  ∧ golang.elems (validateString value) = [].
Proof.
  intros H. apply validateString_nil_iff in H. by rewrite H.
Qed.

Lemma validateString_no_reference_witness :
  ¬ contains_reference "plain text"
  ∧ validateString "plain text" = golang.nil
  ∧ golang.len (validateString "plain text") = 0%nat
  ∧ golang.elems (validateString "plain text") = [].
Proof.
  split; [apply plain_text_has_no_reference|].
  apply (validateString_no_reference "plain text").
  apply plain_text_has_no_reference.
Defined.

Example validateString_one_reference :
  validateString "$(tasks.task1.results.task1-result)"
  = Some ["tasks.task1.results.task1-result"].
Proof. vm_compute. reflexivity. Qed.

Example validateString_indexed :
  validateString "a $(params.foo[0]) b $(x.y[*])$(bad[1x]) $(zz)"
  = Some ["params.foo[0]"; "x.y[*]"; "zz"].
Proof. vm_compute. reflexivity. Qed.

Example validateString_unclosed :
  validateString "no references here $( ) $(a" = golang.nil.
Proof. vm_compute. reflexivity. Qed.

End types_facts.

(** ** The termination message *)
Module message_facts.
Import message.

(** C9: an outcome whose encoding would exceed 4096 bytes is not
    encoded: [Encode] fails with the length error [errTooLong] and
    returns no payload.  Whether [Encode] fails depends on the size
    alone, not on whether the step failed: every outcome that fits,
    whatever its reason, is encoded, and what is returned as a success
    is the whole encoding, never a shortened one. *)
Theorem Encode_oversize_is_length_error marshal outcome :
  (maxSize < length (marshal outcome))%nat →
  Encode marshal outcome = inl errTooLong
  ∧ (∀ payload, Encode marshal outcome ≠ inr payload)
  ∧ (∀ o e, Encode marshal o = inl e ↔
            e = errTooLong ∧ (maxSize < length (marshal o))%nat)
  ∧ (∀ o payload, Encode marshal o = inr payload ↔
                  payload = marshal o ∧ (length payload ≤ maxSize)%nat).
Proof.
  intros Hlong.
  assert (∀ o e, Encode marshal o = inl e ↔
                 e = errTooLong ∧ (maxSize < length (marshal o))%nat) as Hl.
  { intros o e. unfold Encode.
    destruct (maxSize <? length (marshal o))%nat eqn:E.
    - apply Nat.ltb_lt in E. split; [by intros [= <-]|by intros [-> _]].
    - apply Nat.ltb_ge in E. split; [done|]. intros [_ ?]. lia. }
  assert (∀ o payload, Encode marshal o = inr payload ↔
                       payload = marshal o ∧ (length payload ≤ maxSize)%nat)
    as Hr.
  { intros o payload. unfold Encode.
    destruct (maxSize <? length (marshal o))%nat eqn:E.
    - apply Nat.ltb_lt in E. split; [done|]. intros [-> ?]. lia.
    - apply Nat.ltb_ge in E. split; [by intros [= <-]|by intros [-> _]]. }
  split_and!; [by apply Hl| |done..].
  intros payload [-> ?]%Hr. lia.
Qed.

Lemma Encode_oversize_is_length_error_witness :
  (maxSize < length (lineFormat failing_steps.longOutcome))%nat
  ∧ Encode lineFormat failing_steps.longOutcome = inl errTooLong
  ∧ Encode lineFormat failing_steps.failedOutcome
    = inr (lineFormat failing_steps.failedOutcome).
Proof.
  assert (maxSize < length (lineFormat failing_steps.longOutcome))%nat as Hlong
    by (apply Nat.ltb_lt; vm_compute; reflexivity).
  split; [exact Hlong|].
  destruct (Encode_oversize_is_length_error lineFormat
              failing_steps.longOutcome Hlong) as (Herr & _ & _ & Hfits).
  split; [exact Herr|].
  apply Hfits. split; [reflexivity|].
  apply Nat.leb_le. vm_compute. reflexivity.
Defined.

End message_facts.

(** ** The entrypoint wrapper *)
Module entrypoint_facts.
Import message entrypoint.

(** C2: when the real command of a step with policy [Continue] exits
    with a non-zero code, the wrapper (once its wait condition holds)
    produces an outcome with reason [ErroredIgnored] that records that
    code, writes its completion marker, so that the wait condition of
    the next step holds, and exits with 0 toward the platform. *)
Theorem run_continue_ignores_error w v command fs exitCode :
  onError w = Continue →
  exitCode ≠ 0%Z →
  waitSatisfied w v = true →
  command (files v) = (fs, {| cause := Exited; code := exitCode |}) →
  ∃ r,
    run w v command = Some r
    ∧ OutcomeReason (outcome r) = ErroredIgnored
    ∧ ExitCode (outcome r) = exitCode
    ∧ index w ∈ markers (volume r)
    ∧ (∀ policy paths,
         waitSatisfied (rewrite (S (index w)) policy paths) (volume r) = true)
    ∧ platformExitCode r = 0%Z.
Proof.
  intros Hpolicy Hcode Hwait Hcmd. unfold run.
  rewrite Hwait, Hcmd, Hpolicy. unfold selectReason. simpl.
  rewrite bool_decide_false by done. simpl.
  eexists. split; [reflexivity|]. simpl.
  split_and!; [done|done|set_solver| |done].
  intros policy paths. unfold waitSatisfied. simpl.
  apply bool_decide_eq_true. set_solver.
Qed.

Lemma run_continue_ignores_error_witness :
  onError failing_steps.exit_with_1 = Continue
  ∧ 1%Z ≠ 0%Z
  ∧ waitSatisfied failing_steps.exit_with_1 failing_steps.emptyVolume = true
  ∧ ∃ r,
      run failing_steps.exit_with_1 failing_steps.emptyVolume
          failing_steps.script1 = Some r
      ∧ OutcomeReason (outcome r) = ErroredIgnored
      ∧ ExitCode (outcome r) = 1%Z
      ∧ waitSatisfied failing_steps.write_a_result (volume r) = true
      ∧ platformExitCode r = 0%Z.
Proof.
  split; [reflexivity|]. split; [discriminate|]. split; [reflexivity|].
  destruct (run_continue_ignores_error failing_steps.exit_with_1
              failing_steps.emptyVolume failing_steps.script1 ∅ 1%Z
              eq_refl ltac:(discriminate) eq_refl eq_refl)
    as (r & Hrun & Hreason & Hcode & _ & Hnext & Hexit).
  exists r. split; [exact Hrun|]. split; [exact Hreason|].
  split; [exact Hcode|]. split; [apply Hnext|exact Hexit].
Defined.

(** The two steps of the fixture in sequence: both errors are ignored,
    both exit codes are recorded, the result is captured, and the
    platform sees exit code 0 twice. *)
Example failing_steps_run :
  ∃ r1 r2,
    run failing_steps.exit_with_1 failing_steps.emptyVolume
        failing_steps.script1 = Some r1
    ∧ run failing_steps.write_a_result (volume r1) failing_steps.script2
      = Some r2
    ∧ OutcomeReason (outcome r1) = ErroredIgnored
    ∧ OutcomeReason (outcome r2) = ErroredIgnored
    ∧ ExitCode (outcome r2) = 11%Z
    ∧ Results (outcome r2)
      = [ {| ResultName := "task1-result"; ResultValue := "123" |} ]
    ∧ platformExitCode r1 = 0%Z ∧ platformExitCode r2 = 0%Z.
Proof. eexists _, _. split_and!; vm_compute; reflexivity. Qed.

(** Under [StopAndFail] the same exit writes no marker: the next step
    stays blocked. *)
Example stop_and_fail_blocks_successor :
  ∃ r,
    run (rewrite 0 StopAndFail []) failing_steps.emptyVolume
        failing_steps.script1 = Some r
    ∧ OutcomeReason (outcome r) = Errored
    ∧ platformExitCode r = 1%Z
    ∧ run failing_steps.write_a_result (volume r) failing_steps.script2 = None.
Proof. eexists. split_and!; vm_compute; reflexivity. Qed.

End entrypoint_facts.

(** ** The pod builder *)
Module pod_facts.
Import golang corev1 v1beta1 pod.

Section facts.
Context `{Deps}.

(** *** The namespace minimum *)

Lemma quantityOf_raiseMin k v min k' :
  quantityOf (raiseMin k v min) k'
  = if bool_decide (k = k') then Z.max (quantityOf min k) v
    else quantityOf min k'.
Proof.
  unfold raiseMin, quantityOf.
  repeat case_bool_decide; simplify_map_eq; try lia; done.
Qed.

(** Ranging over one [Min] map raises exactly the keys it holds, in
    whatever order the map is traversed. *)
Lemma quantityOf_map_fold_raiseMin (m : ResourceList) min k :
  quantityOf (map_fold raiseMin min m) k
  = match m !! k with
    | Some v => Z.max (quantityOf min k) v
    | None => quantityOf min k
    end.
Proof.
  revert k. apply (map_fold_weak_ind
    (λ r m, ∀ k, quantityOf r k = match m !! k with
                                   | Some v => Z.max (quantityOf min k) v
                                   | None => quantityOf min k
                                   end)).
  - intros k. by rewrite lookup_empty.
  - intros i x m' r Hi IH k. rewrite quantityOf_raiseMin.
    case_bool_decide as Hk.
    + subst i. rewrite lookup_insert_eq, IH, Hi. done.
    + by rewrite lookup_insert_ne, IH.
Qed.

Lemma quantityOf_scanItem min lrItem k :
  quantityOf (scanItem min lrItem) k
  = foldl Z.max (quantityOf min k)
      (declaredMinimums k [ {| LimitRange.Limits := [lrItem] |} ]).
Proof.
  unfold scanItem, declaredMinimums. simpl.
  case_bool_decide; [|done].
  destruct (LimitRangeItem.Min lrItem) as [m|]; simpl; [|done].
  rewrite quantityOf_map_fold_raiseMin. by destruct (m !! k).
Qed.

Lemma declaredMinimums_cons k lr lrs :
  declaredMinimums k (lr :: lrs)
  = declaredMinimums k [lr] ++ declaredMinimums k lrs.
Proof. unfold declaredMinimums. by rewrite !bind_cons, app_nil_r. Qed.

Lemma declaredMinimums_item k lrItem items :
  declaredMinimums k [ {| LimitRange.Limits := lrItem :: items |} ]
  = declaredMinimums k [ {| LimitRange.Limits := [lrItem] |} ]
    ++ declaredMinimums k [ {| LimitRange.Limits := items |} ].
Proof.
  unfold declaredMinimums. simpl. rewrite !app_nil_r. reflexivity.
Qed.

Lemma quantityOf_scan_items items min k :
  quantityOf (foldl scanItem min items) k
  = foldl Z.max (quantityOf min k)
      (declaredMinimums k [ {| LimitRange.Limits := items |} ]).
Proof.
  revert min. induction items as [|it items IH]; intros min; [done|].
  rewrite declaredMinimums_item, foldl_app, <- quantityOf_scanItem, <- IH.
  reflexivity.
Qed.

Lemma quantityOf_scan limitRanges min k :
  quantityOf (foldl (λ min lr, foldl scanItem min (LimitRange.Limits lr))
                    min limitRanges) k
  = foldl Z.max (quantityOf min k) (declaredMinimums k limitRanges).
Proof.
  revert min. induction limitRanges as [|lr lrs IH]; intros min; [done|].
  rewrite declaredMinimums_cons, foldl_app.
  destruct lr as [items]. rewrite <- quantityOf_scan_items, <- IH.
  reflexivity.
Qed.

(** *** The resource requests *)

Lemma quantityOf_orZeroQty (min : ResourceList) name k :
  quantityOf (orZeroQty min name) k = quantityOf min k.
Proof.
  unfold orZeroQty, quantityOf, zeroQty.
  destruct (min !! name) as [qty|] eqn:E; [case_bool_decide|];
    destruct (decide (k = name)) as [->|Hne];
    rewrite ?lookup_insert_eq, ?lookup_insert_ne, ?E by done; simpl; congruence.
Qed.

Lemma quantityOf_orZeroQty_all (min : ResourceList) k :
  quantityOf (foldl orZeroQty min resourceNames) k = quantityOf min k.
Proof. simpl. by rewrite !quantityOf_orZeroQty. Qed.

(** Ranging over the requests of one container looks at every resource
    once, in whatever order the map is traversed. *)
Lemma map_fold_raiseMax_key i (m : ResourceList) found k :
  (quantityOf (map_fold (raiseMax i) found m).1 k,
   (map_fold (raiseMax i) found m).2 !! k)
  = match m !! k with
    | Some v =>
        if bool_decide (v > quantityOf found.1 k)%Z
        then (v, Some (Z.of_nat i))
        else (quantityOf found.1 k, found.2 !! k)
    | None => (quantityOf found.1 k, found.2 !! k)
    end.
Proof.
  revert k. apply (map_fold_weak_ind
    (λ r m, ∀ k, (quantityOf r.1 k, r.2 !! k)
                 = match m !! k with
                   | Some v =>
                       if bool_decide (v > quantityOf found.1 k)%Z
                       then (v, Some (Z.of_nat i))
                       else (quantityOf found.1 k, found.2 !! k)
                   | None => (quantityOf found.1 k, found.2 !! k)
                   end)).
  - intros k. by rewrite lookup_empty.
  - intros j x m' [max idx] Hj IH k. unfold raiseMax.
    destruct (decide (k = j)) as [->|Hne].
    + rewrite lookup_insert_eq. specialize (IH j). rewrite Hj in IH.
      simpl in IH. injection IH as IH1 IH2.
      rewrite IH1. case_bool_decide; simpl.
      * unfold quantityOf. by rewrite !lookup_insert_eq.
      * by rewrite IH1, IH2.
    + rewrite lookup_insert_ne by done. rewrite <- IH.
      case_bool_decide; simpl; [|done].
      unfold quantityOf. by rewrite !lookup_insert_ne.
Qed.

Lemma findMax_scan_from k cs i (found : ResourceList * gmap string Z) :
  let r := foldl (λ found ic,
                    map_fold (raiseMax ic.1) found
                      (default ∅ (ResourceRequirements.Requests
                                    (Container.Resources ic.2))))
                 found (imap (λ j, pair (i + j)%nat) cs) in
  (quantityOf r.1 k, r.2 !! k)
  = scanMax k cs i (quantityOf found.1 k) (found.2 !! k).
Proof.
  revert i found. induction cs as [|c cs IH]; intros i found; [done|].
  rewrite imap_cons. simpl.
  assert (imap ((λ j, pair (i + j)%nat) ∘ S) cs
          = imap (λ j, pair (S i + j)%nat) cs) as ->.
  { apply imap_ext. intros j x _. simpl. by rewrite Nat.add_succ_r. }
  specialize (IH (S i)). simpl in IH. rewrite IH.
  pose proof (map_fold_raiseMax_key (i + 0)
                (default ∅ (ResourceRequirements.Requests (Container.Resources c)))
                found k) as Hkey.
  pose proof (f_equal fst Hkey) as Hq. pose proof (f_equal snd Hkey) as Hi.
  simpl in Hq, Hi. rewrite Hq, Hi. rewrite Nat.add_0_r.
  destruct (ResourceRequirements.Requests (Container.Resources c)) as [m|];
    simpl; [|by rewrite lookup_empty].
  destruct (m !! k) as [v|]; [|done].
  by case_bool_decide.
Qed.

Lemma findMax_scan k cs :
  (quantityOf (findMax cs).1 k, (findMax cs).2 !! k)
  = scanMax k cs 0 (quantityOf allZeroQty k)
      (if bool_decide (k ∈ resourceNames) then Some (-1)%Z else None).
Proof.
  unfold findMax.
  etransitivity;
    [exact (findMax_scan_from k cs 0
              (allZeroQty,
               list_to_map ((λ resourceName, (resourceName, (-1)%Z))
                              <$> resourceNames)))|].
  cbn [fst snd]. f_equal.
  unfold resourceNames. cbn [fmap list_fmap list_to_map foldr uncurry].
  case_bool_decide as Hk.
  - repeat (apply elem_of_cons in Hk as [->|Hk]; [by simplify_map_eq|]).
    by apply elem_of_nil in Hk.
  - rewrite !lookup_insert_ne; [apply lookup_empty|..];
      intros <-; apply Hk; set_solver.
Qed.

Lemma requestOf_lookup c k :
  requestOf c k
  = default 0%Z (ResourceRequirements.Requests (Container.Resources c) ≫= (.!! k)).
Proof.
  unfold requestOf, quantityOf.
  destruct (ResourceRequirements.Requests (Container.Resources c)); [done|].
  simpl. by rewrite lookup_empty.
Qed.

(** The scan finds the largest requester. *)
Lemma scanMax_spec k cs i best seen :
  (0 ≤ best)%Z →
  (scanMax k cs i best seen = (best, seen)
   ∧ ∀ j c, cs !! j = Some c → (requestOf c k ≤ best)%Z)
  ∨ ∃ j c,
      cs !! j = Some c
      ∧ scanMax k cs i best seen = (requestOf c k, Some (Z.of_nat (i + j)))
      ∧ (best < requestOf c k)%Z
      ∧ (∀ j' c', (j' < j)%nat → cs !! j' = Some c' →
                  (requestOf c' k < requestOf c k)%Z)
      ∧ (∀ j' c', cs !! j' = Some c' → (requestOf c' k ≤ requestOf c k)%Z).
Proof.
  revert i best seen. induction cs as [|c cs IH]; intros i best seen Hbest.
  - left. split; [done|]. intros j c Hj. by rewrite lookup_nil in Hj.
  - assert (∀ j' c' (bound : Z),
              (requestOf c k ≤ bound)%Z →
              (∀ j c', cs !! j = Some c' → (requestOf c' k ≤ bound)%Z) →
              (c :: cs) !! j' = Some c' → (requestOf c' k ≤ bound)%Z) as Hall.
    { intros [|j'] c' bound Hc Hcs Hj; simpl in Hj.
      - by injection Hj as <-.
      - by eapply Hcs. }
    cbn [scanMax].
    pose proof (requestOf_lookup c k) as Hreq.
    destruct (ResourceRequirements.Requests (Container.Resources c) ≫= (.!! k))
      as [v|] eqn:Ev; simpl in Hreq; [case_bool_decide as Hv|].
    + (* a larger request *)
      destruct (IH (S i) v (Some (Z.of_nat i))) as [[Hs Hle]|Hex]; [lia|..].
      * right. exists 0%nat, c. rewrite Nat.add_0_r, Hreq.
        split_and!; [done|done|lia| |].
        -- intros j' c' Hlt. lia.
        -- intros j' c' Hj. rewrite <- Hreq.
           eapply (Hall j' c' (requestOf c k)); [lia| |done].
           intros j c'' Hc''. rewrite Hreq. by eapply Hle.
      * destruct Hex as (j & c1 & Hj & Hs & Hlt & Hbefore & Hle).
        right. exists (S j), c1. rewrite Nat.add_succ_r.
        split_and!; [done|done|lia| |].
        -- intros [|j'] c' Hlt' Hj'; simpl in Hj'.
           ++ injection Hj' as <-. lia.
           ++ eapply Hbefore; [|done]. lia.
        -- intros j' c' Hj'.
           eapply (Hall j' c' (requestOf c1 k)); [lia|done|done].
    + (* not larger *)
      destruct (IH (S i) best seen) as [[Hs Hle]|Hex]; [lia|..].
      * left. split; [done|]. intros j' c' Hj'.
        eapply (Hall j' c' best); [lia|done|done].
      * destruct Hex as (j & c1 & Hj & Hs & Hlt & Hbefore & Hle).
        right. exists (S j), c1. rewrite Nat.add_succ_r.
        split_and!; [done|done|lia| |].
        -- intros [|j'] c' Hlt' Hj'; simpl in Hj'.
           ++ injection Hj' as <-. lia.
           ++ eapply Hbefore; [|done]. lia.
        -- intros j' c' Hj'.
           eapply (Hall j' c' (requestOf c1 k)); [lia|done|done].
    + (* no request *)
      destruct (IH (S i) best seen) as [[Hs Hle]|Hex]; [lia|..].
      * left. split; [done|]. intros j' c' Hj'.
        eapply (Hall j' c' best); [lia|done|done].
      * destruct Hex as (j & c1 & Hj & Hs & Hlt & Hbefore & Hle).
        right. exists (S j), c1. rewrite Nat.add_succ_r.
        split_and!; [done|done|lia| |].
        -- intros [|j'] c' Hlt' Hj'; simpl in Hj'.
           ++ injection Hj' as <-. lia.
           ++ eapply Hbefore; [|done]. lia.
        -- intros j' c' Hj'.
           eapply (Hall j' c' (requestOf c1 k)); [lia|done|done].
Qed.

(** Container [i] is where the scan saw the largest request exactly
    when it is the largest requester. *)
Lemma scanMax_largestRequester k cs i :
  (scanMax k cs 0 0 (Some (-1)%Z)).2 = Some (Z.of_nat i)
  ↔ largestRequester cs k i.
Proof.
  destruct (scanMax_spec k cs 0 0%Z (Some (-1)%Z)) as [[Hs Hle]|Hex]; [lia|..].
  - rewrite Hs. simpl. split; [intros [=]; lia|].
    intros (c & Hc & Hpos & _). specialize (Hle _ _ Hc). lia.
  - destruct Hex as (j & c & Hj & Hs & Hlt & Hbefore & Hle).
    rewrite Hs. simpl. split.
    + intros [= Heq]. assert (i = j) as -> by lia. by exists c.
    + intros (c' & Hc' & Hpos & Hbefore' & Hle').
      f_equal. f_equal.
      destruct (Nat.lt_trichotomy i j) as [Hij|[->|Hij]]; [|done|].
      * specialize (Hbefore _ _ Hij Hc'). specialize (Hle' _ _ Hj). lia.
      * specialize (Hbefore' _ _ Hij Hj). specialize (Hle _ _ Hc'). lia.
Qed.

Lemma scanMax_seen k cs i best seen :
  is_Some seen → is_Some (scanMax k cs i best seen).2.
Proof.
  revert i best seen. induction cs as [|c cs IH]; intros i best seen Hs; [done|].
  cbn [scanMax].
  destruct (ResourceRequirements.Requests (Container.Resources c) ≫= (.!! k));
    [case_bool_decide|]; apply IH; done.
Qed.

(** For the resource names the function treats, the index it found is
    that of the largest requester. *)
Lemma findMax_largestRequester cs k i :
  map_Forall (λ _ v, v = 0%Z) allZeroQty →
  k ∈ resourceNames →
  default 0%Z ((findMax cs).2 !! k) = Z.of_nat i ↔ largestRequester cs k i.
Proof.
  intros Hzero Hk.
  pose proof (f_equal snd (findMax_scan k cs)) as Hscan. simpl in Hscan.
  rewrite bool_decide_true in Hscan by done.
  assert (quantityOf allZeroQty k = 0%Z) as Hz.
  { unfold quantityOf. destruct (allZeroQty !! k) as [v|] eqn:E; [|done].
    by apply Hzero in E. }
  rewrite Hz in Hscan. rewrite Hscan, <- scanMax_largestRequester.
  destruct (scanMax_seen k cs 0 0%Z (Some (-1)%Z)) as [z Hsome]; [done|].
  rewrite Hsome. simpl. split; [by intros ->|by intros [= ->]].
Qed.

(** What the last loop leaves as the request of container [i] for
    resource [k]. *)
Lemma quantityOf_setNonMax (idx : gmap string Z) (min : ResourceList) i requests k :
  quantityOf (default ∅ (setNonMax idx min i requests)) k
  = match requests with
    | None => quantityOf min k
    | Some r =>
        if bool_decide (k ∈ resourceNames ∧ default 0%Z (idx !! k) ≠ Z.of_nat i)
        then quantityOf min k else quantityOf r k
    end.
Proof.
  destruct requests as [r|]; [|done]. unfold setNonMax. cbn [default].
  assert (∀ names (r : ResourceList), NoDup names →
    quantityOf
      (foldl (λ requests resourceName,
                if bool_decide (default 0%Z (idx !! resourceName) ≠ Z.of_nat i)
                then <[resourceName := quantityOf min resourceName]> requests
                else requests) r names) k
    = if bool_decide (k ∈ names ∧ default 0%Z (idx !! k) ≠ Z.of_nat i)
      then quantityOf min k else quantityOf r k) as Hfold.
  { intros names. induction names as [|n names IH]; intros r' Hnd.
    - cbn [foldl]. rewrite bool_decide_false; [done|].
      intros [Hin _]. by apply elem_of_nil in Hin.
    - apply NoDup_cons in Hnd as [Hn Hnd]. cbn [foldl]. rewrite IH by done.
      destruct (decide (k = n)) as [->|Hne].
      + rewrite (bool_decide_false (n ∈ names ∧ _)) by (by intros [? _]).
        destruct (decide (default 0%Z (idx !! n) ≠ Z.of_nat i)) as [Hi|Hi].
        * rewrite (bool_decide_true (default 0%Z (idx !! n) ≠ Z.of_nat i)) by done.
          rewrite bool_decide_true by (split; [left|done]).
          unfold quantityOf at 1. by rewrite lookup_insert_eq.
        * rewrite (bool_decide_false (default 0%Z (idx !! n) ≠ Z.of_nat i)) by done.
          rewrite bool_decide_false; [done|]. by intros [_ ?].
      + assert (quantityOf
                  (if bool_decide (default 0%Z (idx !! n) ≠ Z.of_nat i)
                   then <[n:=quantityOf min n]> r' else r') k
                = quantityOf r' k) as ->.
        { destruct (bool_decide (default 0%Z (idx !! n) ≠ Z.of_nat i)); [|done].
          unfold quantityOf. by rewrite lookup_insert_ne. }
        assert (bool_decide (k ∈ n :: names ∧ default 0%Z (idx !! k) ≠ Z.of_nat i)
                = bool_decide (k ∈ names ∧ default 0%Z (idx !! k) ≠ Z.of_nat i))
          as ->; [|done].
        apply bool_decide_ext. rewrite elem_of_cons.
        split; [intros [[?|?] ?]; done|intros [? ?]; auto]. }
  apply Hfold. unfold resourceNames.
  apply (bool_decide_unpack (NoDup _)). vm_compute. exact I.
Qed.

(** The request of a step container after [resolveResourceRequests]:
    the largest requester of a resource keeps its request, every other
    container gets the minimum. *)
Lemma resolved_request cs (min : ResourceList) i c k :
  map_Forall (λ _ v, v = 0%Z) allZeroQty →
  k ∈ resourceNames →
  cs !! i = Some c →
  let final :=
    quantityOf
      (default ∅ (setNonMax (findMax cs).2 (foldl orZeroQty min resourceNames) i
                    (ResourceRequirements.Requests (Container.Resources c)))) k in
  (largestRequester cs k i → final = requestOf c k)
  ∧ (¬ largestRequester cs k i → final = quantityOf min k).
Proof.
  intros Hzero Hk Hc final. unfold final.
  rewrite quantityOf_setNonMax, quantityOf_orZeroQty_all.
  pose proof (findMax_largestRequester cs k i Hzero Hk) as Hiff.
  destruct (ResourceRequirements.Requests (Container.Resources c)) as [r|] eqn:Er.
  - case_bool_decide as Hd.
    + destruct Hd as [_ Hne]. split; [|done].
      intros Hl. by apply Hiff in Hl.
    + split.
      * intros _. unfold requestOf. by rewrite Er.
      * intros Hn. exfalso. apply Hd. split; [done|].
        intros Heq. by apply Hn, Hiff.
  - split; [|done].
    intros (c' & Hc' & Hpos & _). rewrite Hc in Hc'. injection Hc' as <-.
    unfold requestOf in Hpos. rewrite Er in Hpos. simpl in Hpos.
    unfold quantityOf in Hpos. rewrite lookup_empty in Hpos. simpl in Hpos. lia.
Qed.

Lemma resolveResourceRequests_lookup cs (min : ResourceList) i :
  resolveResourceRequests cs min !! i
  = (λ c, Container.withResources c
            {| ResourceRequirements.Limits :=
                 ResourceRequirements.Limits (Container.Resources c);
               ResourceRequirements.Requests :=
                 setNonMax (findMax cs).2 (foldl orZeroQty min resourceNames) i
                   (ResourceRequirements.Requests (Container.Resources c)) |})
      <$> cs !! i.
Proof.
  unfold resolveResourceRequests. destruct (findMax cs) as [max idx].
  by rewrite list_lookup_imap.
Qed.

Lemma length_resolveResourceRequests cs (min : ResourceList) :
  length (resolveResourceRequests cs min) = length cs.
Proof.
  unfold resolveResourceRequests. destruct (findMax cs) as [max idx].
  apply length_imap.
Qed.


(** *** Cleaning paths *)

Example Clean_examples :
  filepath.Clean "/tekton/home/" = "/tekton/home"
  ∧ filepath.Clean "/tekton//home/." = "/tekton/home"
  ∧ filepath.Clean "/tekton/results/../home" = "/tekton/home"
  ∧ filepath.Clean "a/../.." = ".."
  ∧ filepath.Clean "/.." = "/"
  ∧ filepath.Clean "./" = "."
  ∧ filepath.Clean "" = ".".
Proof. split_and!; vm_compute; reflexivity. Qed.

(** *** The loops over the step containers *)

Lemma mergeSidecars_app steps sidecars :
  mergeSidecars steps sidecars
  = steps ++ ((λ sc, Container.withName sc (sidecarName sc)) <$> sidecars).
Proof.
  unfold mergeSidecars. revert steps.
  induction sidecars as [|sc scs IH]; intros steps; simpl.
  - by rewrite app_nil_r.
  - by rewrite IH, <- app_assoc.
Qed.

Lemma not_shadowed_iff declared imp :
  filepath.Clean (VolumeMount.MountPath imp)
    ∉ (list_to_set ((λ vm, filepath.Clean (VolumeMount.MountPath vm))
                      <$> declared) : gset string)
  ↔ ¬ shadowed declared imp.
Proof.
  unfold shadowed.
  rewrite elem_of_list_to_set, list_elem_of_fmap, Exists_exists.
  split.
  - intros Hn (vm & Hin & Heq). apply Hn. by exists vm.
  - intros Hn (vm & Heq & Hin). apply Hn. by exists vm.
Qed.

(** The mount loop, step by step: the volumes gain the credential
    volumes of the steps in order. *)
Lemma withImplicitVolumeMounts_fst ctx vms l i vols :
  (withImplicitVolumeMounts ctx vms i l vols).1
  = vols ++ mjoin (imap (λ j _, credsVolume ctx (i + j)) l).
Proof.
  revert i vols. induction l as [|s l IH]; intros i vols.
  - simpl. by rewrite app_nil_r.
  - rewrite imap_cons.
    assert (imap ((λ j (_ : Container.t), credsVolume ctx (i + j)) ∘ S) l
            = imap (λ j _, credsVolume ctx (S i + j)) l) as ->.
    { apply imap_ext. intros j x _. simpl. by rewrite Nat.add_succ_r. }
    rewrite Nat.add_0_r. specialize (IH (S i)).
    unfold credsVolume at 1. simpl.
    destruct (getCredsInitVolume ctx i) as [[v|] [vm|]];
      match goal with
      | |- context [withImplicitVolumeMounts ctx vms (S i) l ?w] =>
          specialize (IH w);
          destruct (withImplicitVolumeMounts ctx vms (S i) l w) as [vs cs]
      end; simpl in *; rewrite IH, <- ?app_assoc; reflexivity.
Qed.

Lemma withImplicitVolumeMounts_snd ctx vms l i vols j :
  (withImplicitVolumeMounts ctx vms i l vols).2 !! j
  = (λ s, let declared := Container.VolumeMounts s ++ credsMount ctx (i + j) in
          Container.withVolumeMounts s
            (declared ++ filter (λ imp, ¬ shadowed declared imp) vms))
      <$> l !! j.
Proof.
  revert i vols j. induction l as [|s l IH]; intros i vols j; [done|].
  simpl. unfold credsMount.
  destruct j as [|j]; simpl.
  - rewrite Nat.add_0_r.
    destruct (getCredsInitVolume ctx i) as [[v|] [vm|]];
      match goal with
      | |- context [withImplicitVolumeMounts ctx vms (S i) l ?w] =>
          destruct (withImplicitVolumeMounts ctx vms (S i) l w) as [vs cs]
      end; simpl; rewrite ?app_nil_r; do 3 f_equal;
      apply list_filter_iff; intros imp; apply not_shadowed_iff.
  - rewrite Nat.add_succ_r. specialize (IH (S i)). simpl in IH.
    destruct (getCredsInitVolume ctx i) as [[v|] [vm|]];
      match goal with
      | |- context [withImplicitVolumeMounts ctx vms (S i) l ?w] =>
          specialize (IH w j);
          destruct (withImplicitVolumeMounts ctx vms (S i) l w) as [vs cs]
      end; simpl in *; exact IH.
Qed.

Lemma withEnv_prepend_nil (s : Container.t) :
  Container.withEnv s ([] ++ Container.Env s) = s.
Proof. by destruct s. Qed.

(** The loops of [Build] treat every step container on its own:
    container [i] of the result is [finalStep] of container [i]
    delivered by the collaborators. *)
Lemma assembleSteps_lookup ctx taskRun pre i :
  (assembleSteps ctx taskRun pre).2 !! i
  = finalStep ctx taskRun pre i <$> stepContainers pre !! i.
Proof.
  unfold assembleSteps.
  destruct (withImplicitVolumeMounts _ _ _ _ _) as [vs cs] eqn:E.
  assert (cs = (withImplicitVolumeMounts ctx (volumeMounts pre) 0
    (withHermeticEnvVar ctx taskRun
       (withImplicitEnvVars (implicitEnvVars pre)
          (resolveResourceRequests (stepContainers pre) (limitRangeMin pre))))
    (volumes pre)).2) as -> by (by rewrite E).
  clear E. simpl. unfold withWorkingDirAndName.
  rewrite list_lookup_imap, withImplicitVolumeMounts_snd.
  unfold withHermeticEnvVar, withImplicitEnvVars.
  fold (hermetic ctx taskRun).
  assert (∀ l : list Container.t,
    (if (0 <? length (implicitEnvVars pre))%nat
     then (λ s, Container.withEnv s (implicitEnvVars pre ++ Container.Env s)) <$> l
     else l)
    = (λ s, Container.withEnv s (implicitEnvVars pre ++ Container.Env s)) <$> l)
    as ->.
  { intros l. destruct (implicitEnvVars pre); simpl; [|done].
    induction l as [|x l IHl]; [done|]. simpl.
    f_equal; [by destruct x|exact IHl]. }
  unfold finalStep.
  destruct (hermetic ctx taskRun);
    rewrite ?list_lookup_fmap, resolveResourceRequests_lookup;
    destruct (stepContainers pre !! i) as [s|];
    simpl; try done;
    destruct (bool_decide (Container.WorkingDir s = "")
              && shouldOverrideWorkingDir ctx);
    unfold addedMounts, declaredMounts;
    simpl; rewrite ?app_nil_r, <- ?app_assoc; done.
Qed.

Lemma assembleSteps_imap ctx taskRun pre :
  (assembleSteps ctx taskRun pre).2
  = imap (finalStep ctx taskRun pre) (stepContainers pre).
Proof.
  apply list_eq. intros i.
  by rewrite assembleSteps_lookup, list_lookup_imap.
Qed.

Lemma assembleSteps_length ctx taskRun pre :
  length (assembleSteps ctx taskRun pre).2 = length (stepContainers pre).
Proof. by rewrite assembleSteps_imap, length_imap. Qed.

Lemma assembleSteps_volumes ctx taskRun pre :
  (assembleSteps ctx taskRun pre).1
  = volumes pre ++ mjoin (imap (λ i _, credsVolume ctx i) (stepContainers pre)).
Proof.
  unfold assembleSteps.
  destruct (withImplicitVolumeMounts _ _ _ _ _) as [vs cs] eqn:E.
  simpl. apply (f_equal fst) in E. simpl in E. subst vs.
  rewrite withImplicitVolumeMounts_fst. f_equal.
  unfold withHermeticEnvVar, withImplicitEnvVars.
  f_equal. apply list_eq. intros i. rewrite !list_lookup_imap.
  repeat match goal with |- context [if ?b then _ else _] => destruct b end;
    rewrite ?list_lookup_fmap, resolveResourceRequests_lookup;
    by destruct (stepContainers pre !! i).
Qed.

(** *** [Build] as a whole *)

(** What a successful first part hands on: the implicit variables
    are the [HOME] default or nothing, the mounts to inject start
    with the implicit ones, and the floor is what
    [getLimitRangeMinimum] resolved. *)
Lemma prepare_Ok ctx b taskRun taskSpec pre :
  prepare ctx b taskRun taskSpec = Ok pre →
  implicitEnvVars pre = (if OverrideHomeEnv b then [homeEnvVar] else [])
  ∧ (∃ credVolumeMounts,
       volumeMounts pre = implicitVolumeMounts ++ credVolumeMounts)
  ∧ getLimitRangeMinimum ctx (TaskRun.Namespace taskRun) (KubeClient_ b)
    = Ok (limitRangeMin pre).
Proof.
  unfold prepare.
  destruct (credsInit _ _ _ _) as [[[credArgs credVols] credVMs]| |];
    simpl; [|done..].
  destruct (MergeStepsWithStepTemplate _ _) as [steps| |]; simpl; [|done..].
  destruct (if alphaAPIEnabled ctx then _ else _) as [[scriptsInit scs] sidecars].
  destruct (match scriptsInit with Some _ => _ | None => _ end) as [inits vols].
  destruct (resolveEntrypoints _ _ _ _ _) as [resolved| |]; simpl; [|done..].
  destruct (if alphaAPIEnabled ctx then _ else _) as [[init ordered]| |];
    simpl; [|done..].
  destruct (getLimitRangeMinimum _ _ _) as [floor| |]; simpl; [|done..].
  intros [= <-]. simpl. split_and!; [by destruct (OverrideHomeEnv b)| |done].
  by exists credVMs.
Qed.

(** What a successful [Build] returns and leaves behind. *)
Lemma Build_Ok ctx b taskSpec st pod st' :
  Build ctx b taskSpec st = (Ok pod, st') →
  ∃ pre version annotations,
    prepare ctx b (taskRunObject st) taskSpec = Ok pre
    ∧ changeset_Get = Ok version
    ∧ TaskRun.Annotations (taskRunObject st) = Some annotations
    ∧ PodSpec.Containers (Pod.Spec pod)
      = (assembleSteps ctx (taskRunObject st) pre).2
        ++ ((λ sc, Container.withName sc (sidecarName sc))
              <$> sidecarContainers pre)
    ∧ PodSpec.Volumes (Pod.Spec pod)
      = ((assembleSteps ctx (taskRunObject st) pre).1
         ++ TaskSpec.Volumes taskSpec)
        ++ podtemplate.Template.Volumes
             (default podtemplate.Template.zero
                (TaskRunSpec.PodTemplate (TaskRun.Spec (taskRunObject st))))
    ∧ PodSpec.Affinity (Pod.Spec pod)
      = (let affinityAssistantName :=
           index (TaskRun.Annotations (taskRunObject st))
                 AnnotationAffinityAssistantName in
         if bool_decide (affinityAssistantName ≠ "") then
           Some (nodeAffinityUsingAffinityAssistant affinityAssistantName)
         else podtemplate.Template.Affinity
                (default podtemplate.Template.zero
                   (TaskRunSpec.PodTemplate (TaskRun.Spec (taskRunObject st)))))
    ∧ ObjectMeta.Annotations (Pod.Meta pod)
      = Some (stamped ctx taskSpec version annotations)
    ∧ taskRunObject st'
      = TaskRun.withAnnotations (taskRunObject st)
          (Some (stamped ctx taskSpec version annotations))
    ∧ (ObjectMeta.Name (Pod.Meta pod), rand st')
      = RestrictLengthWithRandomSuffix
          (TaskRun.Name (taskRunObject st) +:+ "-pod") (rand st).
Proof.
  unfold Build, bind, lift, deref, ret, generateName, setAnnotation, stamped.
  destruct st as [tr r]. simpl.
  destruct (prepare ctx b tr taskSpec) as [pre| |]; [|done..].
  destruct (assembleSteps ctx tr pre) as [vols steps] eqn:Ea.
  destruct (ValidateVolumes _) as [err|]; [done|].
  destruct changeset_Get as [version| |]; [|done..].
  destruct (TaskRun.Annotations tr) as [annotations|] eqn:Ha; simpl;
    rewrite ?Ha; simpl; [|done].
  destruct (shouldAddReadyAnnotationOnPodCreate _ _); simpl;
    destruct (RestrictLengthWithRandomSuffix _ _) as [name r'];
    intros [= <- <-]; exists pre, version, annotations; simpl;
    rewrite mergeSidecars_app;
    destruct (TaskRunSpec.PodTemplate (TaskRun.Spec tr)); simpl;
    rewrite ?Ha, ?Ea; split_and!; done.
Qed.

(** The step containers come first in the pod, one per step
    container delivered, in the same order. *)
Lemma Build_step_container ctx b taskSpec st pod st' pre i s :
  Build ctx b taskSpec st = (Ok pod, st') →
  prepare ctx b (taskRunObject st) taskSpec = Ok pre →
  stepContainers pre !! i = Some s →
  PodSpec.Containers (Pod.Spec pod) !! i
  = Some (finalStep ctx (taskRunObject st) pre i s).
Proof.
  intros HB Hp Hs.
  apply Build_Ok in HB as (pre' & ? & ? & Hp' & _ & _ & -> & _).
  rewrite Hp in Hp'. injection Hp' as <-.
  rewrite lookup_app_l.
  - by rewrite assembleSteps_lookup, Hs.
  - rewrite assembleSteps_length. by eapply lookup_lt_Some.
Qed.

(** The sidecar containers follow, renamed and otherwise as they
    were delivered. *)
Lemma Build_sidecar_container ctx b taskSpec st pod st' pre j sc :
  Build ctx b taskSpec st = (Ok pod, st') →
  prepare ctx b (taskRunObject st) taskSpec = Ok pre →
  sidecarContainers pre !! j = Some sc →
  PodSpec.Containers (Pod.Spec pod) !! (length (stepContainers pre) + j)%nat
  = Some (Container.withName sc (sidecarName sc)).
Proof.
  intros HB Hp Hs.
  apply Build_Ok in HB as (pre' & ? & ? & Hp' & _ & _ & -> & _).
  rewrite Hp in Hp'. injection Hp' as <-.
  rewrite lookup_app_r; rewrite assembleSteps_length; [|lia].
  by rewrite Nat.add_sub', list_lookup_fmap, Hs.
Qed.

(** *** The resource floor *)

(** C3, amended: [getLimitRangeMinimum] combines the minimum
    declarations for one resource name by taking their maximum (from
    zero, the value it starts with): declarations of 100m and 250m
    give a floor of 250m.  Applying a floor leaves the request of
    the largest requester of a resource as it is and sets the
    request of every other step container to the floor: of two
    steps that request 50m and 300m, the first is raised to 250m
    and the second keeps 300m. *)
Theorem getLimitRangeMinimum_takes_maximum ctx namespace kubeclient limitRanges :
  LimitRanges_List kubeclient namespace = Ok limitRanges →
  map_Forall (λ _ v, v = 0%Z) allZeroQty →
  ∃ floor,
    getLimitRangeMinimum ctx namespace kubeclient = Ok floor
    ∧ (∀ k, quantityOf floor k = maxOf (declaredMinimums k limitRanges))
    ∧ (∀ k, declaredMinimums k limitRanges = [100%Z; 250%Z] →
         quantityOf floor k = 250%Z)
    ∧ (∀ containers i c k,
         k ∈ resourceNames → containers !! i = Some c →
         ∃ c',
           resolveResourceRequests containers floor !! i = Some c'
           ∧ ResourceRequirements.Limits (Container.Resources c')
             = ResourceRequirements.Limits (Container.Resources c)
           ∧ (largestRequester containers k i →
              requestOf c' k = requestOf c k)
           ∧ (¬ largestRequester containers k i →
              requestOf c' k = maxOf (declaredMinimums k limitRanges)))
    ∧ (∀ k c1 c2,
         k ∈ resourceNames →
         declaredMinimums k limitRanges = [100%Z; 250%Z] →
         requestOf c1 k = 50%Z → requestOf c2 k = 300%Z →
         ∃ c1' c2',
           resolveResourceRequests [c1; c2] floor = [c1'; c2']
           ∧ requestOf c1' k = 250%Z
           ∧ requestOf c2' k = 300%Z).
Proof.
  intros HList Hzero. unfold getLimitRangeMinimum. rewrite HList.
  eexists. split; [reflexivity|].
  set (floor := foldl (λ min lr, foldl scanItem min (LimitRange.Limits lr))
                      allZeroQty limitRanges).
  assert (∀ k, quantityOf floor k = maxOf (declaredMinimums k limitRanges))
    as Hfloor.
  { intros k. unfold floor. rewrite quantityOf_scan. unfold maxOf. f_equal.
    unfold quantityOf. destruct (allZeroQty !! k) as [v|] eqn:E; [|done].
    by apply Hzero in E. }
  assert (∀ containers i c k,
            k ∈ resourceNames → containers !! i = Some c →
            ∃ c',
              resolveResourceRequests containers floor !! i = Some c'
              ∧ ResourceRequirements.Limits (Container.Resources c')
                = ResourceRequirements.Limits (Container.Resources c)
              ∧ (largestRequester containers k i →
                 requestOf c' k = requestOf c k)
              ∧ (¬ largestRequester containers k i →
                 requestOf c' k = maxOf (declaredMinimums k limitRanges)))
    as Happly.
  { intros containers i c k Hk Hc.
    rewrite resolveResourceRequests_lookup, Hc. eexists.
    split; [reflexivity|]. split; [done|].
    rewrite <- Hfloor. unfold requestOf at 1 3. simpl.
    by apply resolved_request. }
  split_and!; [exact Hfloor| |exact Happly|].
  - intros k Hk. by rewrite Hfloor, Hk.
  - intros k c1 c2 Hk Hdecl H1 H2.
    destruct (Happly [c1; c2] 0%nat c1 k Hk eq_refl)
      as (c1' & Hc1' & _ & _ & Hfirst).
    destruct (Happly [c1; c2] 1%nat c2 k Hk eq_refl)
      as (c2' & Hc2' & _ & Hsecond & _).
    exists c1', c2'. split_and!.
    + apply list_eq. intros [|[|j]]; simpl; [done|done|].
      apply lookup_ge_None_2. rewrite length_resolveResourceRequests.
      simpl. lia.
    + rewrite Hfirst, Hdecl; [done|].
      intros (c & Hc & _ & _ & Hle). injection Hc as <-.
      specialize (Hle 1%nat c2 eq_refl). lia.
    + rewrite Hsecond; [done|].
      exists c2. split_and!; [done|lia| |].
      * intros [|j] c' Hlt Hj; [|lia]. injection Hj as <-. lia.
      * intros [|[|j]] c' Hj; simpl in Hj; [| |done];
          injection Hj as <-; lia.
Qed.

(** C1, amended: in the pod that [Build] returns, every step
    container keeps its limits; for each of the resource names
    [cpu], [memory] and [ephemeral-storage], the step container that
    is the largest requester of the resource keeps the request it
    came with, and the request of every other step container is
    the namespace floor that [getLimitRangeMinimum] resolved,
    whether it came with less or with more; a request for any other
    resource name stays as it came. *)
Theorem Build_requests_largest_or_floor ctx b taskSpec st pod st' pre i s :
  Build ctx b taskSpec st = (Ok pod, st') →
  prepare ctx b (taskRunObject st) taskSpec = Ok pre →
  map_Forall (λ _ v, v = 0%Z) allZeroQty →
  stepContainers pre !! i = Some s →
  ∃ s',
    PodSpec.Containers (Pod.Spec pod) !! i = Some s'
    ∧ getLimitRangeMinimum ctx (TaskRun.Namespace (taskRunObject st))
                           (KubeClient_ b)
      = Ok (limitRangeMin pre)
    ∧ ResourceRequirements.Limits (Container.Resources s')
      = ResourceRequirements.Limits (Container.Resources s)
    ∧ (∀ k, k ∈ resourceNames →
         (largestRequester (stepContainers pre) k i →
          requestOf s' k = requestOf s k)
         ∧ (¬ largestRequester (stepContainers pre) k i →
            requestOf s' k = quantityOf (limitRangeMin pre) k))
    ∧ (∀ k, k ∉ resourceNames →
         is_Some (ResourceRequirements.Requests (Container.Resources s)) →
         requestOf s' k = requestOf s k).
Proof.
  intros HB Hp Hzero Hs. eexists. split; [by eapply Build_step_container|].
  apply prepare_Ok in Hp as (_ & _ & Hfloor).
  split_and!; [done|done| |].
  - intros k Hk. unfold requestOf at 1 3. simpl.
    by apply resolved_request.
  - intros k Hk [r Hr]. unfold requestOf. simpl.
    rewrite quantityOf_setNonMax, Hr.
    rewrite bool_decide_false; [done|]. by intros [? _].
Qed.

(** *** Scheduling affinity *)

(** C5: the affinity of the pod has one source.  When the task run
    carries a (non-empty) affinity-assistant name, it is the pod
    affinity of [nodeAffinityUsingAffinityAssistant]: one required
    term that selects by exact labels (instance and component, no
    expressions) at host-level topology, with no node affinity and
    no anti-affinity, whatever the pod template declares.
    Otherwise it is the affinity of the pod template, unchanged. *)
Theorem Build_affinity_single_source ctx b taskSpec st pod st' :
  Build ctx b taskSpec st = (Ok pod, st') →
  let group := index (TaskRun.Annotations (taskRunObject st))
                     AnnotationAffinityAssistantName in
  let user := podtemplate.Template.Affinity
                (default podtemplate.Template.zero
                   (TaskRunSpec.PodTemplate (TaskRun.Spec (taskRunObject st)))) in
  (group ≠ "" →
     ∃ selector term,
       PodSpec.Affinity (Pod.Spec pod)
       = Some {| Affinity.NodeAffinity := None;
                 Affinity.PodAffinity := Some
                   {| PodAffinity.RequiredDuringSchedulingIgnoredDuringExecution
                        := [term];
                      PodAffinity.PreferredDuringSchedulingIgnoredDuringExecution
                        := [] |};
                 Affinity.PodAntiAffinity := None |}
       ∧ PodAffinityTerm.LabelSelector term = Some selector
       ∧ PodAffinityTerm.TopologyKey term = "kubernetes.io/hostname"
       ∧ LabelSelector.MatchExpressions selector = []
       ∧ LabelSelector.MatchLabels selector
         = <[LabelComponent := ComponentNameAffinityAssistant]>
             {[LabelInstance := group]}
       ∧ (LabelInstance ≠ LabelComponent →
          LabelSelector.MatchLabels selector !! LabelInstance = Some group)
       ∧ PodSpec.Affinity (Pod.Spec pod)
         = Some (nodeAffinityUsingAffinityAssistant group))
  ∧ (group = "" → PodSpec.Affinity (Pod.Spec pod) = user).
Proof.
  intros HB group user.
  apply Build_Ok in HB as (pre & ? & ? & _ & _ & _ & _ & _ & -> & _).
  fold group. fold user. simpl. split; intros Hg.
  - rewrite bool_decide_true by done.
    eexists _, _. split_and!; try reflexivity.
    intros Hne. simpl. rewrite lookup_insert_ne by done.
    apply lookup_insert_eq.
  - by rewrite bool_decide_false by (by intros ?).
Qed.

(** *** The hermetic flag *)

(** C10: [TEKTON_HERMETIC=1] is appended to the step containers
    exactly when the execution-mode annotation of the task run is
    [hermetic] and the alpha API fields are enabled; when either
    fails, the hermetic loop leaves every list of step containers as
    it is, and the environment of a step container of the pod is the
    implicit variables followed by its own. *)
Theorem Build_hermetic_only_when_requested_and_alpha
    ctx b taskSpec st pod st' pre i s :
  Build ctx b taskSpec st = (Ok pod, st') →
  prepare ctx b (taskRunObject st) taskSpec = Ok pre →
  stepContainers pre !! i = Some s →
  let requested :=
    index (TaskRun.Annotations (taskRunObject st)) ExecutionModeAnnotation
    = ExecutionModeHermetic in
  let alpha :=
    config.FeatureFlags.EnableAPIFields (config.Config.FeatureFlags_ ctx)
    = AlphaAPIFields in
  ∃ s',
    PodSpec.Containers (Pod.Spec pod) !! i = Some s'
    ∧ (requested ∧ alpha →
         Container.Env s'
         = implicitEnvVars pre ++ Container.Env s ++ [hermeticEnvVar])
    ∧ (¬ (requested ∧ alpha) →
         Container.Env s' = implicitEnvVars pre ++ Container.Env s
         ∧ ∀ containers,
             withHermeticEnvVar ctx (taskRunObject st) containers = containers).
Proof.
  intros HB Hp Hs requested alpha.
  eexists. split; [by eapply Build_step_container|]. simpl.
  unfold withHermeticEnvVar. fold (hermetic ctx (taskRunObject st)).
  assert (hermetic ctx (taskRunObject st) = true ↔ requested ∧ alpha) as Hh.
  { unfold hermetic, alphaAPIEnabled, config.FromContextOrDefaults.
    rewrite andb_true_iff, !bool_decide_eq_true. done. }
  destruct (hermetic ctx (taskRunObject st)).
  - split; [done|]. intros Hn. exfalso. apply Hn, Hh. done.
  - split; [intros Hc; apply Hh in Hc; done|].
    intros _. by rewrite app_nil_r.
Qed.

(** *** Implicit environment variables *)

Lemma effectiveValue_app env1 env2 name :
  effectiveValue (env1 ++ env2) name
  = match effectiveValue env2 name with
    | Some v => Some v
    | None => effectiveValue env1 name
    end.
Proof.
  unfold effectiveValue. rewrite filter_app, last_app.
  by destruct (last (filter _ env2)).
Qed.

(** C6, amended: in the environment of every step container of the
    pod the injected [HOME] default stands before all variables the
    step came with, so that a [HOME] of the step, standing later,
    is the one that counts; the injected [TEKTON_HERMETIC] stands
    after all of them and is the one that counts. *)
Theorem Build_env_order ctx b taskSpec st pod st' pre i s :
  Build ctx b taskSpec st = (Ok pod, st') →
  prepare ctx b (taskRunObject st) taskSpec = Ok pre →
  stepContainers pre !! i = Some s →
  ∃ s',
    PodSpec.Containers (Pod.Spec pod) !! i = Some s'
    ∧ Container.Env s'
      = (if OverrideHomeEnv b then [homeEnvVar] else [])
        ++ Container.Env s
        ++ (if hermetic ctx (taskRunObject st) then [hermeticEnvVar] else [])
    ∧ (∀ user, user ∈ Container.Env s →
         (OverrideHomeEnv b = true →
          precedes (Container.Env s') homeEnvVar user)
         ∧ (hermetic ctx (taskRunObject st) = true →
            precedes (Container.Env s') user hermeticEnvVar))
    ∧ (∀ v, effectiveValue (Container.Env s) "HOME" = Some v →
         effectiveValue (Container.Env s') "HOME" = Some v)
    ∧ (hermetic ctx (taskRunObject st) = true →
         effectiveValue (Container.Env s') TektonHermeticEnvVar = Some "1").
Proof.
  intros HB Hp Hs. eexists. split; [by eapply Build_step_container|].
  apply prepare_Ok in Hp as (Himp & _ & _). simpl. rewrite Himp.
  split_and!; [done| | |].
  - intros user [j Hj]%list_elem_of_lookup. split.
    + intros ->. exists 0%nat, (S j). split_and!; [lia|done|].
      simpl. rewrite lookup_app_l by (by eapply lookup_lt_Some). done.
    + intros ->. exists (length (if OverrideHomeEnv b then [homeEnvVar] else []) + j)%nat,
        (length (if OverrideHomeEnv b then [homeEnvVar] else [])
         + length (Container.Env s))%nat.
      pose proof (lookup_lt_Some _ _ _ Hj) as Hlt.
      split_and!; [lia| |].
      * rewrite lookup_app_r by lia. rewrite Nat.add_sub'.
        by rewrite lookup_app_l.
      * rewrite lookup_app_r by lia. rewrite Nat.add_sub'.
        rewrite lookup_app_r by lia. by rewrite Nat.sub_diag.
  - intros v Hv. rewrite !effectiveValue_app, Hv.
    by destruct (hermetic ctx (taskRunObject st)).
  - intros ->. by rewrite !effectiveValue_app.
Qed.

(** *** Implicit volume mounts *)

(** C7, amended: every step container of the pod carries its own
    mounts, then its credential mount when the helper provides one,
    then every mount to inject (the implicit ones first) whose
    cleaned path none of the former has; an implicit mount that is
    so shadowed is not added.  The credential volume of the step is
    among the volumes of the pod.  Sidecar containers keep the
    mounts they were delivered with. *)
Theorem Build_implicit_volume_mounts ctx b taskSpec st pod st' pre :
  Build ctx b taskSpec st = (Ok pod, st') →
  prepare ctx b (taskRunObject st) taskSpec = Ok pre →
  (∀ i s, stepContainers pre !! i = Some s →
     ∃ s',
       PodSpec.Containers (Pod.Spec pod) !! i = Some s'
       ∧ Container.VolumeMounts s'
         = declaredMounts ctx i s ++ addedMounts ctx pre i s
       ∧ (∀ imp, imp ∈ implicitVolumeMounts →
            (¬ shadowed (declaredMounts ctx i s) imp →
             imp ∈ addedMounts ctx pre i s)
            ∧ (shadowed (declaredMounts ctx i s) imp →
               imp ∉ addedMounts ctx pre i s))
       ∧ (∀ v, v ∈ credsVolume ctx i → v ∈ PodSpec.Volumes (Pod.Spec pod)))
  ∧ (∀ j sc, sidecarContainers pre !! j = Some sc →
       ∃ sc',
         PodSpec.Containers (Pod.Spec pod) !! (length (stepContainers pre) + j)%nat
         = Some sc'
         ∧ Container.VolumeMounts sc' = Container.VolumeMounts sc).
Proof.
  intros HB Hp. split.
  - intros i s Hs. eexists. split; [by eapply Build_step_container|].
    simpl. split_and!; [done| |].
    + intros imp Himp. unfold addedMounts. rewrite list_elem_of_filter.
      apply prepare_Ok in Hp as (_ & (credVMs & ->) & _).
      split; [|tauto]. intros Hn. split; [done|].
      apply elem_of_app. by left.
    + intros v Hv.
      apply Build_Ok in HB as (pre' & ? & ? & Hp' & _ & _ & _ & -> & _).
      rewrite Hp in Hp'. injection Hp' as <-.
      rewrite assembleSteps_volumes, !elem_of_app. left. left. right.
      apply list_elem_of_join. exists (credsVolume ctx i). split; [done|].
      by apply (elem_of_lookup_imap_2 (λ i _, credsVolume ctx i) _ s).
  - intros j sc Hsc. eexists.
    split; [by eapply Build_sidecar_container|done].
Qed.

(** *** Determinism and effects *)


End facts.
End pod_facts.
(** ** The theorems at the example inputs *)
Module pod_examples.
Import golang corev1 v1beta1 pod pod_facts fixture.
Local Existing Instance deps.

Ltac evaluate := vm_compute; reflexivity.

Lemma hermeticRun_built :
  Build (ctx "alpha") (builder true) taskSpec hermeticRun
  = (Ok hermeticPod, hermeticAfter).
Proof. evaluate. Qed.

Lemma hermeticRun_prepared :
  prepare (ctx "alpha") (builder true) (taskRunObject hermeticRun) taskSpec
  = Ok hermeticPrepared.
Proof. evaluate. Qed.

Lemma hermeticRun_steps :
  stepContainers hermeticPrepared = [stepOne; stepTwo]
  ∧ sidecarContainers hermeticPrepared = [helper].
Proof. split; evaluate. Qed.

Lemma assistedRun_built :
  Build (ctx "alpha") (builder true) taskSpec assistedRun
  = (Ok assistedPod, assistedAfter).
Proof. evaluate. Qed.

Lemma allZeroQty_zero : map_Forall (λ _ v, v = 0%Z) allZeroQty.
Proof.
  intros k v Hk. apply elem_of_list_to_map_2 in Hk.
  repeat (apply elem_of_cons in Hk as [[= _ <-]|Hk]; [done|]).
  by apply elem_of_nil in Hk.
Qed.

Lemma getLimitRangeMinimum_takes_maximum_witness :
  LimitRanges_List kubeclient "default" = Ok [limitRange 100; limitRange 250]
  ∧ map_Forall (λ _ v, v = 0%Z) allZeroQty
  ∧ requestOf stepOne "cpu" = 50%Z
  ∧ requestOf stepTwo "cpu" = 300%Z
  ∧ ∃ floor c1' c2',
      getLimitRangeMinimum (ctx "alpha") "default" kubeclient = Ok floor
      ∧ quantityOf floor "cpu" = 250%Z
      ∧ resolveResourceRequests [stepOne; stepTwo] floor = [c1'; c2']
      ∧ requestOf c1' "cpu" = 250%Z
      ∧ requestOf c2' "cpu" = 300%Z.
Proof.
  split; [reflexivity|]. split; [exact allZeroQty_zero|].
  split; [reflexivity|]. split; [reflexivity|].
  destruct (getLimitRangeMinimum_takes_maximum (ctx "alpha") "default"
              kubeclient [limitRange 100; limitRange 250]
              eq_refl allZeroQty_zero)
    as (floor & Hfloor & _ & H250 & _ & Hexample).
  destruct (Hexample "cpu" stepOne stepTwo (list_elem_of_here _ _)
              eq_refl eq_refl eq_refl)
    as (c1' & c2' & Hresolved & H1 & H2).
  exists floor, c1', c2'. split; [exact Hfloor|].
  split; [exact (H250 "cpu" eq_refl)|].
  split; [exact Hresolved|]. split; [exact H1|exact H2].
Defined.

(** C3, as stated, fails: applying the floor of 250m to a step that
    requests 50m and is the only step leaves its request at 50m: it
    is the largest requester. *)
Lemma lone_request_stays_below_floor :
  getLimitRangeMinimum (ctx "alpha") "default" kubeclient = Ok floor250
  ∧ quantityOf floor250 "cpu" = 250%Z
  ∧ requestOf stepOne "cpu" = 50%Z
  ∧ ∃ c',
      resolveResourceRequests [stepOne] floor250 = [c']
      ∧ requestOf c' "cpu" = 50%Z
      ∧ requestOf c' "cpu" ≠ 250%Z.
Proof.
  split; [evaluate|]. split; [evaluate|]. split; [evaluate|].
  eexists. split; [reflexivity|]. split; [evaluate|].
  vm_compute. discriminate.
Qed.

Lemma hungryRun_built :
  Build (ctx "alpha") (builder true) hungrySpec plainRun
  = (Ok hungryPod, hungryAfter).
Proof. evaluate. Qed.

Lemma hungryRun_prepared :
  prepare (ctx "alpha") (builder true) (taskRunObject plainRun) hungrySpec
  = Ok hungryPrepared.
Proof. evaluate. Qed.

(** C1, as stated, fails: of two steps that request 300m and 400m of
    CPU in a namespace whose floor is 250m, the first leaves [Build]
    with a request of 250m: its request is lowered. *)
Lemma Build_lowers_a_request :
  Build (ctx "alpha") (builder true) hungrySpec plainRun
  = (Ok hungryPod, hungryAfter)
  ∧ stepContainers hungryPrepared = [stepTwo; stepFour]
  ∧ quantityOf (limitRangeMin hungryPrepared) "cpu" = 250%Z
  ∧ requestOf stepTwo "cpu" = 300%Z
  ∧ requestOf stepFour "cpu" = 400%Z
  ∧ ∃ s' s'',
      PodSpec.Containers (Pod.Spec hungryPod) = [s'; s'']
      ∧ requestOf s' "cpu" = 250%Z
      ∧ requestOf s'' "cpu" = 400%Z
      ∧ (requestOf s' "cpu" < requestOf stepTwo "cpu")%Z
      ∧ requestOf s' "cpu" ≠ Z.max (requestOf stepTwo "cpu") 250.
Proof.
  split; [evaluate|]. split; [evaluate|]. split; [evaluate|].
  split; [evaluate|]. split; [evaluate|].
  eexists _, _. split; [reflexivity|]. split; [evaluate|].
  split; [evaluate|]. split; [vm_compute; reflexivity|].
  vm_compute. discriminate.
Qed.

Lemma stepFour_largest :
  largestRequester [stepTwo; stepFour] "cpu" 1.
Proof.
  apply scanMax_largestRequester. evaluate.
Qed.

Lemma stepTwo_not_largest :
  ¬ largestRequester [stepTwo; stepFour] "cpu" 0.
Proof.
  intros Hl. apply scanMax_largestRequester in Hl.
  vm_compute in Hl. discriminate.
Qed.

Lemma Build_requests_largest_or_floor_witness :
  Build (ctx "alpha") (builder true) hungrySpec plainRun
  = (Ok hungryPod, hungryAfter)
  ∧ prepare (ctx "alpha") (builder true) (taskRunObject plainRun) hungrySpec
    = Ok hungryPrepared
  ∧ map_Forall (λ _ v, v = 0%Z) allZeroQty
  ∧ stepContainers hungryPrepared !! 0%nat = Some stepTwo
  ∧ stepContainers hungryPrepared !! 1%nat = Some stepFour
  ∧ ∃ s' s'',
      PodSpec.Containers (Pod.Spec hungryPod) !! 0%nat = Some s'
      ∧ requestOf s' "cpu" = 250%Z
      ∧ PodSpec.Containers (Pod.Spec hungryPod) !! 1%nat = Some s''
      ∧ requestOf s'' "cpu" = 400%Z.
Proof.
  split; [exact hungryRun_built|]. split; [exact hungryRun_prepared|].
  split; [exact allZeroQty_zero|]. split; [reflexivity|]. split; [reflexivity|].
  destruct (Build_requests_largest_or_floor _ _ _ _ _ _ _ 0%nat stepTwo
              hungryRun_built hungryRun_prepared allZeroQty_zero eq_refl)
    as (s' & Hs' & _ & _ & Hfirst & _).
  destruct (Build_requests_largest_or_floor _ _ _ _ _ _ _ 1%nat stepFour
              hungryRun_built hungryRun_prepared allZeroQty_zero eq_refl)
    as (s'' & Hs'' & _ & _ & Hsecond & _).
  exists s', s''. split; [exact Hs'|].
  destruct (Hfirst "cpu" (list_elem_of_here _ _)) as [_ Hfloor].
  destruct (Hsecond "cpu" (list_elem_of_here _ _)) as [Hkeeps _].
  split; [rewrite (Hfloor stepTwo_not_largest); evaluate|].
  split; [exact Hs''|].
  rewrite (Hkeeps stepFour_largest). evaluate.
Defined.

(** In the first example the step that asks for 50m is raised to the
    floor and the one that asks for 300m, the largest requester,
    keeps its request. *)
Example Build_raises_request_below_floor :
  ∃ s' s'',
    PodSpec.Containers (Pod.Spec hermeticPod) !! 0%nat = Some s'
    ∧ requestOf stepOne "cpu" = 50%Z
    ∧ requestOf s' "cpu" = 250%Z
    ∧ PodSpec.Containers (Pod.Spec hermeticPod) !! 1%nat = Some s''
    ∧ requestOf stepTwo "cpu" = 300%Z
    ∧ requestOf s'' "cpu" = 300%Z.
Proof. eexists _, _. split_and!; evaluate. Qed.

Lemma Build_affinity_single_source_witness :
  Build (ctx "alpha") (builder true) taskSpec assistedRun
  = (Ok assistedPod, assistedAfter)
  ∧ index (TaskRun.Annotations (taskRunObject assistedRun))
          AnnotationAffinityAssistantName = "assistant-1"
  ∧ podtemplate.Template.Affinity template = Some userAffinity
  ∧ PodSpec.Affinity (Pod.Spec assistedPod)
    = Some (nodeAffinityUsingAffinityAssistant "assistant-1").
Proof.
  split; [exact assistedRun_built|]. split; [evaluate|]. split; [reflexivity|].
  destruct (Build_affinity_single_source _ _ _ _ _ _ assistedRun_built)
    as [Hgroup _].
  destruct Hgroup as (selector & term & _ & _ & _ & _ & _ & _ & Haff);
    [vm_compute; discriminate|].
  rewrite Haff. evaluate.
Defined.

(** Without an assistant the affinity of the template passes through. *)
Example Build_affinity_of_template :
  PodSpec.Affinity (Pod.Spec hermeticPod) = Some userAffinity.
Proof. evaluate. Qed.

Lemma Build_hermetic_only_when_requested_and_alpha_witness :
  Build (ctx "alpha") (builder true) taskSpec hermeticRun
  = (Ok hermeticPod, hermeticAfter)
  ∧ prepare (ctx "alpha") (builder true) (taskRunObject hermeticRun) taskSpec
    = Ok hermeticPrepared
  ∧ stepContainers hermeticPrepared !! 1%nat = Some stepTwo
  ∧ ∃ s',
      PodSpec.Containers (Pod.Spec hermeticPod) !! 1%nat = Some s'
      ∧ Container.Env s' = [homeEnvVar; hermeticEnvVar].
Proof.
  split; [exact hermeticRun_built|]. split; [exact hermeticRun_prepared|].
  split; [reflexivity|].
  destruct (Build_hermetic_only_when_requested_and_alpha
              _ _ _ _ _ _ _ 1%nat stepTwo
              hermeticRun_built hermeticRun_prepared eq_refl)
    as (s' & Hs' & Hon & _).
  exists s'. split; [exact Hs'|].
  rewrite Hon; [evaluate|]. split; evaluate.
Defined.

(** The same task run without the alpha API: no hermetic flag. *)
Example Build_not_hermetic_without_alpha :
  ∃ pod st' s',
    Build (ctx "stable") (builder true) taskSpec hermeticRun = (Ok pod, st')
    ∧ PodSpec.Containers (Pod.Spec pod) !! 1%nat = Some s'
    ∧ Container.Env s' = [homeEnvVar].
Proof. eexists _, _, _. split_and!; evaluate. Qed.

(** C6, as stated, fails: the step declares its own [HOME], and in
    the environment of its container the injected default stands
    first and the declared one after it, not before. *)
Lemma Build_injected_HOME_stands_first :
  ∃ c,
    Build (ctx "alpha") (builder true) taskSpec hermeticRun
    = (Ok hermeticPod, hermeticAfter)
    ∧ userHome ∈ Container.Env stepOne
    ∧ PodSpec.Containers (Pod.Spec hermeticPod) !! 0%nat = Some c
    ∧ Container.Env c
      = [ homeEnvVar; userHome;
          {| EnvVar.Name := "TEKTON_HERMETIC"; EnvVar.Value := "0" |};
          hermeticEnvVar ]
    ∧ precedes (Container.Env c) homeEnvVar userHome
    ∧ ¬ precedes (Container.Env c) userHome homeEnvVar.
Proof.
  eexists. split; [exact hermeticRun_built|].
  split; [apply list_elem_of_here|].
  split; [evaluate|]. split; [evaluate|]. split.
  - exists 0%nat, 1%nat. split_and!; [lia|evaluate..].
  - intros (i & j & Hlt & Hi & Hj). vm_compute in Hi, Hj.
    destruct i as [|[|[|[|i]]]]; try discriminate Hi.
    destruct j as [|[|[|[|j]]]]; try discriminate Hj. lia.
Qed.

Lemma Build_env_order_witness :
  Build (ctx "alpha") (builder true) taskSpec hermeticRun
  = (Ok hermeticPod, hermeticAfter)
  ∧ prepare (ctx "alpha") (builder true) (taskRunObject hermeticRun) taskSpec
    = Ok hermeticPrepared
  ∧ stepContainers hermeticPrepared !! 0%nat = Some stepOne
  ∧ effectiveValue (Container.Env stepOne) "HOME" = Some "/user"
  ∧ ∃ s',
      PodSpec.Containers (Pod.Spec hermeticPod) !! 0%nat = Some s'
      ∧ effectiveValue (Container.Env s') "HOME" = Some "/user"
      ∧ effectiveValue (Container.Env s') "TEKTON_HERMETIC" = Some "1".
Proof.
  assert (effectiveValue (Container.Env stepOne) "HOME" = Some "/user") as Hv
    by evaluate.
  split; [exact hermeticRun_built|]. split; [exact hermeticRun_prepared|].
  split; [reflexivity|]. split; [exact Hv|].
  destruct (Build_env_order _ _ _ _ _ _ _ 0%nat stepOne
              hermeticRun_built hermeticRun_prepared eq_refl)
    as (s' & Hs' & _ & _ & Hhome & Hhermetic).
  exists s'. split; [exact Hs'|].
  split; [exact (Hhome _ Hv)|apply Hhermetic; evaluate].
Defined.

(** C7, as stated, fails: the sidecar declares no mount at all, and
    its container in the pod has none of the implicit mounts. *)
Lemma Build_sidecar_gets_no_implicit_mount :
  ∃ sc,
    Build (ctx "alpha") (builder true) taskSpec hermeticRun
    = (Ok hermeticPod, hermeticAfter)
    ∧ Container.VolumeMounts helper = []
    ∧ PodSpec.Containers (Pod.Spec hermeticPod) !! 2%nat = Some sc
    ∧ Container.Name sc = "sidecar-helper"
    ∧ Container.VolumeMounts sc = []
    ∧ ∀ imp, imp ∈ implicitVolumeMounts → imp ∉ Container.VolumeMounts sc.
Proof.
  eexists. split; [exact hermeticRun_built|]. split; [reflexivity|].
  split; [evaluate|]. split; [evaluate|]. split; [evaluate|].
  intros imp _. simpl. apply not_elem_of_nil.
Qed.

Lemma Build_implicit_volume_mounts_witness :
  Build (ctx "alpha") (builder true) taskSpec hermeticRun
  = (Ok hermeticPod, hermeticAfter)
  ∧ prepare (ctx "alpha") (builder true) (taskRunObject hermeticRun) taskSpec
    = Ok hermeticPrepared
  ∧ VolumeMount.MountPath <$> Container.VolumeMounts stepOne = ["/tekton/home/"]
  ∧ ∃ s' sc',
      PodSpec.Containers (Pod.Spec hermeticPod) !! 0%nat = Some s'
      ∧ VolumeMount.MountPath <$> Container.VolumeMounts s'
        = ["/tekton/home/"; "/tekton/creds"; "/workspace";
           "/tekton/results"; "/tekton/steps"]
      ∧ PodSpec.Containers (Pod.Spec hermeticPod) !! 2%nat = Some sc'
      ∧ Container.VolumeMounts sc' = [].
Proof.
  split; [exact hermeticRun_built|]. split; [exact hermeticRun_prepared|].
  split; [reflexivity|].
  destruct (Build_implicit_volume_mounts _ _ _ _ _ _ _
              hermeticRun_built hermeticRun_prepared) as [Hsteps Hsidecars].
  destruct (Hsteps 0%nat stepOne eq_refl) as (s' & Hs' & Hmounts & _).
  destruct (Hsidecars 0%nat helper eq_refl) as (sc' & Hsc' & Hsame).
  exists s', sc'. split; [exact Hs'|]. split; [rewrite Hmounts; evaluate|].
  split; [exact Hsc'|]. rewrite Hsame. reflexivity.
Defined.



End pod_examples.

(** ** More on reference matching *)
Module references_facts.
Import regexp types regexp_facts types_facts references.

Lemma matches_star_class ranges u :
  matches (OpStar (OpCharClass ranges)) u ↔ Forall (λ c, in_class ranges c = true) u.
Proof.
  split.
  - remember (OpStar (OpCharClass ranges)) as r eqn:Hr. intros Hm.
    induction Hm as [| | | | | |r' u v Hu _ _ IHv| | |]; try discriminate Hr.
    + constructor.
    + injection Hr as ->. apply Forall_app. split; [|by apply IHv].
      inversion Hu; subst. by repeat constructor.
  - induction 1 as [|c u Hc _ IH]; [constructor|].
    apply (matches_star_cons _ [c] u); [by constructor|done].
Qed.

Lemma matches_plus_class ranges u :
  matches (OpPlus (OpCharClass ranges)) u
  ↔ u ≠ [] ∧ Forall (λ c, in_class ranges c = true) u.
Proof.
  split.
  - inversion 1 as [| | | | | | |r' u1 u2 H1 H2| |]; subst.
    inversion H1; subst. apply matches_star_class in H2.
    split; [done|]. by constructor.
  - intros [Hne Hall]. destruct u as [|c u]; [done|].
    apply Forall_cons in Hall as [Hc Hall].
    apply (matches_plus _ [c] u); [by constructor|by apply matches_star_class].
Qed.

(** The dotted group of the pattern only repeats what the class of the
    first group holds already. *)
Lemma matches_dotted_group u :
  matches (OpStar (OpConcat (OpLiteral ".") (OpPlus nameChars))) u →
  Forall isNameChar u.
Proof.
  remember (OpStar (OpConcat (OpLiteral ".") (OpPlus nameChars))) as r eqn:Hr.
  intros Hm.
  induction Hm as [| | | | | |r' u v Hu _ _ IHv| | |]; try discriminate Hr.
  - constructor.
  - injection Hr as ->. apply Forall_app. split; [|by apply IHv].
    inversion Hu as [| |r1 r2 u1 u2 H1 H2| | | | | | |]; subst.
    inversion H1; subst. apply matches_plus_class in H2 as [_ H2].
    constructor; [reflexivity|exact H2].
Qed.

Lemma matches_index u :
  matches (OpQuest (OpConcat (OpLiteral "[")
             (OpConcat (OpAlternate (OpPlus digits) (OpLiteral "*"))
                       (OpLiteral "]")))) u
  ↔ isIndex u.
Proof.
  split.
  - inversion 1 as [| | | | | | | |r'|r' u' Hu]; subst; [constructor|].
    inversion Hu as [| |r1 r2 u1 u2 H1 H2| | | | | | |]; subst.
    inversion H1; subst.
    inversion H2 as [| |r1 r2 u3 u4 H3 H4| | | | | | |]; subst.
    inversion H4; subst.
    inversion H3 as [| | |r1 r2 u5 H5|r1 r2 u5 H5| | | | |]; subst.
    + apply matches_plus_class in H5 as [Hne Hall]. by constructor.
    + inversion H5; subst. constructor.
  - intros [| |ds Hne Hall].
    + constructor.
    + apply matches_quest_some.
      apply (matches_concat _ _ (String.list_ascii_of_string "[")
                                (String.list_ascii_of_string "*]")); [constructor|].
      apply (matches_concat _ _ (String.list_ascii_of_string "*")
                                (String.list_ascii_of_string "]")); [|constructor].
      apply matches_alt_r. constructor.
    + apply matches_quest_some.
      apply (matches_concat _ _ (String.list_ascii_of_string "[")
                                (ds ++ String.list_ascii_of_string "]")); [constructor|].
      apply matches_concat; [|constructor].
      apply matches_alt_l. by apply matches_plus_class.
Qed.

(** Whatever the pattern matches is a reference. *)
Lemma matches_isReference m :
  matches VariableSubstitutionRegex m → isReference m.
Proof.
  intros Hm. unfold VariableSubstitutionRegex in Hm.
  inversion Hm as [| |r1 r2 u1 v1 H1 Hm1| | | | | | |]; subst.
  inversion H1; subst.
  inversion Hm1 as [| |r1 r2 u2 v2 H2 Hm2| | | | | | |]; subst.
  inversion H2; subst.
  inversion Hm2 as [| |r1 r2 u3 v3 H3 Hm3| | | | | | |]; subst.
  inversion Hm3 as [| |r1 r2 u4 v4 H4 Hm4| | | | | | |]; subst.
  inversion Hm4 as [| |r1 r2 u5 v5 H5 Hm5| | | | | | |]; subst.
  inversion Hm5; subst.
  apply matches_plus_class in H3 as [Hne H3].
  apply matches_dotted_group in H4. apply matches_index in H5.
  exists (u3 ++ u4), u5. split_and!.
  - simpl. by rewrite <- !app_assoc.
  - destruct u3; [done|]. done.
  - apply Forall_app. by split.
  - done.
Qed.

(** X1: the language of [variableSubstitutionFormat], spelled out: the
    group of dotted segments adds nothing to the first run of name
    characters. *)
Theorem VariableSubstitutionRegex_language m :
  matches VariableSubstitutionRegex m ↔ isReference m.
Proof.
  split; [apply matches_isReference|].
  - intros (name & idx & -> & Hne & Hall & Hidx).
    unfold VariableSubstitutionRegex. simpl.
    apply (matches_concat _ _ (String.list_ascii_of_string "$")); [constructor|].
    apply (matches_concat _ _ (String.list_ascii_of_string "(")); [constructor|].
    rewrite <- app_assoc.
    apply matches_concat; [by apply matches_plus_class|].
    apply (matches_concat _ _ []); [constructor|].
    apply matches_concat; [by apply matches_index|constructor].
Qed.


(** *** Stripping the delimiters *)

Lemma list_ascii_of_string_app a b :
  String.list_ascii_of_string (a +:+ b)
  = String.list_ascii_of_string a ++ String.list_ascii_of_string b.
Proof. induction a as [|c a IH]; simpl; [done|]. by rewrite IH. Qed.

Lemma length_list_ascii_of_string a :
  length (String.list_ascii_of_string a) = String.length a.
Proof. induction a as [|c a IH]; simpl; [done|]. by rewrite IH. Qed.

Lemma TrimPrefix_app prefix s : golang.TrimPrefix (prefix ++ s) prefix = s.
Proof.
  unfold golang.TrimPrefix.
  rewrite take_app_length, bool_decide_true by done. by rewrite drop_app_length.
Qed.

Lemma TrimSuffix_app s suffix : golang.TrimSuffix (s ++ suffix) suffix = s.
Proof.
  unfold golang.TrimSuffix. rewrite length_app, Nat.add_sub.
  rewrite drop_app_length, take_app_length.
  rewrite bool_decide_true; [done|]. split; [done|lia].
Qed.

Lemma TrimPrefix_other s prefix :
  take (length prefix) s ≠ prefix → golang.TrimPrefix s prefix = s.
Proof. intros Hne. unfold golang.TrimPrefix. by rewrite bool_decide_false. Qed.

Lemma TrimSuffix_other s suffix :
  drop (length s - length suffix) s ≠ suffix → golang.TrimSuffix s suffix = s.
Proof.
  intros Hne. unfold golang.TrimSuffix.
  rewrite bool_decide_false; [done|]. by intros [? _].
Qed.

(** X2: [stripVarSubExpression] undoes the wrapping of a body in [$(] and
    [)], whatever the body; an expression that neither starts with [$(]
    nor ends with [)] is returned as it is. *)
Theorem stripVarSubExpression_round_trip :
  (∀ body, stripVarSubExpression ("$(" +:+ body +:+ ")") = body)
  ∧ (∀ expression,
       take 2 (String.list_ascii_of_string expression)
         ≠ String.list_ascii_of_string "$(" →
       last (String.list_ascii_of_string expression) ≠ Some ")"%char →
       stripVarSubExpression expression = expression).
Proof.
  split.
  - intros body. unfold stripVarSubExpression.
    rewrite !list_ascii_of_string_app, TrimPrefix_app, TrimSuffix_app.
    apply String.string_of_list_ascii_of_string.
  - intros expression Hprefix Hsuffix. unfold stripVarSubExpression.
    rewrite TrimPrefix_other by done. rewrite TrimSuffix_other.
    + apply String.string_of_list_ascii_of_string.
    + intros Heq. apply Hsuffix.
      rewrite <- (take_drop (length (String.list_ascii_of_string expression)
                             - length (String.list_ascii_of_string ")"))
                            (String.list_ascii_of_string expression)).
      rewrite Heq. apply last_snoc.
Qed.

(** *** What [FindAllString] delivers *)

(** Where the pattern matches no empty text, the text [doExecute] skips
    holds no match. *)
Lemma doExecute_skipped re s sk m rest :
  ¬ matches re [] →
  doExecute re s = Some (sk, m, rest) → ¬ has_match re sk.
Proof.
  intros Hne. revert sk. induction s as [|c t IH]; intros sk; simpl.
  - destruct (backtrack re []) as [|r l] eqn:E; [done|].
    intros [= <- <- <-] (b & u & a & Hs & Hu).
    symmetry in Hs. apply app_eq_nil in Hs as [_ [-> _]%app_eq_nil]. done.
  - destruct (backtrack re (c :: t)) as [|r l] eqn:E.
    + destruct (doExecute re t) as [[[sk' m'] rest']|] eqn:Et; [|done].
      intros [= <- <- <-] (b & u & a & Hs & Hu).
      destruct (doExecute_Some _ _ _ _ _ Et) as [Ht _].
      destruct b as [|c' b]; simpl in Hs.
      * pose proof (backtrack_complete _ _ Hu (a ++ m' ++ rest')) as Hin.
        replace (u ++ a ++ m' ++ rest') with (c :: t) in Hin
          by (by rewrite Ht, (app_assoc u a), <- Hs).
        rewrite E in Hin. by apply elem_of_nil in Hin.
      * injection Hs as -> ->. apply (IH _ eq_refl). by exists b, u, a.
    + intros [= <- <- <-] (b & u & a & Hs & Hu).
      symmetry in Hs. apply app_eq_nil in Hs as [_ [-> _]%app_eq_nil]. done.
Qed.

(** Where the pattern matches no empty text, [allMatches] with enough
    fuel scans the text. *)
Lemma allMatches_scanned re :
  ¬ matches re [] →
  ∀ fuel atPrevEnd s, (length s < fuel)%nat →
    scanned re s (allMatches re fuel atPrevEnd s).
Proof.
  intros Hne. induction fuel as [|n IH]; intros atPrevEnd s Hlen; [lia|].
  simpl. destruct (doExecute re s) as [[[sk m] rest]|] eqn:E.
  - pose proof (doExecute_skipped _ _ _ _ _ Hne E) as Hsk.
    destruct (doExecute_Some _ _ _ _ _ E) as [Hs Hm].
    assert (m ≠ []) as Hm' by (by intros ->).
    assert (length rest < n)%nat as Hrest.
    { apply (f_equal length) in Hs. rewrite !length_app in Hs.
      destruct m; [done|]. simpl in Hs. lia. }
    destruct sk as [|c sk]; [destruct m as [|c m]; [done|]|];
      rewrite Hs; apply scanned_match; auto.
  - apply scanned_done. by apply doExecute_None.
Qed.

Lemma VariableSubstitutionRegex_not_empty : ¬ matches VariableSubstitutionRegex [].
Proof.
  intros (name & idx & Hm & _)%matches_isReference. done.
Qed.

Lemma validateString_elems value :
  golang.elems (validateString value)
  = (λ m, stripVarSubExpression (String.string_of_list_ascii m))
      <$> allMatches VariableSubstitutionRegex (S (String.length value)) false
                     (String.list_ascii_of_string value).
Proof.
  unfold validateString, FindAllString.
  destruct (allMatches _ _ _ _) as [|m ms]; [done|].
  simpl. unfold golang.append at 2. simpl.
  rewrite foldl_append_Some. simpl. by rewrite <- list_fmap_compose.
Qed.


Lemma stripVarSubExpression_wrapped body :
  stripVarSubExpression
    (String.string_of_list_ascii
       (String.list_ascii_of_string "$(" ++ body ++ String.list_ascii_of_string ")"))
  = String.string_of_list_ascii body.
Proof.
  unfold stripVarSubExpression.
  by rewrite String.list_ascii_of_string_of_list_ascii, TrimPrefix_app, TrimSuffix_app.
Qed.

Lemma scanned_matches re s ms : scanned re s ms → Forall (matches re) ms.
Proof. induction 1; by constructor. Qed.

(** A text the matcher accepts as a whole is in the language. *)
Lemma accepted_matches re s : [] ∈ backtrack re s → matches re s.
Proof.
  intros (u & Hs & Hu)%backtrack_sound. rewrite app_nil_r in Hs. by subst.
Qed.

(** X3: [validateString] scans the text for references: the bodies it
    returns are, in this order, the bodies of references that stand in
    the text one after the other without overlap, and the text before,
    between and after these references holds no reference. *)
Theorem validateString_scans value :
  ∃ ms,
    scanned VariableSubstitutionRegex (String.list_ascii_of_string value) ms
    ∧ Forall isReference ms
    ∧ Forall2 (λ m body, m = String.list_ascii_of_string ("$(" +:+ body +:+ ")"))
              ms (golang.elems (validateString value)).
Proof.
  exists (allMatches VariableSubstitutionRegex (S (String.length value)) false
                     (String.list_ascii_of_string value)).
  assert (scanned VariableSubstitutionRegex (String.list_ascii_of_string value)
            (allMatches VariableSubstitutionRegex (S (String.length value)) false
                        (String.list_ascii_of_string value))) as Hscan.
  { apply allMatches_scanned; [apply VariableSubstitutionRegex_not_empty|].
    rewrite length_list_ascii_of_string. lia. }
  pose proof (scanned_matches _ _ _ Hscan) as Hall.
  split; [exact Hscan|]. split.
  - eapply Forall_impl; [exact Hall|]. apply matches_isReference.
  - rewrite validateString_elems. apply Forall2_fmap_r, Forall_Forall2_diag.
    eapply Forall_impl; [exact Hall|]. intros m Hm. simpl.
    apply matches_isReference in Hm as (name & idx & -> & _).
    rewrite stripVarSubExpression_wrapped, !list_ascii_of_string_app.
    by rewrite String.list_ascii_of_string_of_list_ascii.
Qed.

(** X4: a text that contains a reference never yields the nil slice, nor an
    empty one: [validateString] returns at least one body. *)
Theorem validateString_finds_reference value :
  contains_reference value →
  ∃ body bodies, validateString value = Some (body :: bodies).
Proof.
  intros Href. unfold validateString, FindAllString.
  destruct (allMatches _ _ _ _) as [|m ms] eqn:E.
  - exfalso. revert Href. apply FindAllString_nil.
    unfold FindAllString. by rewrite E.
  - simpl. unfold golang.append at 2. simpl. rewrite foldl_append_Some.
    simpl. by eexists _, _.
Qed.

Lemma validateString_finds_reference_witness :
  contains_reference "see $(params.name)"
  ∧ validateString "see $(params.name)" = Some ["params.name"].
Proof.
  assert (contains_reference "see $(params.name)") as Href.
  { exists (String.list_ascii_of_string "see "),
           (String.list_ascii_of_string "$(params.name)"), [].
    split; [reflexivity|]. apply accepted_matches. vm_compute. left. }
  split; [exact Href|].
  destruct (validateString_finds_reference _ Href) as (body & bodies & Hv).
  rewrite Hv. vm_compute in Hv. congruence.
Defined.

End references_facts.

(** ** More on the pod builder *)
Module pod_more_facts.
Import golang corev1 v1beta1 pod pod_facts pod_vocabulary.

Section facts.
Context `{Deps}.

(** *** Labels *)

Lemma map_fold_copy (m : gmap string string) :
  map_fold (λ k v labels, <[k:=v]> labels) ∅ m = m.
Proof.
  apply (map_fold_weak_ind (λ r m, r = m)); [done|].
  intros i x m' r _ ->. done.
Qed.

Lemma makeLabels_insert (s : TaskRun.t) :
  makeLabels s = <[TaskRunLabelKey := TaskRun.Name s]> (TaskRun.Labels s).
Proof. unfold makeLabels. by rewrite map_fold_copy. Qed.

(** X5: [makeLabels] copies every label of the task run and then sets the
    task-run label to the name of the task run: a label of that key on
    the task run is overridden, every other label passes through, and
    nothing else is added, so that the result has at most one entry
    more than the labels of the task run (the capacity it is made
    with), and exactly as many when the task run already had that
    label. *)
Theorem makeLabels_lookup (s : TaskRun.t) :
  (∀ k, makeLabels s !! k
        = if bool_decide (k = TaskRunLabelKey) then Some (TaskRun.Name s)
          else TaskRun.Labels s !! k)
  ∧ dom (makeLabels s) = {[TaskRunLabelKey]} ∪ dom (TaskRun.Labels s)
  ∧ size (makeLabels s)
    = (if TaskRun.Labels s !! TaskRunLabelKey is Some _
       then size (TaskRun.Labels s) else S (size (TaskRun.Labels s))).
Proof.
  rewrite makeLabels_insert. split_and!.
  - intros k. case_bool_decide as Hk.
    + subst k. apply lookup_insert_eq.
    + by rewrite lookup_insert_ne.
  - apply dom_insert_L.
  - rewrite map_size_insert.
    by destruct (TaskRun.Labels s !! TaskRunLabelKey).
Qed.

(** *** The namespace minimum *)

Lemma foldl_max_ge (l : list Z) a : (a ≤ foldl Z.max a l)%Z.
Proof.
  revert a. induction l as [|x l IH]; intros a; simpl; [lia|].
  specialize (IH (Z.max a x)). lia.
Qed.

Lemma foldl_max_elem (l : list Z) a x : x ∈ l → (x ≤ foldl Z.max a l)%Z.
Proof.
  revert a. induction l as [|y l IH]; intros a; [by intros ?%elem_of_nil|].
  intros [->|Hx]%elem_of_cons; simpl.
  - pose proof (foldl_max_ge l (Z.max a y)). lia.
  - by apply IH.
Qed.

Lemma foldl_max_attained (l : list Z) a :
  foldl Z.max a l = a ∨ foldl Z.max a l ∈ l.
Proof.
  revert a. induction l as [|y l IH]; intros a; simpl; [by left|].
  destruct (IH (Z.max a y)) as [->|Hin].
  - destruct (Z.max_spec a y) as [[_ ->]|[_ ->]]; [right; left|by left].
  - right. by right.
Qed.

Lemma foldl_max_perm (l1 l2 : list Z) a :
  l1 ≡ₚ l2 → foldl Z.max a l1 = foldl Z.max a l2.
Proof.
  intros Hperm. revert a.
  induction Hperm as [|x l1 l2 _ IH|x y l|l1 l2 l3 _ IH1 _ IH2]; intros a; simpl.
  - done.
  - apply IH.
  - f_equal. lia.
  - by rewrite IH1.
Qed.

(** X6: the minimum that [getLimitRangeMinimum] resolves satisfies every
    declaration: for each resource it is at least the initial quantity
    and at least every minimum a container-type item declares, and it
    is one of these quantities. *)
Theorem getLimitRangeMinimum_dominates ctx namespace kubeclient limitRanges floor k :
  LimitRanges_List kubeclient namespace = Ok limitRanges →
  getLimitRangeMinimum ctx namespace kubeclient = Ok floor →
  (quantityOf allZeroQty k ≤ quantityOf floor k)%Z
  ∧ (∀ v, v ∈ declaredMinimums k limitRanges → (v ≤ quantityOf floor k)%Z)
  ∧ (quantityOf floor k = quantityOf allZeroQty k
     ∨ quantityOf floor k ∈ declaredMinimums k limitRanges).
Proof.
  intros HList. unfold getLimitRangeMinimum. rewrite HList. intros [= <-].
  rewrite quantityOf_scan. split_and!.
  - apply foldl_max_ge.
  - intros v Hv. by apply foldl_max_elem.
  - apply foldl_max_attained.
Qed.

Lemma declaredMinimums_perm k lrs1 lrs2 :
  lrs1 ≡ₚ lrs2 → declaredMinimums k lrs1 ≡ₚ declaredMinimums k lrs2.
Proof. intros Hperm. unfold declaredMinimums. by rewrite Hperm. Qed.

(** X7: the order in which the namespace lists its limit ranges does not
    matter: two listings that are permutations of each other resolve to
    the same quantity for every resource. *)
Theorem getLimitRangeMinimum_order_independent
    ctx namespace kubeclient1 kubeclient2 limitRanges1 limitRanges2 floor1 floor2 k :
  LimitRanges_List kubeclient1 namespace = Ok limitRanges1 →
  LimitRanges_List kubeclient2 namespace = Ok limitRanges2 →
  limitRanges1 ≡ₚ limitRanges2 →
  getLimitRangeMinimum ctx namespace kubeclient1 = Ok floor1 →
  getLimitRangeMinimum ctx namespace kubeclient2 = Ok floor2 →
  quantityOf floor1 k = quantityOf floor2 k.
Proof.
  intros HList1 HList2 Hperm. unfold getLimitRangeMinimum.
  rewrite HList1, HList2. intros [= <-] [= <-].
  rewrite !quantityOf_scan. apply foldl_max_perm.
  by apply declaredMinimums_perm.
Qed.

Lemma raiseMin_not_above k v (min : ResourceList) :
  (v ≤ quantityOf min k)%Z → raiseMin k v min = min.
Proof. intros Hle. unfold raiseMin. rewrite bool_decide_false; [done|lia]. Qed.

Lemma map_fold_raiseMin_not_above (m min : ResourceList) :
  (∀ k v, m !! k = Some v → (v ≤ quantityOf min k)%Z) →
  map_fold raiseMin min m = min.
Proof.
  revert m. apply (map_fold_weak_ind
    (λ r m, (∀ k v, m !! k = Some v → (v ≤ quantityOf min k)%Z) → r = min)).
  - done.
  - intros i x m' r Hi IH Hle.
    rewrite IH.
    + apply raiseMin_not_above, Hle. apply lookup_insert_eq.
    + intros k v Hk. apply Hle. rewrite lookup_insert_ne; [done|].
      intros ->. by rewrite Hi in Hk.
Qed.

Lemma scanItem_not_above min lrItem :
  (∀ k v, v ∈ declaredMinimums k [ {| LimitRange.Limits := [lrItem] |} ] →
          (v ≤ quantityOf min k)%Z) →
  scanItem min lrItem = min.
Proof.
  unfold scanItem, declaredMinimums. simpl. intros Hle.
  case_bool_decide; [|done].
  destruct (LimitRangeItem.Min lrItem) as [m|]; [|done].
  apply map_fold_raiseMin_not_above. intros k v Hk.
  apply Hle. simpl. rewrite Hk. simpl. left.
Qed.

(** X8: when no container-type item declares a minimum above the initial
    quantity of its resource (in particular when the namespace has no
    limit range, or only items of other types, or items without
    [Min]), the result is the initial map itself: no key is added. *)
Theorem getLimitRangeMinimum_nothing_to_raise ctx namespace kubeclient limitRanges :
  LimitRanges_List kubeclient namespace = Ok limitRanges →
  (∀ k v, v ∈ declaredMinimums k limitRanges → (v ≤ quantityOf allZeroQty k)%Z) →
  getLimitRangeMinimum ctx namespace kubeclient = Ok allZeroQty.
Proof.
  intros HList Hle. unfold getLimitRangeMinimum. rewrite HList. f_equal.
  generalize allZeroQty Hle. clear HList Hle.
  induction limitRanges as [|[items] lrs IH]; intros min Hle; [done|].
  simpl.
  assert (foldl scanItem min items = min) as ->.
  { assert (∀ k v, v ∈ declaredMinimums k [ {| LimitRange.Limits := items |} ] →
                   (v ≤ quantityOf min k)%Z) as Hitems.
    { intros k v Hv. apply Hle. rewrite declaredMinimums_cons.
      apply elem_of_app. by left. }
    clear Hle IH. induction items as [|it items IHi]; [done|]. simpl.
    rewrite scanItem_not_above.
    - apply IHi. intros k v Hv. apply Hitems.
      rewrite declaredMinimums_item. apply elem_of_app. by right.
    - intros k v Hv. apply Hitems.
      rewrite declaredMinimums_item. apply elem_of_app. by left. }
  apply IH. intros k v Hv. apply Hle. rewrite declaredMinimums_cons.
  apply elem_of_app. by right.
Qed.


(** *** The outcomes of [Build] *)

(** [Build], case by case: what the first part returns, then the
    validation of the volumes, the release version, and the write to
    the annotation map. *)
Lemma Build_cases ctx b taskSpec st :
  match prepare ctx b (taskRunObject st) taskSpec with
  | Err e => Build ctx b taskSpec st = (Err e, st)
  | Panic msg => Build ctx b taskSpec st = (Panic msg, st)
  | Ok pre =>
      match ValidateVolumes (podVolumes ctx taskSpec (taskRunObject st) pre) with
      | Some e => Build ctx b taskSpec st = (Err e, st)
      | None =>
          match changeset_Get with
          | Err e => Build ctx b taskSpec st = (Err e, st)
          | Panic msg => Build ctx b taskSpec st = (Panic msg, st)
          | Ok version =>
              match TaskRun.Annotations (taskRunObject st) with
              | None =>
                  Build ctx b taskSpec st
                  = (Panic "assignment to entry in nil map", st)
              | Some annotations =>
                  ∃ pod st', Build ctx b taskSpec st = (Ok pod, st')
              end
          end
      end
  end.
Proof.
  unfold Build, bind, lift, deref, ret, generateName, setAnnotation,
    podVolumes, templateOf.
  destruct st as [tr r]. simpl.
  destruct (prepare ctx b tr taskSpec) as [pre| |]; [|done..].
  destruct (assembleSteps ctx tr pre) as [vols steps]. simpl.
  assert (match TaskRunSpec.PodTemplate (TaskRun.Spec tr) with
          | Some t => t
          | None => podtemplate.Template.zero
          end = default podtemplate.Template.zero
                  (TaskRunSpec.PodTemplate (TaskRun.Spec tr))) as Ht
    by (by destruct (TaskRunSpec.PodTemplate (TaskRun.Spec tr))).
  rewrite Ht.
  destruct (ValidateVolumes _) as [err|]; [done|].
  destruct changeset_Get as [version| |]; [|done..].
  destruct (TaskRun.Annotations tr) as [annotations|] eqn:Ha; simpl;
    rewrite ?Ha; simpl; [|done].
  destruct (shouldAddReadyAnnotationOnPodCreate _ _); simpl;
    destruct (RestrictLengthWithRandomSuffix _ r) as [name r'];
    by eexists _, _.
Qed.

(** X9: [Build] returns a pod exactly when its first part succeeds, the
    volumes validate, the release version is known and the annotation
    map of the task run is not nil. *)
Theorem Build_succeeds_iff ctx b taskSpec st :
  (∃ pod st', Build ctx b taskSpec st = (Ok pod, st'))
  ↔ ∃ pre version annotations,
      prepare ctx b (taskRunObject st) taskSpec = Ok pre
      ∧ ValidateVolumes (podVolumes ctx taskSpec (taskRunObject st) pre) = None
      ∧ changeset_Get = Ok version
      ∧ TaskRun.Annotations (taskRunObject st) = Some annotations.
Proof.
  pose proof (Build_cases ctx b taskSpec st) as Hc.
  destruct (prepare ctx b (taskRunObject st) taskSpec) as [pre| |].
  - destruct (ValidateVolumes _) as [err|] eqn:Hv.
    + split; [intros (? & ? & HB); congruence|].
      intros (pre' & ? & ? & [= <-] & Hv' & _). congruence.
    + destruct changeset_Get as [version| |].
      * destruct (TaskRun.Annotations (taskRunObject st)) as [annotations|].
        -- split; [|done]. intros _. by exists pre, version, annotations.
        -- split; [intros (? & ? & HB); congruence|].
           intros (? & ? & ? & _ & _ & _ & ?). done.
      * split; [intros (? & ? & HB); congruence|].
        intros (? & ? & ? & _ & _ & ? & _). done.
      * split; [intros (? & ? & HB); congruence|].
        intros (? & ? & ? & _ & _ & ? & _). done.
  - split; [intros (? & ? & HB); congruence|].
    intros (? & ? & ? & ? & _). done.
  - split; [intros (? & ? & HB); congruence|].
    intros (? & ? & ? & ? & _). done.
Qed.


(** X11: on a task run whose annotation map is nil [Build] never returns a
    pod: when everything before the write to the map succeeds, it
    panics on that write. *)
Theorem Build_nil_annotations_panics ctx b taskSpec st :
  TaskRun.Annotations (taskRunObject st) = None →
  (∀ pod st', Build ctx b taskSpec st ≠ (Ok pod, st'))
  ∧ (∀ pre version,
       prepare ctx b (taskRunObject st) taskSpec = Ok pre →
       ValidateVolumes (podVolumes ctx taskSpec (taskRunObject st) pre) = None →
       changeset_Get = Ok version →
       Build ctx b taskSpec st = (Panic "assignment to entry in nil map", st)).
Proof.
  intros Hnil. pose proof (Build_cases ctx b taskSpec st) as Hc. split.
  - intros pod st' HB.
    assert (∃ pod st', Build ctx b taskSpec st = (Ok pod, st')) as Hex
      by (by exists pod, st').
    destruct (prepare ctx b (taskRunObject st) taskSpec) as [pre| |];
      [|congruence..].
    destruct (ValidateVolumes _) as [err|]; [congruence|].
    destruct changeset_Get as [version| |]; [|congruence..].
    rewrite Hnil in Hc. congruence.
  - intros pre version Hp Hv Hg. by rewrite Hp, Hv, Hg, Hnil in Hc.
Qed.

(** X12: the volumes of a pod that [Build] returns are the list that passed
    [ValidateVolumes]; and when that validation fails after a successful
    first part, its error is what [Build] returns. *)
Theorem Build_validates_volumes ctx b taskSpec st pre :
  prepare ctx b (taskRunObject st) taskSpec = Ok pre →
  (∀ pod st', Build ctx b taskSpec st = (Ok pod, st') →
     PodSpec.Volumes (Pod.Spec pod) = podVolumes ctx taskSpec (taskRunObject st) pre
     ∧ ValidateVolumes (PodSpec.Volumes (Pod.Spec pod)) = None)
  ∧ (∀ e, ValidateVolumes (podVolumes ctx taskSpec (taskRunObject st) pre) = Some e →
       Build ctx b taskSpec st = (Err e, st)).
Proof.
  intros Hp. pose proof (Build_cases ctx b taskSpec st) as Hc.
  rewrite Hp in Hc. split.
  - intros pod st' HB.
    destruct (Build_Ok _ _ _ _ _ _ HB)
      as (pre' & ? & ? & Hp' & _ & _ & _ & Hvols & _).
    rewrite Hp in Hp'. injection Hp' as <-.
    split; [exact Hvols|]. rewrite Hvols.
    unfold podVolumes, templateOf in Hc.
    destruct (ValidateVolumes _) as [err|]; [congruence|done].
  - intros e He. by rewrite He in Hc.
Qed.

(** What the first part of [Build] returns when it succeeds, in terms
    of what the collaborators returned. *)
Lemma prepare_Ok_inv ctx b taskRun taskSpec pre :
  prepare ctx b taskRun taskSpec = Ok pre →
  ∃ credArgs credVolumes credVolumeMounts steps scriptsInit converted
    resolved entrypointInit,
    let debug := if alphaAPIEnabled ctx
                 then TaskRunSpec.Debug (TaskRun.Spec taskRun) else None in
    credsInit ctx (TaskRunSpec.ServiceAccountName (TaskRun.Spec taskRun))
              (TaskRun.Namespace taskRun) (KubeClient_ b)
    = Ok (credArgs, credVolumes, credVolumeMounts)
    ∧ MergeStepsWithStepTemplate (TaskSpec.StepTemplate taskSpec)
                                 (TaskSpec.Steps taskSpec) = Ok steps
    ∧ convertScripts (pipeline.ShellImage (Images b))
        (if alphaAPIEnabled ctx then pipeline.ShellImageWin (Images b) else "")
        steps (TaskSpec.Sidecars taskSpec) debug
      = (scriptsInit, converted, sidecarContainers pre)
    ∧ resolveEntrypoints ctx (EntrypointCache b) (TaskRun.Namespace taskRun)
        (TaskRunSpec.ServiceAccountName (TaskRun.Spec taskRun)) converted
      = Ok resolved
    ∧ orderContainers (pipeline.EntrypointImage (Images b)) credArgs resolved
                      taskSpec debug
      = Ok (entrypointInit, stepContainers pre)
    ∧ initContainers pre
      = entrypointInit
        :: option_list scriptsInit
        ++ option_list (workingDirInit (pipeline.ShellImage (Images b)) converted)
    ∧ volumes pre
      = implicitVolumes ++ credVolumes
        ++ match scriptsInit with Some _ => [scriptsVolume] | None => [] end
        ++ (if alphaAPIEnabled ctx
               && bool_decide (is_Some (TaskRunSpec.Debug (TaskRun.Spec taskRun)))
            then [debugScriptsVolume; debugInfoVolume] else [])
        ++ [toolsVolume; downwardVolume]
    ∧ volumeMounts pre = implicitVolumeMounts ++ credVolumeMounts.
Proof.
  unfold prepare.
  destruct (credsInit _ _ _ _) as [[[credArgs credVols] credVMs]| |];
    simpl; [|done..].
  destruct (MergeStepsWithStepTemplate _ _) as [steps| |]; simpl; [|done..].
  destruct (alphaAPIEnabled ctx) eqn:Halpha;
    destruct (convertScripts _ _ _ _ _) as [[scriptsInit scs] sidecars] eqn:Hcs;
    destruct scriptsInit as [si|];
    destruct (resolveEntrypoints _ _ _ _ _) as [resolved| |] eqn:Hre;
    simpl; try done;
    destruct (orderContainers _ _ _ _ _) as [[init ordered]| |] eqn:Hoc;
    simpl; try done;
    destruct (getLimitRangeMinimum _ _ _) as [floor| |]; simpl; try done;
    intros [= <-]; simpl;
    eexists _, _, _, _, _, _, _, _;
    (split; [reflexivity|]); (split; [reflexivity|]);
    (split; [exact Hcs|]); (split; [exact Hre|]); (split; [exact Hoc|]);
    (split; [simpl; by destruct (workingDirInit _ _)|]);
    (split; [|reflexivity]);
    simpl; rewrite <- ?app_assoc; simpl;
    try destruct (bool_decide _); simpl; rewrite <- ?app_assoc; reflexivity.
Qed.

(** The errors of the first part are those of its collaborators. *)
Lemma prepare_Err_inv ctx b taskRun taskSpec e :
  prepare ctx b taskRun taskSpec = Err e →
  (∃ sa ns, credsInit ctx sa ns (KubeClient_ b) = Err e)
  ∨ (∃ template steps, MergeStepsWithStepTemplate template steps = Err e)
  ∨ (∃ ns sa containers,
       resolveEntrypoints ctx (EntrypointCache b) ns sa containers = Err e)
  ∨ (∃ image args containers debug,
       orderContainers image args containers taskSpec debug = Err e)
  ∨ LimitRanges_List (KubeClient_ b) (TaskRun.Namespace taskRun) = Err e.
Proof.
  unfold prepare.
  destruct (credsInit _ _ _ _) as [[[credArgs credVols] credVMs]| |] eqn:Hci;
    simpl; [|intros [= <-]; left; by eexists _, _|done].
  destruct (MergeStepsWithStepTemplate _ _) as [steps| |] eqn:Hms; simpl;
    [|intros [= <-]; right; left; by eexists _, _|done].
  destruct (if alphaAPIEnabled ctx then _ else _) as [[scriptsInit scs] sidecars].
  destruct (match scriptsInit with Some _ => _ | None => _ end) as [inits vols].
  destruct (resolveEntrypoints _ _ _ _ _) as [resolved| |] eqn:Hre; simpl;
    [|intros [= <-]; right; right; left; by eexists _, _, _|done].
  destruct (if alphaAPIEnabled ctx then _ else _) as [[init ordered]| |] eqn:Hoc;
    simpl; [| |done].
  - unfold getLimitRangeMinimum.
    destruct (LimitRanges_List _ _) as [lrs| |]; simpl; [done| |done].
    intros [= <-]. by repeat right.
  - intros [= <-]. right; right; right; left.
    destruct (alphaAPIEnabled ctx); by eexists _, _, _, _.
Qed.

(** X13: [Build] has no errors of its own: an error it returns is the error
    of one of its collaborators, passed on as it is. *)
Theorem Build_errors_are_collaborators ctx b taskSpec st e st' :
  Build ctx b taskSpec st = (Err e, st') →
  (∃ sa ns, credsInit ctx sa ns (KubeClient_ b) = Err e)
  ∨ (∃ template steps, MergeStepsWithStepTemplate template steps = Err e)
  ∨ (∃ ns sa containers,
       resolveEntrypoints ctx (EntrypointCache b) ns sa containers = Err e)
  ∨ (∃ image args containers debug,
       orderContainers image args containers taskSpec debug = Err e)
  ∨ LimitRanges_List (KubeClient_ b) (TaskRun.Namespace (taskRunObject st)) = Err e
  ∨ (∃ volumes, ValidateVolumes volumes = Some e)
  ∨ changeset_Get = Err e.
Proof.
  intros HB. pose proof (Build_cases ctx b taskSpec st) as Hc.
  destruct (prepare ctx b (taskRunObject st) taskSpec) as [pre|e'|] eqn:Hp.
  - do 5 right.
    destruct (ValidateVolumes _) as [err|] eqn:Hv.
    + left. rewrite HB in Hc. injection Hc as -> _. by eexists.
    + right. destruct changeset_Get as [version| |]; [|congruence..].
      destruct (TaskRun.Annotations (taskRunObject st)); [|congruence].
      destruct Hc as (? & ? & Hc). congruence.
  - rewrite HB in Hc. injection Hc as -> _.
    destruct (prepare_Err_inv _ _ _ _ _ Hp) as [?|[?|[?|[?|?]]]]; auto 10.
  - congruence.
Qed.

(** *** The pod as a whole *)

(** The fields of the pod that [Build] fills from the task run and the
    first part. *)
Lemma Build_Ok_fields ctx b taskSpec st pod st' :
  Build ctx b taskSpec st = (Ok pod, st') →
  ∃ pre,
    prepare ctx b (taskRunObject st) taskSpec = Ok pre
    ∧ PodSpec.InitContainers (Pod.Spec pod) = initContainers pre
    ∧ ObjectMeta.Namespace (Pod.Meta pod) = TaskRun.Namespace (taskRunObject st)
    ∧ ObjectMeta.Labels (Pod.Meta pod) = makeLabels (taskRunObject st)
    ∧ PodSpec.ServiceAccountName (Pod.Spec pod)
      = TaskRunSpec.ServiceAccountName (TaskRun.Spec (taskRunObject st))
    ∧ PodSpec.RestartPolicy_ (Pod.Spec pod) = RestartPolicyNever
    ∧ ObjectMeta.OwnerReferences (Pod.Meta pod)
      = [NewControllerRef (taskRunObject st) groupVersionKind]
    ∧ (let t := templateOf (taskRunObject st) in
       PodSpec.NodeSelector (Pod.Spec pod) = podtemplate.Template.NodeSelector t
       ∧ PodSpec.Tolerations (Pod.Spec pod) = podtemplate.Template.Tolerations t
       ∧ PodSpec.SecurityContext (Pod.Spec pod)
         = podtemplate.Template.SecurityContext t
       ∧ PodSpec.RuntimeClassName (Pod.Spec pod)
         = podtemplate.Template.RuntimeClassName t
       ∧ PodSpec.AutomountServiceAccountToken (Pod.Spec pod)
         = podtemplate.Template.AutomountServiceAccountToken t
       ∧ PodSpec.SchedulerName (Pod.Spec pod) = podtemplate.Template.SchedulerName t
       ∧ PodSpec.HostNetwork (Pod.Spec pod) = podtemplate.Template.HostNetwork t
       ∧ PodSpec.DNSPolicy (Pod.Spec pod)
         = default "" (podtemplate.Template.DNSPolicy t)
       ∧ PodSpec.DNSConfig (Pod.Spec pod) = podtemplate.Template.DNSConfig t
       ∧ PodSpec.EnableServiceLinks (Pod.Spec pod)
         = podtemplate.Template.EnableServiceLinks t
       ∧ PodSpec.PriorityClassName (Pod.Spec pod)
         = default "" (podtemplate.Template.PriorityClassName t)
       ∧ PodSpec.ImagePullSecrets (Pod.Spec pod)
         = podtemplate.Template.ImagePullSecrets t
       ∧ PodSpec.HostAliases (Pod.Spec pod) = podtemplate.Template.HostAliases t)
    ∧ rand st' = (RestrictLengthWithRandomSuffix
                    (TaskRun.Name (taskRunObject st) +:+ "-pod") (rand st)).2.
Proof.
  unfold Build, bind, lift, deref, ret, generateName, setAnnotation.
  destruct st as [tr r]. simpl.
  destruct (prepare ctx b tr taskSpec) as [pre| |]; [|done..].
  destruct (assembleSteps ctx tr pre) as [vols steps] eqn:Ea.
  destruct (ValidateVolumes _) as [err|]; [done|].
  destruct changeset_Get as [version| |]; [|done..].
  destruct (TaskRun.Annotations tr) as [annotations|] eqn:Ha; simpl;
    rewrite ?Ha; simpl; [|done].
  destruct (shouldAddReadyAnnotationOnPodCreate _ _); simpl;
    destruct (RestrictLengthWithRandomSuffix _ _) as [name r'];
    intros [= <- <-]; exists pre; unfold templateOf; simpl;
    destruct (TaskRunSpec.PodTemplate (TaskRun.Spec tr)); simpl;
    split_and!; done.
Qed.

(** *** Init containers *)

(** X14: the init containers of the pod: the entrypoint init container that
    [orderContainers] returns stands first, although it is made last;
    the script init container follows when [convertScripts] returned
    one, and then the working-directory init container when
    [workingDirInit] returned one.  There is no other. *)
Theorem Build_init_containers ctx b taskSpec st pod st' :
  Build ctx b taskSpec st = (Ok pod, st') →
  ∃ credArgs credVolumes credVolumeMounts steps scriptsInit converted sidecars
    resolved entrypointInit ordered,
    let taskRun := taskRunObject st in
    let debug := if alphaAPIEnabled ctx
                 then TaskRunSpec.Debug (TaskRun.Spec taskRun) else None in
    credsInit ctx (TaskRunSpec.ServiceAccountName (TaskRun.Spec taskRun))
              (TaskRun.Namespace taskRun) (KubeClient_ b)
    = Ok (credArgs, credVolumes, credVolumeMounts)
    ∧ MergeStepsWithStepTemplate (TaskSpec.StepTemplate taskSpec)
                                 (TaskSpec.Steps taskSpec) = Ok steps
    ∧ convertScripts (pipeline.ShellImage (Images b))
        (if alphaAPIEnabled ctx then pipeline.ShellImageWin (Images b) else "")
        steps (TaskSpec.Sidecars taskSpec) debug
      = (scriptsInit, converted, sidecars)
    ∧ resolveEntrypoints ctx (EntrypointCache b) (TaskRun.Namespace taskRun)
        (TaskRunSpec.ServiceAccountName (TaskRun.Spec taskRun)) converted
      = Ok resolved
    ∧ orderContainers (pipeline.EntrypointImage (Images b)) credArgs resolved
                      taskSpec debug
      = Ok (entrypointInit, ordered)
    ∧ PodSpec.InitContainers (Pod.Spec pod)
      = entrypointInit
        :: option_list scriptsInit
        ++ option_list (workingDirInit (pipeline.ShellImage (Images b)) converted)
    ∧ head (PodSpec.InitContainers (Pod.Spec pod)) = Some entrypointInit
    ∧ (1 ≤ length (PodSpec.InitContainers (Pod.Spec pod)) ≤ 3)%nat.
Proof.
  intros HB.
  apply Build_Ok_fields in HB as (pre & Hp & Hinit & _).
  apply prepare_Ok_inv in Hp
    as (credArgs & credVolumes & credVMs & steps & scriptsInit & converted
        & resolved & entrypointInit & Hci & Hms & Hcs & Hre & Hoc & Hic & _).
  exists credArgs, credVolumes, credVMs, steps, scriptsInit, converted,
    (sidecarContainers pre), resolved, entrypointInit, (stepContainers pre).
  simpl. rewrite Hinit, Hic. split_and!; try done.
  - simpl. lia.
  - simpl. rewrite length_app.
    destruct scriptsInit, (workingDirInit _ _); simpl; lia.
Qed.

(** *** Volumes *)

(** Every implicit mount names an implicit volume. *)
Lemma implicitVolumeMounts_have_volumes :
  Forall (λ vm, ∃ v, v ∈ implicitVolumes ∧ Volume.Name v = VolumeMount.Name vm)
         implicitVolumeMounts.
Proof.
  unfold implicitVolumeMounts, implicitVolumes.
  repeat apply Forall_cons_2; [..|apply Forall_nil_2]; simpl.
  - eexists {| Volume.Name := _; Volume.Source := _ |}.
    split; [|reflexivity]. apply list_elem_of_here.
  - eexists {| Volume.Name := _; Volume.Source := _ |}.
    split; [|reflexivity]. do 1 apply list_elem_of_further. apply list_elem_of_here.
  - eexists {| Volume.Name := _; Volume.Source := _ |}.
    split; [|reflexivity]. do 2 apply list_elem_of_further. apply list_elem_of_here.
  - eexists {| Volume.Name := _; Volume.Source := _ |}.
    split; [|reflexivity]. do 3 apply list_elem_of_further. apply list_elem_of_here.
Qed.

(** X15: the volumes of the pod, in order: the implicit volumes; those of
    [credsInit]; the script volume when there is a script init
    container; the two debug volumes under the alpha API when the task
    run has a debug section; the tools and downward volumes; the
    credential volumes of the steps; the volumes of the task spec; and
    last those of the pod template.  In particular every implicit
    volume is in the pod, so that an implicit mount on a container of
    the pod always names a volume of the pod. *)
Theorem Build_volumes ctx b taskSpec st pod st' :
  Build ctx b taskSpec st = (Ok pod, st') →
  ∃ pre credArgs credVolumes credVolumeMounts steps scriptsInit converted,
    let taskRun := taskRunObject st in
    let debug := if alphaAPIEnabled ctx
                 then TaskRunSpec.Debug (TaskRun.Spec taskRun) else None in
    prepare ctx b taskRun taskSpec = Ok pre
    ∧ credsInit ctx (TaskRunSpec.ServiceAccountName (TaskRun.Spec taskRun))
                (TaskRun.Namespace taskRun) (KubeClient_ b)
      = Ok (credArgs, credVolumes, credVolumeMounts)
    ∧ MergeStepsWithStepTemplate (TaskSpec.StepTemplate taskSpec)
                                 (TaskSpec.Steps taskSpec) = Ok steps
    ∧ convertScripts (pipeline.ShellImage (Images b))
        (if alphaAPIEnabled ctx then pipeline.ShellImageWin (Images b) else "")
        steps (TaskSpec.Sidecars taskSpec) debug
      = (scriptsInit, converted, sidecarContainers pre)
    ∧ PodSpec.Volumes (Pod.Spec pod)
      = implicitVolumes ++ credVolumes
        ++ match scriptsInit with Some _ => [scriptsVolume] | None => [] end
        ++ (if alphaAPIEnabled ctx
               && bool_decide (is_Some (TaskRunSpec.Debug (TaskRun.Spec taskRun)))
            then [debugScriptsVolume; debugInfoVolume] else [])
        ++ [toolsVolume; downwardVolume]
        ++ mjoin (imap (λ i _, credsVolume ctx i) (stepContainers pre))
        ++ TaskSpec.Volumes taskSpec
        ++ podtemplate.Template.Volumes (templateOf taskRun)
    ∧ (∀ vm, vm ∈ implicitVolumeMounts →
         ∃ v, v ∈ PodSpec.Volumes (Pod.Spec pod)
              ∧ Volume.Name v = VolumeMount.Name vm).
Proof.
  intros HB.
  apply Build_Ok in HB as (pre & ? & ? & Hp & _ & _ & _ & Hvols & _).
  pose proof Hp as Hp'.
  apply prepare_Ok_inv in Hp'
    as (credArgs & credVolumes & credVMs & steps & scriptsInit & converted
        & resolved & entrypointInit & Hci & Hms & Hcs & _ & _ & _ & Hv & _).
  exists pre, credArgs, credVolumes, credVMs, steps, scriptsInit, converted.
  simpl.
  assert (PodSpec.Volumes (Pod.Spec pod)
          = implicitVolumes ++ credVolumes
            ++ match scriptsInit with Some _ => [scriptsVolume] | None => [] end
            ++ (if alphaAPIEnabled ctx
                   && bool_decide (is_Some (TaskRunSpec.Debug
                                              (TaskRun.Spec (taskRunObject st))))
                then [debugScriptsVolume; debugInfoVolume] else [])
            ++ [toolsVolume; downwardVolume]
            ++ mjoin (imap (λ i _, credsVolume ctx i) (stepContainers pre))
            ++ TaskSpec.Volumes taskSpec
            ++ podtemplate.Template.Volumes (templateOf (taskRunObject st)))
    as Heq.
  { rewrite Hvols, assembleSteps_volumes, Hv. unfold templateOf.
    rewrite <- !app_assoc. reflexivity. }
  split_and!; try done.
  intros vm Hvm.
  pose proof implicitVolumeMounts_have_volumes as Hall.
  rewrite Forall_forall in Hall.
  destruct (Hall vm Hvm) as (v & Hin & Hname).
  exists v. split; [|done]. rewrite Heq. apply elem_of_app. by left.
Qed.

(** *** Mount paths *)

Lemma cleanPaths_app l1 l2 : cleanPaths (l1 ++ l2) = cleanPaths l1 ++ cleanPaths l2.
Proof. apply fmap_app. Qed.

Lemma shadowed_cleanPaths declared imp :
  shadowed declared imp
  ↔ filepath.Clean (VolumeMount.MountPath imp) ∈ cleanPaths declared.
Proof.
  unfold shadowed, cleanPaths. rewrite Exists_exists, list_elem_of_fmap.
  split; intros (vm & H1 & H2); exists vm; done.
Qed.

(** X16: the mount loop covers every implicit path and keeps the mount
    paths of a step container distinct: in the pod, every step
    container has a mount at the cleaned path of every implicit mount,
    its own or the implicit one; no injected mount has the cleaned path
    of a mount the container carried (its own or its credential mount);
    and when the mounts it carried have pairwise distinct cleaned paths,
    and so have the mounts to inject, then so have its mounts in the
    pod. *)
Theorem Build_mount_paths ctx b taskSpec st pod st' pre i s :
  Build ctx b taskSpec st = (Ok pod, st') →
  prepare ctx b (taskRunObject st) taskSpec = Ok pre →
  stepContainers pre !! i = Some s →
  ∃ s',
    PodSpec.Containers (Pod.Spec pod) !! i = Some s'
    ∧ (∀ imp, imp ∈ implicitVolumeMounts →
         filepath.Clean (VolumeMount.MountPath imp)
         ∈ cleanPaths (Container.VolumeMounts s'))
    ∧ (∀ p, p ∈ cleanPaths (declaredMounts ctx i s) →
            p ∈ cleanPaths (addedMounts ctx pre i s) → False)
    ∧ (NoDup (cleanPaths (declaredMounts ctx i s)) →
       NoDup (cleanPaths (volumeMounts pre)) →
       NoDup (cleanPaths (Container.VolumeMounts s'))).
Proof.
  intros HB Hp Hs. eexists. split; [by eapply Build_step_container|]. simpl.
  assert (∀ p, p ∈ cleanPaths (declaredMounts ctx i s) →
               p ∈ cleanPaths (addedMounts ctx pre i s) → False) as Hdisj.
  { intros p Hd Ha. unfold cleanPaths in Ha.
    apply list_elem_of_fmap in Ha as (imp & -> & Himp).
    unfold addedMounts in Himp. apply list_elem_of_filter in Himp as [Hn _].
    apply Hn. by apply shadowed_cleanPaths. }
  split.
  { intros imp Himp. rewrite cleanPaths_app, elem_of_app.
    destruct (decide (shadowed (declaredMounts ctx i s) imp)) as [Hsh|Hsh].
    - left. by apply shadowed_cleanPaths.
    - right. unfold cleanPaths. apply list_elem_of_fmap. exists imp.
      split; [done|]. unfold addedMounts. apply list_elem_of_filter.
      split; [done|].
      apply prepare_Ok in Hp as (_ & (credVMs & ->) & _).
      apply elem_of_app. by left. }
  split; [exact Hdisj|]. intros Hd Hv.
  rewrite cleanPaths_app. apply NoDup_app. split_and!; [done| |].
  - intros p Hp1 Hp2. by eapply Hdisj.
  - apply (sublist_NoDup _ (cleanPaths (volumeMounts pre))); [exact Hv|].
    unfold cleanPaths, addedMounts. apply fmap_sublist, sublist_filter.
Qed.

(** *** The containers of the pod *)

(** X17: the containers of the pod are the step containers, in the order
    they were delivered, followed by the sidecar containers, in the
    order they were delivered: none is dropped, added or moved.  A
    sidecar container is changed in its name only, which becomes the
    sidecar prefix and its old name, restricted in length. *)
Theorem Build_containers_layout ctx b taskSpec st pod st' pre :
  Build ctx b taskSpec st = (Ok pod, st') →
  prepare ctx b (taskRunObject st) taskSpec = Ok pre →
  length (PodSpec.Containers (Pod.Spec pod))
  = (length (stepContainers pre) + length (sidecarContainers pre))%nat
  ∧ (∀ i s, stepContainers pre !! i = Some s →
       ∃ s', PodSpec.Containers (Pod.Spec pod) !! i = Some s'
             ∧ Container.Name s' = RestrictLength (StepName (Container.Name s) i))
  ∧ (∀ j sc, sidecarContainers pre !! j = Some sc →
       ∃ sc',
         PodSpec.Containers (Pod.Spec pod) !! (length (stepContainers pre) + j)%nat
         = Some sc'
         ∧ Container.Name sc'
           = RestrictLength (sidecarPrefix +:+ Container.Name sc)
         ∧ Container.withName sc' (Container.Name sc) = sc).
Proof.
  intros HB Hp. split_and!.
  - apply Build_Ok in HB as (pre' & ? & ? & Hp' & _ & _ & -> & _).
    rewrite Hp in Hp'. injection Hp' as <-.
    by rewrite length_app, length_fmap, assembleSteps_length.
  - intros i s Hs. eexists. split; [by eapply Build_step_container|done].
  - intros j sc Hsc. eexists. split; [by eapply Build_sidecar_container|].
    split; [done|]. by destruct sc.
Qed.

(** X18: the working directory of a step container of the pod: a step
    container that came with a working directory keeps it; one that
    came without gets [/workspace], unless the feature flag
    [disable-working-directory-overwrite] is set, in which case it
    stays without.  Image, command and arguments stay as delivered. *)
Theorem Build_working_dir ctx b taskSpec st pod st' pre i s :
  Build ctx b taskSpec st = (Ok pod, st') →
  prepare ctx b (taskRunObject st) taskSpec = Ok pre →
  stepContainers pre !! i = Some s →
  let disabled :=
    config.FeatureFlags.DisableWorkingDirOverwrite (config.Config.FeatureFlags_ ctx) in
  ∃ s',
    PodSpec.Containers (Pod.Spec pod) !! i = Some s'
    ∧ (Container.WorkingDir s ≠ "" →
       Container.WorkingDir s' = Container.WorkingDir s)
    ∧ (Container.WorkingDir s = "" → disabled = false →
       Container.WorkingDir s' = pipeline.WorkspaceDir)
    ∧ (Container.WorkingDir s = "" → disabled = true →
       Container.WorkingDir s' = "")
    ∧ Container.Image s' = Container.Image s
    ∧ Container.Command s' = Container.Command s
    ∧ Container.Args s' = Container.Args s.
Proof.
  intros HB Hp Hs disabled.
  eexists. split; [by eapply Build_step_container|]. simpl.
  unfold shouldOverrideWorkingDir, config.FromContextOrDefaults.
  fold disabled. split_and!; try done.
  - intros Hne. by rewrite bool_decide_false.
  - intros He ->. by rewrite bool_decide_true.
  - intros He ->. rewrite bool_decide_true by done. done.
Qed.

(** *** Annotations and labels *)

Lemma shouldAddReadyAnnotationOnPodCreate_iff ctx sidecars :
  shouldAddReadyAnnotationOnPodCreate ctx sidecars
  = bool_decide (sidecars = [])
    && negb (config.FeatureFlags.RunningInEnvWithInjectedSidecars
               (config.Config.FeatureFlags_ ctx)).
Proof.
  unfold shouldAddReadyAnnotationOnPodCreate, config.FromContextOrDefaults.
  by destruct sidecars.
Qed.

(** X19: the annotations of the pod are the annotation map of the task run
    as [Build] leaves it: every annotation the task run had, except that
    the release annotation holds the version [changeset.Get] returned,
    and that the ready annotation is set when the task spec has no
    sidecar and the feature flag [running-in-environment-with-injected-
    sidecars] is off.  The ready annotation is written last. *)
Theorem Build_annotations ctx b taskSpec st pod st' :
  Build ctx b taskSpec st = (Ok pod, st') →
  let ready :=
    bool_decide (TaskSpec.Sidecars taskSpec = [])
    && negb (config.FeatureFlags.RunningInEnvWithInjectedSidecars
               (config.Config.FeatureFlags_ ctx)) in
  ∃ annotations version m,
    TaskRun.Annotations (taskRunObject st) = Some annotations
    ∧ changeset_Get = Ok version
    ∧ ObjectMeta.Annotations (Pod.Meta pod) = Some m
    ∧ TaskRun.Annotations (taskRunObject st') = Some m
    ∧ ∀ k,
        m !! k
        = if ready && bool_decide (k = readyAnnotation)
          then Some readyAnnotationValue
          else if bool_decide (k = ReleaseAnnotation) then Some version
          else annotations !! k.
Proof.
  intros HB ready.
  apply Build_Ok in HB
    as (pre & version & annotations & _ & Hv & Ha & _ & _ & _ & Hpod & Hst & _).
  exists annotations, version, (stamped ctx taskSpec version annotations).
  split_and!; try done.
  - by rewrite Hst.
  - intros k. unfold stamped.
    rewrite shouldAddReadyAnnotationOnPodCreate_iff. fold ready.
    destruct ready; simpl.
    + case_bool_decide as Hk1.
      * subst k. apply lookup_insert_eq.
      * rewrite lookup_insert_ne by done.
        case_bool_decide as Hk2.
        -- subst k. apply lookup_insert_eq.
        -- by rewrite lookup_insert_ne.
    + case_bool_decide as Hk2.
      * subst k. apply lookup_insert_eq.
      * by rewrite lookup_insert_ne.
Qed.

(** X20: the pod belongs to its task run: it is in the namespace of the
    task run, runs under its service account, never restarts, carries
    the labels of the task run with the task-run label set to the name
    of the task run, has the task run as its one owner, and has a name
    that the generator made from the name of the task run and [-pod],
    which moved the generator on. *)
Theorem Build_pod_metadata ctx b taskSpec st pod st' :
  Build ctx b taskSpec st = (Ok pod, st') →
  let taskRun := taskRunObject st in
  ObjectMeta.Namespace (Pod.Meta pod) = TaskRun.Namespace taskRun
  ∧ PodSpec.ServiceAccountName (Pod.Spec pod)
    = TaskRunSpec.ServiceAccountName (TaskRun.Spec taskRun)
  ∧ PodSpec.RestartPolicy_ (Pod.Spec pod) = RestartPolicyNever
  ∧ ObjectMeta.OwnerReferences (Pod.Meta pod)
    = [NewControllerRef taskRun groupVersionKind]
  ∧ ObjectMeta.Labels (Pod.Meta pod) !! TaskRunLabelKey = Some (TaskRun.Name taskRun)
  ∧ (∀ k, k ≠ TaskRunLabelKey →
       ObjectMeta.Labels (Pod.Meta pod) !! k = TaskRun.Labels taskRun !! k)
  ∧ (ObjectMeta.Name (Pod.Meta pod), rand st')
    = RestrictLengthWithRandomSuffix (TaskRun.Name taskRun +:+ "-pod") (rand st).
Proof.
  intros HB taskRun.
  pose proof (Build_Ok _ _ _ _ _ _ HB)
    as (_ & _ & _ & _ & _ & _ & _ & _ & _ & _ & _ & Hname).
  apply Build_Ok_fields in HB
    as (pre & _ & _ & Hns & Hl & Hsa & Hrp & Ho & _).
  rewrite Hl, Ho. fold taskRun. split_and!; try done.
  - rewrite makeLabels_insert. apply lookup_insert_eq.
  - intros k Hk. rewrite makeLabels_insert. by rewrite lookup_insert_ne.
Qed.

(** X21: a task run without a pod template is built with the empty one: the
    pod has no node selector, tolerations, security context, runtime
    class, scheduler, DNS settings, priority class, pull secrets or
    host aliases, does not use the host network, gets no volumes from
    a template, and has no affinity unless the task run names an
    affinity assistant.  With a pod template, a DNS policy or priority
    class that the template leaves unset is the empty string. *)
Theorem Build_pod_template ctx b taskSpec st pod st' :
  Build ctx b taskSpec st = (Ok pod, st') →
  let taskRun := taskRunObject st in
  (TaskRunSpec.PodTemplate (TaskRun.Spec taskRun) = None →
     PodSpec.NodeSelector (Pod.Spec pod) = ∅
     ∧ PodSpec.Tolerations (Pod.Spec pod) = []
     ∧ PodSpec.SecurityContext (Pod.Spec pod) = None
     ∧ PodSpec.RuntimeClassName (Pod.Spec pod) = None
     ∧ PodSpec.AutomountServiceAccountToken (Pod.Spec pod) = None
     ∧ PodSpec.SchedulerName (Pod.Spec pod) = ""
     ∧ PodSpec.HostNetwork (Pod.Spec pod) = false
     ∧ PodSpec.DNSPolicy (Pod.Spec pod) = ""
     ∧ PodSpec.DNSConfig (Pod.Spec pod) = None
     ∧ PodSpec.EnableServiceLinks (Pod.Spec pod) = None
     ∧ PodSpec.PriorityClassName (Pod.Spec pod) = ""
     ∧ PodSpec.ImagePullSecrets (Pod.Spec pod) = []
     ∧ PodSpec.HostAliases (Pod.Spec pod) = []
     ∧ (index (TaskRun.Annotations taskRun) AnnotationAffinityAssistantName = "" →
        PodSpec.Affinity (Pod.Spec pod) = None)
     ∧ ∃ pre, prepare ctx b taskRun taskSpec = Ok pre
              ∧ PodSpec.Volumes (Pod.Spec pod)
                = (assembleSteps ctx taskRun pre).1 ++ TaskSpec.Volumes taskSpec)
  ∧ (∀ t, TaskRunSpec.PodTemplate (TaskRun.Spec taskRun) = Some t →
       (podtemplate.Template.DNSPolicy t = None →
        PodSpec.DNSPolicy (Pod.Spec pod) = "")
       ∧ (podtemplate.Template.PriorityClassName t = None →
          PodSpec.PriorityClassName (Pod.Spec pod) = "")
       ∧ (∀ policy, podtemplate.Template.DNSPolicy t = Some policy →
          PodSpec.DNSPolicy (Pod.Spec pod) = policy)
       ∧ (∀ class, podtemplate.Template.PriorityClassName t = Some class →
          PodSpec.PriorityClassName (Pod.Spec pod) = class)).
Proof.
  intros HB taskRun.
  pose proof (Build_Ok _ _ _ _ _ _ HB)
    as (pre & _ & _ & Hp & _ & _ & _ & Hvols & Haff & _).
  apply Build_Ok_fields in HB
    as (_ & _ & _ & _ & _ & _ & _ & _ & Ht & _).
  unfold templateOf in Ht. fold taskRun in Ht, Hvols, Haff, Hp. simpl in Ht.
  destruct Ht as (H1 & H2 & H3 & H4 & H5 & H6 & H7 & H8 & H9 & H10 & H11 & H12 & H13).
  split.
  - intros Hnone. rewrite Hnone in *. simpl in *.
    split_and!; try done.
    + intros Hidx. rewrite Haff. simpl. rewrite Hidx.
      by rewrite bool_decide_false by (by intros ?).
    + exists pre. split; [done|]. by rewrite Hvols, app_nil_r.
  - intros t Hsome. rewrite Hsome in *. simpl in *.
    split_and!.
    + intros Hn. by rewrite H8, Hn.
    + intros Hn. by rewrite H11, Hn.
    + intros policy Hn. by rewrite H8, Hn.
    + intros class Hn. by rewrite H11, Hn.
Qed.

(** *** The [HOME] default and its feature flag *)

(** X22: with a builder that overrides [HOME] as [ShouldOverrideHomeEnv]
    says, the feature flag [disable-home-env-overwrite] decides: when it
    is off, every step container of the pod starts its environment with
    [HOME=/tekton/home]; when it is on, [Build] injects no [HOME], and
    the variables of the step stand first. *)
Theorem Build_home_env_flag ctx b taskSpec st pod st' pre i s :
  OverrideHomeEnv b = ShouldOverrideHomeEnv ctx →
  Build ctx b taskSpec st = (Ok pod, st') →
  prepare ctx b (taskRunObject st) taskSpec = Ok pre →
  stepContainers pre !! i = Some s →
  let disabled :=
    config.FeatureFlags.DisableHomeEnvOverwrite (config.Config.FeatureFlags_ ctx) in
  ∃ s',
    PodSpec.Containers (Pod.Spec pod) !! i = Some s'
    ∧ (disabled = false →
       ∃ rest, Container.Env s' = homeEnvVar :: Container.Env s ++ rest)
    ∧ (disabled = true →
       ∃ rest, Container.Env s' = Container.Env s ++ rest
               ∧ (∀ e, e ∈ rest → e = hermeticEnvVar)).
Proof.
  intros Hb HB Hp Hs disabled.
  eexists. split; [by eapply Build_step_container|]. simpl.
  apply prepare_Ok in Hp as (-> & _ & _). rewrite Hb.
  unfold ShouldOverrideHomeEnv, config.FromContextOrDefaults. fold disabled.
  split; intros ->; simpl.
  - by eexists.
  - eexists. split; [done|].
    intros e He. destruct (hermetic ctx (taskRunObject st));
      [by apply list_elem_of_singleton in He|by apply elem_of_nil in He].
Qed.

(** *** Building again *)

Lemma stamped_idemp ctx taskSpec version (annotations : gmap string string) :
  stamped ctx taskSpec version (stamped ctx taskSpec version annotations)
  = stamped ctx taskSpec version annotations.
Proof.
  unfold stamped.
  destruct (shouldAddReadyAnnotationOnPodCreate _ _).
  - apply map_eq. intros k.
    destruct (decide (k = readyAnnotation)) as [->|Hk1].
    + by rewrite !lookup_insert_eq.
    + rewrite !(lookup_insert_ne _ readyAnnotation) by done.
      destruct (decide (k = ReleaseAnnotation)) as [->|Hk2].
      * by rewrite !lookup_insert_eq.
      * by rewrite !lookup_insert_ne by done.
  - apply insert_insert_eq.
Qed.


End facts.
End pod_more_facts.

(** ** The further theorems at the example inputs *)
Module pod_more_examples.
Import golang corev1 v1beta1 pod pod_facts pod_vocabulary pod_more_facts.
Import fixture edge_cases pod_examples.
Local Existing Instance deps.

Lemma bareRun_Ok :
  Build (ctx "alpha") (builder true) taskSpec bareRun = (Ok barePod, bareAfter).
Proof. evaluate. Qed.

Lemma forbidden_Err :
  Build (ctx "alpha") (builderOf forbidden) taskSpec hermeticRun
  = (Err "limitranges is forbidden", hermeticRun).
Proof. evaluate. Qed.

Lemma cpuFloor_Ok :
  getLimitRangeMinimum (ctx "alpha") "default" kubeclient = Ok cpuFloor.
Proof. evaluate. Qed.

Lemma cpuFloorReversed_Ok :
  getLimitRangeMinimum (ctx "alpha") "default" reversed = Ok cpuFloorReversed.
Proof. evaluate. Qed.

Lemma getLimitRangeMinimum_dominates_witness :
  LimitRanges_List kubeclient "default" = Ok [limitRange 100; limitRange 250]
  ∧ getLimitRangeMinimum (ctx "alpha") "default" kubeclient = Ok cpuFloor
  ∧ (100 ≤ quantityOf cpuFloor "cpu")%Z
  ∧ (250 ≤ quantityOf cpuFloor "cpu")%Z.
Proof.
  split; [reflexivity|]. split; [exact cpuFloor_Ok|].
  destruct (getLimitRangeMinimum_dominates (ctx "alpha") "default" kubeclient
              [limitRange 100; limitRange 250] cpuFloor "cpu"
              eq_refl cpuFloor_Ok) as (_ & Hall & _).
  split; apply Hall; vm_compute.
  - apply list_elem_of_here.
  - apply list_elem_of_further, list_elem_of_here.
Defined.

Lemma getLimitRangeMinimum_order_independent_witness :
  LimitRanges_List kubeclient "default" = Ok [limitRange 100; limitRange 250]
  ∧ LimitRanges_List reversed "default" = Ok [limitRange 250; limitRange 100]
  ∧ [limitRange 100; limitRange 250] ≡ₚ [limitRange 250; limitRange 100]
  ∧ getLimitRangeMinimum (ctx "alpha") "default" kubeclient = Ok cpuFloor
  ∧ getLimitRangeMinimum (ctx "alpha") "default" reversed = Ok cpuFloorReversed
  ∧ quantityOf cpuFloor "cpu" = quantityOf cpuFloorReversed "cpu".
Proof.
  split; [reflexivity|]. split; [reflexivity|]. split; [apply perm_swap|].
  split; [exact cpuFloor_Ok|]. split; [exact cpuFloorReversed_Ok|].
  exact (getLimitRangeMinimum_order_independent (ctx "alpha") "default"
           kubeclient reversed _ _ cpuFloor cpuFloorReversed "cpu"
           eq_refl eq_refl (perm_swap _ _ _) cpuFloor_Ok cpuFloorReversed_Ok).
Defined.

Lemma otherTypes_declare_nothing k v :
  v ∈ declaredMinimums k
        [ {| LimitRange.Limits :=
               [ {| LimitRangeItem.Type_ := LimitTypePod;
                    LimitRangeItem.Min := Some {[ "cpu" := 500%Z ]} |};
                 {| LimitRangeItem.Type_ := LimitTypeContainer;
                    LimitRangeItem.Min := None |} ] |} ] →
  (v ≤ quantityOf allZeroQty k)%Z.
Proof. simpl. by intros ?%elem_of_nil. Qed.

Lemma getLimitRangeMinimum_nothing_to_raise_witness :
  LimitRanges_List otherTypes "default"
  = Ok [ {| LimitRange.Limits :=
              [ {| LimitRangeItem.Type_ := LimitTypePod;
                   LimitRangeItem.Min := Some {[ "cpu" := 500%Z ]} |};
                {| LimitRangeItem.Type_ := LimitTypeContainer;
                   LimitRangeItem.Min := None |} ] |} ]
  ∧ getLimitRangeMinimum (ctx "alpha") "default" otherTypes = Ok allZeroQty.
Proof.
  split; [reflexivity|].
  exact (getLimitRangeMinimum_nothing_to_raise (ctx "alpha") "default" otherTypes
           _ eq_refl otherTypes_declare_nothing).
Defined.

Lemma nilRun_Panic :
  Build (ctx "alpha") (builder true) taskSpec nilRun
  = (Panic "assignment to entry in nil map", nilRun).
Proof. evaluate. Qed.


Lemma Build_nil_annotations_panics_witness :
  TaskRun.Annotations (taskRunObject nilRun) = None
  ∧ Build (ctx "alpha") (builder true) taskSpec nilRun
    = (Panic "assignment to entry in nil map", nilRun).
Proof.
  split; [reflexivity|].
  destruct (Build_nil_annotations_panics (ctx "alpha") (builder true) taskSpec
              nilRun eq_refl) as [_ Hpanic].
  apply (Hpanic hermeticPrepared "v0.1.0"); evaluate.
Defined.

Lemma Build_validates_volumes_witness :
  prepare (ctx "alpha") (builder true) (taskRunObject hermeticRun) taskSpec
  = Ok hermeticPrepared
  ∧ length (PodSpec.Volumes (Pod.Spec hermeticPod)) = 9%nat
  ∧ ValidateVolumes (PodSpec.Volumes (Pod.Spec hermeticPod)) = None.
Proof.
  split; [exact hermeticRun_prepared|]. split; [reflexivity|].
  destruct (Build_validates_volumes (ctx "alpha") (builder true) taskSpec
              hermeticRun hermeticPrepared hermeticRun_prepared) as [Hok _].
  apply (Hok hermeticPod hermeticAfter hermeticRun_built).
Defined.

Lemma Build_errors_are_collaborators_witness :
  Build (ctx "alpha") (builderOf forbidden) taskSpec hermeticRun
  = (Err "limitranges is forbidden", hermeticRun)
  ∧ LimitRanges_List forbidden "default" = Err "limitranges is forbidden".
Proof.
  split; [exact forbidden_Err|].
  destruct (Build_errors_are_collaborators (ctx "alpha") (builderOf forbidden)
              taskSpec hermeticRun _ _ forbidden_Err)
    as [(? & ? & [=])|[(? & ? & [=])|[(? & ? & ? & [=])|[(? & ? & ? & ? & [=])
        |[Hlist|[(? & [=])|[=]]]]]]].
  exact Hlist.
Defined.

Lemma Build_init_containers_witness :
  Build (ctx "alpha") (builder true) taskSpec hermeticRun
  = (Ok hermeticPod, hermeticAfter)
  ∧ Container.Name <$> PodSpec.InitContainers (Pod.Spec hermeticPod)
    = ["place-tools"].
Proof.
  split; [exact hermeticRun_built|].
  destruct (Build_init_containers _ _ _ _ _ _ hermeticRun_built)
    as (credArgs & credVolumes & credVolumeMounts & steps & scriptsInit
        & converted & sidecars & resolved & entrypointInit & ordered
        & _ & _ & Hcs & _ & Hoc & Hinit & _).
  rewrite Hinit. injection Hoc as <- _. injection Hcs as <- <- _. reflexivity.
Defined.

Lemma Build_volumes_witness :
  Build (ctx "alpha") (builder true) taskSpec hermeticRun
  = (Ok hermeticPod, hermeticAfter)
  ∧ ∃ v, v ∈ PodSpec.Volumes (Pod.Spec hermeticPod)
         ∧ Volume.Name v = "tekton-internal-home".
Proof.
  split; [exact hermeticRun_built|].
  destruct (Build_volumes _ _ _ _ _ _ hermeticRun_built)
    as (pre & ? & ? & ? & ? & ? & ? & _ & _ & _ & _ & _ & Hmounted).
  apply (Hmounted {| VolumeMount.Name := "tekton-internal-home";
                     VolumeMount.MountPath := pipeline.HomeDir |}).
  apply list_elem_of_further, list_elem_of_here.
Defined.

Lemma Build_mount_paths_witness :
  Build (ctx "alpha") (builder true) taskSpec hermeticRun
  = (Ok hermeticPod, hermeticAfter)
  ∧ prepare (ctx "alpha") (builder true) (taskRunObject hermeticRun) taskSpec
    = Ok hermeticPrepared
  ∧ stepContainers hermeticPrepared !! 0%nat = Some stepOne
  ∧ cleanPaths (declaredMounts (ctx "alpha") 0 stepOne)
    = ["/tekton/home"; "/tekton/creds"]
  ∧ ∃ s',
      PodSpec.Containers (Pod.Spec hermeticPod) !! 0%nat = Some s'
      ∧ NoDup (cleanPaths (Container.VolumeMounts s')).
Proof.
  split; [exact hermeticRun_built|]. split; [exact hermeticRun_prepared|].
  split; [reflexivity|]. split; [evaluate|].
  destruct (Build_mount_paths _ _ _ _ _ _ _ 0%nat stepOne
              hermeticRun_built hermeticRun_prepared eq_refl)
    as (s' & Hs' & _ & _ & Hnodup).
  exists s'. split; [exact Hs'|].
  apply Hnodup; apply (bool_decide_unpack (NoDup _)); vm_compute; exact I.
Defined.

Lemma Build_containers_layout_witness :
  Build (ctx "alpha") (builder true) taskSpec hermeticRun
  = (Ok hermeticPod, hermeticAfter)
  ∧ prepare (ctx "alpha") (builder true) (taskRunObject hermeticRun) taskSpec
    = Ok hermeticPrepared
  ∧ length (PodSpec.Containers (Pod.Spec hermeticPod)) = 3%nat
  ∧ ∃ sc',
      PodSpec.Containers (Pod.Spec hermeticPod) !! 2%nat = Some sc'
      ∧ Container.Name sc' = "sidecar-helper".
Proof.
  split; [exact hermeticRun_built|]. split; [exact hermeticRun_prepared|].
  destruct (Build_containers_layout _ _ _ _ _ _ _
              hermeticRun_built hermeticRun_prepared) as (Hlen & _ & Hsidecars).
  split; [rewrite Hlen; reflexivity|].
  destruct (Hsidecars 0%nat helper eq_refl) as (sc' & Hsc' & Hname & _).
  exists sc'. split; [exact Hsc'|]. rewrite Hname. reflexivity.
Defined.

Lemma Build_working_dir_witness :
  Build (ctx "alpha") (builder true) taskSpec hermeticRun
  = (Ok hermeticPod, hermeticAfter)
  ∧ prepare (ctx "alpha") (builder true) (taskRunObject hermeticRun) taskSpec
    = Ok hermeticPrepared
  ∧ stepContainers hermeticPrepared !! 1%nat = Some stepTwo
  ∧ Container.WorkingDir stepTwo = ""
  ∧ ∃ s',
      PodSpec.Containers (Pod.Spec hermeticPod) !! 1%nat = Some s'
      ∧ Container.WorkingDir s' = "/workspace".
Proof.
  split; [exact hermeticRun_built|]. split; [exact hermeticRun_prepared|].
  split; [reflexivity|]. split; [reflexivity|].
  destruct (Build_working_dir _ _ _ _ _ _ _ 1%nat stepTwo
              hermeticRun_built hermeticRun_prepared eq_refl)
    as (s' & Hs' & _ & Hdefault & _).
  exists s'. split; [exact Hs'|]. apply Hdefault; reflexivity.
Defined.

Lemma Build_annotations_witness :
  Build (ctx "alpha") (builder true) taskSpec bareRun = (Ok barePod, bareAfter)
  ∧ ∃ m,
      ObjectMeta.Annotations (Pod.Meta barePod) = Some m
      ∧ TaskRun.Annotations (taskRunObject bareAfter) = Some m
      ∧ m !! "note" = Some "kept"
      ∧ m !! ReleaseAnnotation = Some "v0.1.0"
      ∧ m !! readyAnnotation = None.
Proof.
  split; [exact bareRun_Ok|].
  destruct (Build_annotations _ _ _ _ _ _ bareRun_Ok)
    as (annotations & version & m & Ha & Hv & Hpod & Hrun & Hm).
  exists m. split; [exact Hpod|]. split; [exact Hrun|].
  injection Ha as <-. injection Hv as <-.
  rewrite !Hm. split_and!; reflexivity.
Defined.

Lemma Build_pod_metadata_witness :
  Build (ctx "alpha") (builder true) taskSpec bareRun = (Ok barePod, bareAfter)
  ∧ TaskRun.Labels (taskRunObject bareRun) !! TaskRunLabelKey = Some "mine"
  ∧ ObjectMeta.Labels (Pod.Meta barePod) !! TaskRunLabelKey = Some "taskrun-name"
  ∧ ObjectMeta.Labels (Pod.Meta barePod) !! "app" = Some "demo"
  ∧ ObjectMeta.Name (Pod.Meta barePod) = "taskrun-name-pod-7"
  ∧ rand bareAfter = 8%nat.
Proof.
  split; [exact bareRun_Ok|]. split; [reflexivity|].
  destruct (Build_pod_metadata _ _ _ _ _ _ bareRun_Ok)
    as (_ & _ & _ & _ & Hkey & Hother & Hname).
  split; [exact Hkey|].
  split; [rewrite Hother; [reflexivity|discriminate]|].
  split.
  - etransitivity; [exact (f_equal fst Hname)|evaluate].
  - etransitivity; [exact (f_equal snd Hname)|evaluate].
Defined.

Lemma Build_pod_template_witness :
  Build (ctx "alpha") (builder true) taskSpec bareRun = (Ok barePod, bareAfter)
  ∧ TaskRunSpec.PodTemplate (TaskRun.Spec (taskRunObject bareRun)) = None
  ∧ PodSpec.DNSPolicy (Pod.Spec barePod) = ""
  ∧ PodSpec.Affinity (Pod.Spec barePod) = None.
Proof.
  split; [exact bareRun_Ok|]. split; [reflexivity|].
  destruct (Build_pod_template _ _ _ _ _ _ bareRun_Ok) as [Hnil _].
  destruct (Hnil eq_refl)
    as (_ & _ & _ & _ & _ & _ & _ & Hdns & _ & _ & _ & _ & _ & Haff & _).
  split; [exact Hdns|]. apply Haff. reflexivity.
Defined.

Lemma Build_home_env_flag_witness :
  OverrideHomeEnv (builder true) = ShouldOverrideHomeEnv (ctx "alpha")
  ∧ Build (ctx "alpha") (builder true) taskSpec hermeticRun
    = (Ok hermeticPod, hermeticAfter)
  ∧ prepare (ctx "alpha") (builder true) (taskRunObject hermeticRun) taskSpec
    = Ok hermeticPrepared
  ∧ stepContainers hermeticPrepared !! 0%nat = Some stepOne
  ∧ ∃ s',
      PodSpec.Containers (Pod.Spec hermeticPod) !! 0%nat = Some s'
      ∧ head (Container.Env s') = Some homeEnvVar.
Proof.
  split; [reflexivity|]. split; [exact hermeticRun_built|].
  split; [exact hermeticRun_prepared|]. split; [reflexivity|].
  destruct (Build_home_env_flag (ctx "alpha") (builder true) taskSpec
              hermeticRun hermeticPod hermeticAfter hermeticPrepared 0%nat stepOne
              eq_refl hermeticRun_built hermeticRun_prepared eq_refl)
    as (s' & Hs' & Hoff & _).
  exists s'. split; [exact Hs'|].
  destruct (Hoff eq_refl) as (rest & ->). reflexivity.
Defined.

Lemma bareRun_again_Ok :
  Build (ctx "alpha") otherBuilder taskSpec bareAfter
  = (Ok barePodAgain, bareAfterAgain).
Proof. evaluate. Qed.


End pod_more_examples.
